(** * The AI model registry (ai-registry-server.js): a shallow embedding

    The registry class [AIModelRegistry] keeps JavaScript objects in three
    [Map]s and is driven by an Express application.  This file embeds the
    class, the routes [GET], [PUT] and [DELETE /api/models/:id] and the
    [ModelClient] of the client library as Rocq functions over a small model
    of JavaScript values, and proves properties of them.

    Conventions of the embedding.

    - A JavaScript value is a [value]: [undefined], [null], booleans, numbers,
      strings, arrays and plain objects, as [JSON.parse] builds them.  A
      number is a rational, which every finite double is, or one of the two
      infinities, which [JSON.parse] yields for a numeral beyond the range of
      doubles; comparison, strict equality and the sign of a difference agree
      with those of doubles.  [NaN] is not a value; an operation that would
      produce it is treated explicitly where it occurs.
    - The key of a [Map] entry is a [value]: the registry stores a record
      under the [id] of the request body, which need not be a string, while
      the routes look records up by strings.
    - An operation returns [option]: [None] stands for a call that leaves the
      modelled fragment, either because JavaScript throws a [TypeError] there
      (a property of [undefined], the conversion to a string of an object
      that has a [toString] property) or because it applies a coercion that
      is not modelled (a fraction to a string, a string to a number, an array
      to a primitive).  Whenever a function returns [Some], it is what the
      JavaScript code computes; for a sorted array this holds when the
      comparator orders the elements consistently (see [sortBy]).
    - The clock ([new Date()], [Date.now()], [process.uptime()]) and
      [uuidv4()] are inputs of the functions that read them.
    - [broadcastUpdate] writes to sockets and never touches the three maps;
      it is left out.  A log line is modelled where its template literal
      decides what a call returns ([removeModel]). *)

From Stdlib Require Import List String Ascii Bool ZArith NArith QArith Lia Lqa.
From Stdlib Require Import DecimalString.
From Stdlib Require Import Permutation Sorted.
Import ListNotations.

Set Warnings "-register-all".

Local Open Scope string_scope.
Local Open Scope list_scope.

(** ** JavaScript values *)

Module JS.

Inductive value : Type :=
| VUndef
| VNull
| VBool (b : bool)
| VNum (q : Q)
| VInf (positive : bool)
| VStr (s : string)
| VArr (xs : list value)
| VObj (fields : list (string * value)).

(** A plain object: its own enumerable properties in enumeration order. *)
Definition obj : Type := list (string * value).

Section ValueInd.
Variable P : value -> Prop.
Hypothesis HUndef : P VUndef.
Hypothesis HNull : P VNull.
Hypothesis HBool : forall b, P (VBool b).
Hypothesis HNum : forall q, P (VNum q).
Hypothesis HInf : forall p, P (VInf p).
Hypothesis HStr : forall s, P (VStr s).
Hypothesis HArr : forall xs, Forall P xs -> P (VArr xs).
Hypothesis HObj : forall fs, Forall (fun kv => P (snd kv)) fs -> P (VObj fs).

Fixpoint value_nested_ind (v : value) : P v :=
  match v with
  | VUndef => HUndef
  | VNull => HNull
  | VBool b => HBool b
  | VNum q => HNum q
  | VInf p => HInf p
  | VStr s => HStr s
  | VArr xs =>
      HArr xs
        ((fix go (l : list value) : Forall P l :=
            match l with
            | [] => Forall_nil P
            | x :: r => Forall_cons x (value_nested_ind x) (go r)
            end) xs)
  | VObj fs =>
      HObj fs
        ((fix go (l : list (string * value)) : Forall (fun kv => P (snd kv)) l :=
            match l with
            | [] => Forall_nil _
            | kv :: r => Forall_cons kv (value_nested_ind (snd kv)) (go r)
            end) fs)
  end.
End ValueInd.

(** ToBoolean. *)
Definition truthy (v : value) : bool :=
  match v with
  | VUndef | VNull => false
  | VBool b => b
  | VNum q => negb (Qeq_bool q 0)
  | VStr s => negb (s =? "")
  | VInf _ | VArr _ | VObj _ => true
  end.

(** [a || b]. *)
Definition js_or (a b : value) : value := if truthy a then a else b.

(** [a === b].  Arrays and objects are compared by identity; the two
    operands of every [===] and [!==] of the registry are fields of two
    separately built objects, so an array or object is never identical to the
    other operand. *)
Definition strict_eq (a b : value) : bool :=
  match a, b with
  | VUndef, VUndef => true
  | VNull, VNull => true
  | VBool x, VBool y => Bool.eqb x y
  | VNum x, VNum y => Qeq_bool x y
  | VInf x, VInf y => Bool.eqb x y
  | VStr x, VStr y => x =? y
  | _, _ => false
  end.

(** A JavaScript number as an arithmetic operand: a rational, an infinity
    or [NaN]. *)
Inductive number : Type :=
| NaN
| Fin (q : Q)
| Inf (positive : bool).

(** ToNumber, for the operand of [<], [>] and [-].  Strings, arrays and
    objects need a parser or ToPrimitive and are outside the model. *)
Definition to_number (v : value) : option number :=
  match v with
  | VUndef => Some NaN
  | VNull => Some (Fin 0)
  | VBool b => Some (Fin (if b then 1 else 0))
  | VNum q => Some (Fin q)
  | VInf p => Some (Inf p)
  | VStr _ | VArr _ | VObj _ => None
  end.

(** [a < b] between operands that are not both strings. *)
Definition js_lt (a b : value) : option bool :=
  match to_number a, to_number b with
  | Some (Fin x), Some (Fin y) => Some (negb (Qle_bool y x))
  | Some (Fin _), Some (Inf p) => Some p
  | Some (Inf p), Some (Fin _) => Some (negb p)
  | Some (Inf p), Some (Inf p') => Some (negb p && p')
  | Some _, Some _ => Some false
  | _, _ => None
  end.

(** [a > b]. *)
Definition js_gt (a b : value) : option bool := js_lt b a.

(** [a - b]. *)
Definition js_sub (a b : value) : option number :=
  match to_number a, to_number b with
  | Some (Fin x), Some (Fin y) => Some (Fin (x - y))
  | Some (Fin _), Some (Inf p) => Some (Inf (negb p))
  | Some (Inf p), Some (Fin _) => Some (Inf p)
  | Some (Inf p), Some (Inf p') => Some (if Bool.eqb p p' then NaN else Inf p)
  | Some _, Some _ => Some NaN
  | _, _ => None
  end.

(** *** Plain objects *)

(** Objects are association lists; [assoc] is the first binding of a key and
    [assoc_replace] changes it in place. *)
Fixpoint assoc {A : Type} (k : string) (l : list (string * A)) : option A :=
  match l with
  | [] => None
  | (k', v) :: r => if k' =? k then Some v else assoc k r
  end.

Fixpoint assoc_replace {A : Type} (k : string) (v : A) (l : list (string * A))
  : list (string * A) :=
  match l with
  | [] => []
  | (k', v') :: r =>
      if k' =? k then (k, v) :: r else (k', v') :: assoc_replace k v r
  end.

Abbreviation obj_find := (@assoc value) (only parsing).

(** [o.k] for an own property name [k] that no prototype defines: a missing
    property reads [undefined]. *)
Definition obj_get (k : string) (o : obj) : value :=
  match obj_find k o with
  | Some v => v
  | None => VUndef
  end.

Definition obj_has (k : string) (o : obj) : bool :=
  match obj_find k o with
  | Some _ => true
  | None => false
  end.

Definition obj_keys (o : obj) : list string := map fst o.

(** [v.k] on an arbitrary value, for a name [k] that is not a built-in
    property of strings, numbers, booleans or arrays: reading a property of
    [undefined] or [null] throws, a primitive or an array has no such
    property. *)
Definition prop (k : string) (v : value) : option value :=
  match v with
  | VUndef | VNull => None
  | VObj o => Some (obj_get k o)
  | VBool _ | VNum _ | VInf _ | VStr _ | VArr _ => Some VUndef
  end.

(** *** ToString *)

(** The largest integer up to which every integer is a double. *)
Definition max_safe_integer : Z := 9007199254740991.

(** Number::toString for an integer that is safe: its decimal digits.  A
    fraction or a larger number is outside the model. *)
Definition integer_string (q : Q) : option string :=
  let q' := Qred q in
  if ((Qden q' =? 1)%positive && (Z.abs (Qnum q') <=? max_safe_integer)%Z)%bool
  then Some (NilZero.string_of_int (Z.to_int (Qnum q')))
  else None.

(** ToString, as a template literal and a computed property key apply it.
    The values are parsed JSON: an own [toString] of an object is never a
    function, and then neither it nor [valueOf] yields a primitive, so the
    conversion throws a [TypeError]; any other object inherits
    [Object.prototype.toString].  Joining an array is outside the model. *)
Definition to_string (v : value) : option string :=
  match v with
  | VUndef => Some "undefined"
  | VNull => Some "null"
  | VBool true => Some "true"
  | VBool false => Some "false"
  | VNum q => integer_string q
  | VInf true => Some "Infinity"
  | VInf false => Some "-Infinity"
  | VStr s => Some s
  | VObj o => if obj_has "toString" o then None else Some "[object Object]"
  | VArr _ => None
  end.

(** *** Property order *)

(** An array index in the sense of ECMAScript: the canonical decimal string of
    an integer below 2^32 - 1.  Own properties of an ordinary object are
    enumerated with the array indices first, in ascending order, and then the
    other names in the order they were created. *)
Definition digit (c : ascii) : option N :=
  let n := N_of_ascii c in
  if ((48 <=? n) && (n <=? 57))%N then Some (n - 48)%N else None.

Fixpoint digits (s : string) (acc : N) : option N :=
  match s with
  | EmptyString => Some acc
  | String c r =>
      match digit c with
      | Some d => digits r (10 * acc + d)%N
      | None => None
      end
  end.

Definition array_index (s : string) : option N :=
  match s with
  | EmptyString => None
  | String c r =>
      if (c =? "0")%char then
        match r with EmptyString => Some 0%N | _ => None end
      else
        match digits s 0 with
        | Some n => if (n <? 4294967295)%N then Some n else None
        | None => None
        end
  end.

Fixpoint obj_insert_index (n : N) (k : string) (v : value) (o : obj) : obj :=
  match o with
  | [] => [(k, v)]
  | (k', v') :: r =>
      match array_index k' with
      | Some n' =>
          if (n' <? n)%N then (k', v') :: obj_insert_index n k v r
          else (k, v) :: (k', v') :: r
      | None => (k, v) :: (k', v') :: r
      end
  end.

(** CreateDataProperty: an existing property keeps its place, a new one is
    enumerated among the array indices or after the other names. *)
Definition obj_set (k : string) (v : value) (o : obj) : obj :=
  if obj_has k o then assoc_replace k v o
  else
    match array_index k with
    | Some n => obj_insert_index n k v o
    | None => o ++ [(k, v)]
    end.

(** [{...base, ...extra}]: the properties of [extra] are defined one by one
    on a copy of [base]. *)
Definition spread (base extra : obj) : obj :=
  fold_left (fun o kv => obj_set (fst kv) (snd kv) o) extra base.

(** [Object.fromEntries] of entries whose keys are already property keys. *)
Definition fromEntries (es : list (string * value)) : obj := spread [] es.

(** *** JSON *)

(** [JSON.parse (JSON.stringify v)] for a [v] other than [undefined]: a
    property whose value is [undefined] is dropped, an [undefined] array
    element and an infinity become [null], everything else is kept.  The
    text in between is the runtime's business; a data file is modelled by the
    value its text parses to. *)
Fixpoint to_json (v : value) : value :=
  match v with
  | VArr xs =>
      VArr (map (fun x => match x with VUndef => VNull | _ => to_json x end) xs)
  | VObj fs =>
      VObj ((fix fields (l : list (string * value)) : list (string * value) :=
               match l with
               | [] => []
               | (k, x) :: r =>
                   match x with
                   | VUndef => fields r
                   | _ => (k, to_json x) :: fields r
                   end
               end) fs)
  | VInf _ => VNull
  | _ => v
  end.

Fixpoint json_fields (l : obj) : obj :=
  match l with
  | [] => []
  | (k, x) :: r =>
      match x with
      | VUndef => json_fields r
      | _ => (k, to_json x) :: json_fields r
      end
  end.

(** *** [Map] with object values *)

(** The entries of a [Map] in iteration order.  A key is whatever value the
    registry hands to [set]: the [id] of a request body or a generated
    uuid. *)
Definition jsmap : Type := list (value * obj).

(** [Map] compares keys by SameValueZero, which is [===] on the values of the
    model.  A key that is an array or an object is a reference; the registry
    only ever uses one as a key when it comes with a request body, and each
    body is parsed into fresh objects, so such a key is never the same as a
    key the map holds or as the string a route looks up. *)
Fixpoint map_find (k : value) (m : jsmap) : option obj :=
  match m with
  | [] => None
  | (k', v) :: r => if strict_eq k' k then Some v else map_find k r
  end.

(** [m.get(k)] for a string [k], as the routes call it; [None] for
    [undefined]. *)
Definition map_get (k : string) (m : jsmap) : option obj := map_find (VStr k) m.

Definition map_has (k : value) (m : jsmap) : bool :=
  match map_find k m with Some _ => true | None => false end.

(** The entry of the key [k] gets the value [v]; the map keeps the key it
    has. *)
Fixpoint map_update (k : value) (v : obj) (m : jsmap) : jsmap :=
  match m with
  | [] => []
  | (k', v') :: r =>
      if strict_eq k' k then (k', v) :: r else (k', v') :: map_update k v r
  end.

Definition map_replace (k : string) (v : obj) (m : jsmap) : jsmap :=
  map_update (VStr k) v m.

(** [m.set(k, v)]: an existing key keeps its place in the iteration order, a
    new key goes last. *)
Definition map_set (k : value) (v : obj) (m : jsmap) : jsmap :=
  if map_has k m then map_update k v m else m ++ [(k, v)].

(** [m.delete(k)] for a string [k]. *)
Fixpoint map_delete (k : string) (m : jsmap) : jsmap :=
  match m with
  | [] => []
  | (k', v) :: r => if strict_eq k' (VStr k) then r else (k', v) :: map_delete k r
  end.

(** [m.values()], in iteration order. *)
Definition map_values (m : jsmap) : list obj := map snd m.

Definition map_keys (m : jsmap) : list value := map fst m.

(** [m.size]. *)
Definition map_size (m : jsmap) : nat := List.length m.

(** [new Map(Object.entries(o))]: the keys are property names. *)
Definition map_of_entries (es : list (string * obj)) : jsmap :=
  fold_left (fun m kv => map_set (VStr (fst kv)) (snd kv) m) es [].

Fixpoint distinct (l : list string) : bool :=
  match l with
  | [] => true
  | x :: r => negb (existsb (String.eqb x) r) && distinct r
  end.

Fixpoint distinct_keys (l : list value) : bool :=
  match l with
  | [] => true
  | x :: r => negb (existsb (strict_eq x) r) && distinct_keys r
  end.

(** A [Map] holds each key once, and so does an object each property name. *)
Definition map_wf (m : jsmap) : bool := distinct_keys (map_keys m).

Definition obj_wf (o : obj) : bool := distinct (obj_keys o).

End JS.

(** ** The registry class *)

Module Registry.
Import JS.

Notation "x <- e ;; k" :=
  (match e with Some x => k | None => None end)
  (at level 61, e at next level, right associativity).

(** The instance fields that hold records.  [dataFile] is a constant and
    [wsClients] only feeds [broadcastUpdate]. *)
Record registry : Type := {
  models : jsmap;
  agents : jsmap;
  networks : jsmap
}.

(** The constructor's maps, before [loadData] runs. *)
Definition fresh : registry := {| models := []; agents := []; networks := [] |}.

Definition with_models (m : jsmap) (r : registry) : registry :=
  {| models := m; agents := agents r; networks := networks r |}.

Definition with_agents (m : jsmap) (r : registry) : registry :=
  {| models := models r; agents := m; networks := networks r |}.

Definition default_communicationSchema : value :=
  VObj [("requestFormat", VStr "openai-compatible");
        ("responseFormat", VStr "openai-compatible");
        ("streamingSupported", VBool false);
        ("authMethod", VStr "api-key")].

(** The object literal [modelEntry] of [registerModel]. *)
Definition modelEntry (modelData : obj) (modelId : value) (timestamp : string) : obj :=
  [("id", modelId);
   ("name", obj_get "name" modelData);
   ("type", obj_get "type" modelData);
   ("provider", obj_get "provider" modelData);
   ("endpoint", obj_get "endpoint" modelData);
   ("apiKey", obj_get "apiKey" modelData);
   ("protocol", js_or (obj_get "protocol" modelData) (VStr "https"));
   ("capabilities", js_or (obj_get "capabilities" modelData) (VArr []));
   ("inputFormats", js_or (obj_get "inputFormats" modelData) (VArr [VStr "text"]));
   ("outputFormats", js_or (obj_get "outputFormats" modelData) (VArr [VStr "text"]));
   ("maxTokens", obj_get "maxTokens" modelData);
   ("contextWindow", obj_get "contextWindow" modelData);
   ("communicationSchema",
     js_or (obj_get "communicationSchema" modelData) default_communicationSchema);
   ("latencyMs", js_or (obj_get "latencyMs" modelData) VNull);
   ("reliability", js_or (obj_get "reliability" modelData) (VNum 1));
   ("costPerToken", js_or (obj_get "costPerToken" modelData) VNull);
   ("rateLimit", js_or (obj_get "rateLimit" modelData) VNull);
   ("description", obj_get "description" modelData);
   ("tags", js_or (obj_get "tags" modelData) (VArr []));
   ("version", js_or (obj_get "version" modelData) (VStr "1.0"));
   ("registeredAt", VStr timestamp);
   ("lastSeen", VStr timestamp);
   ("lastUpdated", VStr timestamp);
   ("status", VStr "active");
   ("registeredBy", js_or (obj_get "registeredBy" modelData) (VStr "manual"))].

(** [registerModel(modelData)] up to the [set] of line 118: the registry
    after the call and the record that it stores.  [uuid] is what [uuidv4()]
    returns when it is called, [timestamp] is [new Date().toISOString()].
    The key is the [id] of the input as it is, a string or not.  The
    template literal of the log line is evaluated after the [set]; should it
    throw, the call does not return the record, which is stored all the
    same. *)
Definition registerModel (modelData : obj) (uuid timestamp : string) (r : registry)
  : option (registry * obj) :=
  let modelId := js_or (obj_get "id" modelData) (VStr uuid) in
  let entry := modelEntry modelData modelId timestamp in
  Some (with_models (map_set modelId entry (models r)) r, entry).

(** The object literal [agentEntry] of [registerAgent]. *)
Definition agentEntry (agentData : obj) (agentId : value) (timestamp : string) : obj :=
  [("id", agentId);
   ("name", obj_get "name" agentData);
   ("type", js_or (obj_get "type" agentData) (VStr "ultimate-agent"));
   ("endpoint", obj_get "endpoint" agentData);
   ("dashboardPort", obj_get "dashboardPort" agentData);
   ("capabilities", js_or (obj_get "capabilities" agentData) (VArr []));
   ("availableModels", js_or (obj_get "availableModels" agentData) (VArr []));
   ("preferredModels", js_or (obj_get "preferredModels" agentData) (VArr []));
   ("networkId", obj_get "networkId" agentData);
   ("nodeUrl", obj_get "nodeUrl" agentData);
   ("status", js_or (obj_get "status" agentData) (VStr "online"));
   ("lastHeartbeat", VStr timestamp);
   ("registeredAt", VStr timestamp);
   ("registeredBy", js_or (obj_get "registeredBy" agentData) (VStr "auto"))].

(** [registerAgent(agentData)] up to the [set] of line 155. *)
Definition registerAgent (agentData : obj) (uuid timestamp : string) (r : registry)
  : option (registry * obj) :=
  let agentId := js_or (obj_get "id" agentData) (VStr uuid) in
  let entry := agentEntry agentData agentId timestamp in
  Some (with_agents (map_set agentId entry (agents r)) r, entry).

(** *** findModels *)

(** [arr.includes(x)] on an array.  Any other receiver throws or, for a
    string, searches a substring; both are outside the model. *)
Definition includes (arr x : value) : option bool :=
  match arr with
  | VArr xs => Some (existsb (fun e => strict_eq e x) xs)
  | _ => None
  end.

(** [xs.every(f)]: stops at the first element that fails. *)
Fixpoint every (f : value -> option bool) (xs : list value) : option bool :=
  match xs with
  | [] => Some true
  | x :: r =>
      b <- f x ;;
      if b then every f r else Some false
  end.

(** [c && test] used as a condition. *)
Definition guard (c : value) (test : option bool) : option bool :=
  if truthy c then test else Some false.

(** The condition of the [maxLatency] line:
    [criteria.maxLatency && model.latencyMs > criteria.maxLatency]. *)
Definition exceeds_maxLatency (criteria model : obj) : option bool :=
  guard (obj_get "maxLatency" criteria)
    (js_gt (obj_get "latencyMs" model) (obj_get "maxLatency" criteria)).

(** The body of the loop of [findModels]: the eight [if] statements run one
    after the other, each may set [matches] to [false]. *)
Definition modelMatches (criteria model : obj) : option bool :=
  c1 <- guard (obj_get "type" criteria)
          (Some (negb (strict_eq (obj_get "type" model) (obj_get "type" criteria)))) ;;
  c2 <- guard (obj_get "provider" criteria)
          (Some (negb (strict_eq (obj_get "provider" model) (obj_get "provider" criteria)))) ;;
  c3 <- guard (obj_get "capability" criteria)
          (option_map negb
             (includes (obj_get "capabilities" model) (obj_get "capability" criteria))) ;;
  c4 <- guard (obj_get "inputFormat" criteria)
          (option_map negb
             (includes (obj_get "inputFormats" model) (obj_get "inputFormat" criteria))) ;;
  c5 <- guard (obj_get "outputFormat" criteria)
          (option_map negb
             (includes (obj_get "outputFormats" model) (obj_get "outputFormat" criteria))) ;;
  c6 <- exceeds_maxLatency criteria model ;;
  c7 <- guard (obj_get "minReliability" criteria)
          (js_lt (obj_get "reliability" model) (obj_get "minReliability" criteria)) ;;
  c8 <- guard (obj_get "tags" criteria)
          (match obj_get "tags" criteria with
           | VArr ts =>
               option_map negb
                 (every (fun tag => includes (obj_get "tags" model) tag) ts)
           | _ => None
           end) ;;
  Some (negb (c1 || c2 || c3 || c4 || c5 || c6 || c7 || c8)).

(** The loop: [results] collects the matching records in iteration order. *)
Fixpoint collect (criteria : obj) (ms : list obj) : option (list obj) :=
  match ms with
  | [] => Some []
  | m :: r =>
      b <- modelMatches criteria m ;;
      rest <- collect criteria r ;;
      Some (if b then m :: rest else rest)
  end.

(** The comparator handed to [sort]. *)
Definition compareModels (a b : obj) : option number :=
  if negb (strict_eq (obj_get "reliability" a) (obj_get "reliability" b)) then
    js_sub (obj_get "reliability" b) (obj_get "reliability" a)
  else
    js_sub (js_or (obj_get "latencyMs" a) (VNum 999999))
           (js_or (obj_get "latencyMs" b) (VNum 999999)).

(** [Array.prototype.sort] with a comparator.  ECMAScript requires the sort to
    be stable, and for a comparator that is a consistent ordering of the
    elements this fixes the result, whatever algorithm the engine runs; the
    model is the stable insertion sort.  A comparator value [NaN] means the
    comparator is not such an ordering: the order is then left to the engine
    and the model gives no answer.  An infinite value has a sign like any
    other.  [compareModels] is such an ordering when
    the reliabilities are numbers and the latencies numbers or unset, which
    is where the theorems below use the sort; there the stable sorted
    arrangement is unique ([stable_sorted_unique]). *)
Fixpoint insertBy {A : Type} (cmp : A -> A -> option number) (x : A) (l : list A)
  : option (list A) :=
  match l with
  | [] => Some [x]
  | y :: r =>
      match cmp x y with
      | Some (Fin d) =>
          if Qle_bool d 0 then Some (x :: y :: r)
          else option_map (cons y) (insertBy cmp x r)
      | Some (Inf p) =>
          if p then option_map (cons y) (insertBy cmp x r)
          else Some (x :: y :: r)
      | _ => None
      end
  end.

Fixpoint sortBy {A : Type} (cmp : A -> A -> option number) (l : list A)
  : option (list A) :=
  match l with
  | [] => Some []
  | x :: r =>
      s <- sortBy cmp r ;;
      insertBy cmp x s
  end.

(** [findModels(criteria)]. *)
Definition findModels (criteria : obj) (r : registry) : option (list obj) :=
  results <- collect criteria (map_values (models r)) ;;
  sortBy compareModels results.

(** *** getModelCommunication *)

(** The names every plain object inherits from [Object.prototype].  Reading
    one of them through a computed key yields a function or the prototype, and
    writing ["__proto__"] changes the prototype: outside the model. *)
Definition inherited_name (s : string) : bool :=
  existsb (String.eqb s)
    ["constructor"; "__defineGetter__"; "__defineSetter__"; "hasOwnProperty";
     "__lookupGetter__"; "__lookupSetter__"; "isPrototypeOf";
     "propertyIsEnumerable"; "toString"; "valueOf"; "__proto__";
     "toLocaleString"].

(** [o[k]] on an object literal. *)
Definition lookup_computed (o : obj) (k : value) : option value :=
  s <- to_string k ;;
  if inherited_name s then None else Some (obj_get s o).

Definition hello : value := VStr "Hello, how can you help me?".

Definition greeting : value := VStr "Hello! I can help you with various tasks...".

(** [generateExampleRequest(model)]: the three templates are built first,
    then one is selected. *)
Definition generateExampleRequest (model : obj) : option value :=
  ep <- to_string (obj_get "endpoint" model) ;;
  let examples : obj :=
    [("openai-compatible",
       VObj [("method", VStr "POST");
             ("endpoint", VStr (ep ++ "/v1/chat/completions")%string);
             ("headers",
               VObj [("Content-Type", VStr "application/json");
                     ("Authorization", VStr "Bearer YOUR_API_KEY")]);
             ("body",
               VObj [("model", obj_get "name" model);
                     ("messages",
                       VArr [VObj [("role", VStr "user"); ("content", hello)]]);
                     ("max_tokens", VNum 150);
                     ("temperature", VNum (7 # 10))])]);
     ("anthropic",
       VObj [("method", VStr "POST");
             ("endpoint", VStr (ep ++ "/v1/messages")%string);
             ("headers",
               VObj [("Content-Type", VStr "application/json");
                     ("x-api-key", VStr "YOUR_API_KEY");
                     ("anthropic-version", VStr "2023-06-01")]);
             ("body",
               VObj [("model", obj_get "name" model);
                     ("max_tokens", VNum 150);
                     ("messages",
                       VArr [VObj [("role", VStr "user"); ("content", hello)]])])]);
     ("ollama",
       VObj [("method", VStr "POST");
             ("endpoint", VStr (ep ++ "/api/generate")%string);
             ("headers", VObj [("Content-Type", VStr "application/json")]);
             ("body",
               VObj [("model", obj_get "name" model);
                     ("prompt", hello);
                     ("stream", VBool false)])])] in
  fmt <- prop "requestFormat" (obj_get "communicationSchema" model) ;;
  e <- lookup_computed examples fmt ;;
  Some (js_or e (obj_get "openai-compatible" examples)).

(** [generateExampleResponse(model)].  [created] is
    [Math.floor(Date.now() / 1000)] and [now] is [new Date().toISOString()]. *)
Definition generateExampleResponse (model : obj) (created : Z) (now : string)
  : option value :=
  let examples : obj :=
    [("openai-compatible",
       VObj [("id", VStr "chatcmpl-123");
             ("object", VStr "chat.completion");
             ("created", VNum (inject_Z created));
             ("model", obj_get "name" model);
             ("choices",
               VArr [VObj [("index", VNum 0);
                           ("message",
                             VObj [("role", VStr "assistant");
                                   ("content", greeting)]);
                           ("finish_reason", VStr "stop")]])]);
     ("anthropic",
       VObj [("id", VStr "msg_123");
             ("type", VStr "message");
             ("role", VStr "assistant");
             ("content", VArr [VObj [("type", VStr "text"); ("text", greeting)]]);
             ("model", obj_get "name" model);
             ("stop_reason", VStr "end_turn")]);
     ("ollama",
       VObj [("model", obj_get "name" model);
             ("created_at", VStr now);
             ("response", greeting);
             ("done", VBool true)])] in
  fmt <- prop "responseFormat" (obj_get "communicationSchema" model) ;;
  e <- lookup_computed examples fmt ;;
  Some (js_or e (obj_get "openai-compatible" examples)).

(** [getModelCommunication(modelId)]: [null] for an unknown id. *)
Definition getModelCommunication (modelId : string) (created : Z) (now : string)
  (r : registry) : option value :=
  match map_get modelId (models r) with
  | None => Some VNull
  | Some model =>
      authMethod <- prop "authMethod" (obj_get "communicationSchema" model) ;;
      exampleRequest <- generateExampleRequest model ;;
      exampleResponse <- generateExampleResponse model created now ;;
      Some (VObj [("id", obj_get "id" model);
                  ("name", obj_get "name" model);
                  ("endpoint", obj_get "endpoint" model);
                  ("protocol", obj_get "protocol" model);
                  ("communicationSchema", obj_get "communicationSchema" model);
                  ("authMethod", authMethod);
                  ("apiKey",
                    if truthy (obj_get "apiKey" model) then VStr "***hidden***"
                    else VNull);
                  ("exampleRequest", exampleRequest);
                  ("exampleResponse", exampleResponse)])
  end.

(** *** updateModelStatus, removeModel, getStats *)

(** [updateModelStatus(modelId, status = 'active')].  The record is changed in
    place, so the map sees the change. *)
Definition updateModelStatus (modelId : string) (status : value) (now : string)
  (r : registry) : registry :=
  let status := match status with VUndef => VStr "active" | _ => status end in
  match map_get modelId (models r) with
  | Some model =>
      let model := obj_set "lastSeen" (VStr now) model in
      let model := obj_set "status" status model in
      with_models (map_replace modelId model (models r)) r
  | None => r
  end.

(** [removeModel(modelId)]: the registry after the call and what the call
    returns.  The template literal of the log line is evaluated after the
    record is deleted; when it throws, or prints a name whose text is outside
    the model, the call has no modelled result ([None]), and the record is
    gone all the same. *)
Definition removeModel (modelId : string) (r : registry) : registry * option bool :=
  match map_get modelId (models r) with
  | Some model =>
      (with_models (map_delete modelId (models r)) r,
       match to_string (obj_get "name" model) with
       | Some _ => Some true
       | None => None
       end)
  | None => (r, Some false)
  end.

(** [counts[key] = (counts[key] || 0) + 1]. *)
Definition count_key (counts : obj) (key : value) : option obj :=
  s <- to_string key ;;
  if inherited_name s then None
  else
    match js_or (obj_get s counts) (VNum 0) with
    | VNum n => Some (obj_set s (VNum (n + 1)) counts)
    | _ => None
    end.

(** The result of [getStats]. *)
Record stats : Type := {
  totalModels : nat;
  activeModels : nat;
  totalAgents : nat;
  modelsByType : obj;
  modelsByProvider : obj;
  uptime : Q;
  lastUpdated : string
}.

(** The variables of the loop of [getStats]. *)
Record tally : Type := {
  t_total : nat;
  t_active : nat;
  t_byType : obj;
  t_byProvider : obj
}.

(** One turn of the loop; it throws when the type or the provider cannot be
    made a property key. *)
Definition tally_step (t : tally) (model : obj) : option tally :=
  byType <- count_key (t_byType t) (obj_get "type" model) ;;
  byProvider <- count_key (t_byProvider t) (obj_get "provider" model) ;;
  Some {| t_total := S (t_total t);
          t_active :=
            if strict_eq (obj_get "status" model) (VStr "active")
            then S (t_active t) else t_active t;
          t_byType := byType;
          t_byProvider := byProvider |}.

Fixpoint tally_all (ms : list obj) (t : tally) : option tally :=
  match ms with
  | [] => Some t
  | m :: rest => t' <- tally_step t m ;; tally_all rest t'
  end.

(** [getStats()]. *)
Definition getStats (up : Q) (now : string) (r : registry) : option stats :=
  t <- tally_all (map_values (models r))
         {| t_total := 0; t_active := 0; t_byType := []; t_byProvider := [] |} ;;
  Some {| totalModels := t_total t;
          activeModels := t_active t;
          totalAgents := map_size (agents r);
          modelsByType := t_byType t;
          modelsByProvider := t_byProvider t;
          uptime := up;
          lastUpdated := now |}.

(** *** saveData, loadData *)

(** The entries that [Object.fromEntries] reads off a map: each key is made
    a property key, which throws for an object with an own [toString]. *)
Fixpoint entries_of_map (m : jsmap) : option (list (string * value)) :=
  match m with
  | [] => Some []
  | (k, v) :: rest =>
      s <- to_string k ;;
      es <- entries_of_map rest ;;
      Some ((s, VObj v) :: es)
  end.

(** [Object.fromEntries(m)]. *)
Definition object_of_map (m : jsmap) : option obj :=
  option_map fromEntries (entries_of_map m).

(** The object [data] built by [saveData]. *)
Definition snapshot (now : string) (r : registry) : option value :=
  ms <- object_of_map (models r) ;;
  ags <- object_of_map (agents r) ;;
  nws <- object_of_map (networks r) ;;
  Some (VObj [("models", VObj ms);
              ("agents", VObj ags);
              ("networks", VObj nws);
              ("lastUpdated", VStr now)]).

(** [saveData()]: the document that the text written to [dataFile] holds,
    [None] when building [data] throws and nothing is written.  A failure
    is caught and logged; the registry is not changed either way. *)
Definition saveData (now : string) (r : registry) : option value :=
  option_map to_json (snapshot now r).

(** The entries of a parsed object as records of a map; an entry that is not
    an object is outside the model. *)
Fixpoint record_entries (o : obj) : option (list (string * obj)) :=
  match o with
  | [] => Some []
  | (k, VObj fs) :: rest =>
      es <- record_entries rest ;;
      Some ((k, fs) :: es)
  | _ => None
  end.

(** [if (parsed.k) this.k = new Map(Object.entries(parsed.k))].  A number
    or [true] has no entries; the entries of a string or an array are outside
    the model. *)
Definition load_map (v : value) (old : jsmap) : option jsmap :=
  if truthy v then
    match v with
    | VObj o => es <- record_entries o ;; Some (map_of_entries es)
    | VBool _ | VNum _ | VInf _ => Some []
    | _ => None
    end
  else Some old.

(** [loadData()].  [file] is what [JSON.parse] makes of the data file, [None]
    when the file cannot be read or parsed: the exception is caught and the
    registry starts fresh. *)
Definition loadData (file : option value) (r : registry) : option registry :=
  match file with
  | None => Some r
  | Some parsed =>
      match prop "models" parsed, prop "agents" parsed, prop "networks" parsed with
      | Some pm, Some pa, Some pn =>
          m <- load_map pm (models r) ;;
          a <- load_map pa (agents r) ;;
          n <- load_map pn (networks r) ;;
          Some {| models := m; agents := a; networks := n |}
      | _, _, _ => Some r
      end
  end.

End Registry.

(** ** The routes that read or change a model *)

Module Server.
Import JS Registry.

(** A response: the status code and the value handed to [res.json]. *)
Definition response : Type := (nat * value)%type.

Definition not_found : response := (404%nat, VObj [("error", VStr "Model not found")]).

(** [GET /api/models/:id]. *)
Definition get_model (id : string) (r : registry) : response :=
  match map_get id (models r) with
  | Some model => (200%nat, VObj [("model", VObj model)])
  | None => not_found
  end.

(** [PUT /api/models/:id] with the parsed body [body]. *)
Definition put_model (id : string) (body : obj) (now : string) (r : registry)
  : registry * response :=
  match map_get id (models r) with
  | None => (r, not_found)
  | Some existingModel =>
      let updatedModel :=
        obj_set "lastUpdated" (VStr now) (spread (spread [] existingModel) body) in
      (with_models (map_set (VStr id) updatedModel (models r)) r,
       (200%nat, VObj [("success", VBool true); ("model", VObj updatedModel)]))
  end.

(** [DELETE /api/models/:id]: no answer of the handler when [removeModel]
    throws. *)
Definition delete_model (id : string) (r : registry) : registry * option response :=
  let (r', success) := removeModel id r in
  (r',
   option_map
     (fun removed : bool =>
        if removed then (200%nat, VObj [("success", VBool true)]) else not_found)
     success).

End Server.

(** ** The vocabulary of the specification *)

Module Spec.
Import JS Registry Server.

(** *** The data model *)

Definition is_arr (v : value) : bool := match v with VArr _ => true | _ => false end.
Definition is_num (v : value) : bool := match v with VNum _ => true | _ => false end.
Definition is_str (v : value) : bool := match v with VStr _ => true | _ => false end.

(** An optional field: absent, or of the given kind. *)
Definition optional (kind : value -> bool) (v : value) : bool :=
  match v with VUndef => true | _ => kind v end.

Definition is_latency (v : value) : bool :=
  match v with VUndef | VNull | VNum _ => true | _ => false end.

(** A model record as section 3 of the specification types it, as far as
    [findModels] reads it: four tag sets, a numeric [reliability], a
    [latencyMs] that is a number or unset. *)
Definition typed_model (m : obj) : bool :=
  is_arr (obj_get "capabilities" m) && is_arr (obj_get "inputFormats" m)
  && is_arr (obj_get "outputFormats" m) && is_arr (obj_get "tags" m)
  && is_num (obj_get "reliability" m) && is_latency (obj_get "latencyMs" m).

Definition typed_store (r : registry) : bool :=
  forallb typed_model (map_values (models r)).

(** A registration input whose performance hints and tag sets, where given,
    have the types of section 3. *)
Definition typed_input (modelData : obj) : bool :=
  optional is_arr (obj_get "capabilities" modelData)
  && optional is_arr (obj_get "inputFormats" modelData)
  && optional is_arr (obj_get "outputFormats" modelData)
  && optional is_arr (obj_get "tags" modelData)
  && optional is_num (obj_get "reliability" modelData)
  && is_latency (obj_get "latencyMs" modelData).

Definition is_str_arr (v : value) : bool :=
  match v with VArr ts => forallb is_str ts | _ => false end.

(** A criteria mapping as section 4.2 types it. *)
Definition typed_criteria (c : obj) : bool :=
  optional is_str (obj_get "type" c) && optional is_str (obj_get "provider" c)
  && optional is_str (obj_get "capability" c)
  && optional is_str (obj_get "inputFormat" c)
  && optional is_str (obj_get "outputFormat" c)
  && optional is_num (obj_get "maxLatency" c)
  && optional is_num (obj_get "minReliability" c)
  && optional is_str_arr (obj_get "tags" c).

(** *** Meeting a criterion *)

Definition has_tag (field : string) (t : value) (m : obj) : Prop :=
  exists xs, obj_get field m = VArr xs /\ In t xs.

(** The latency of the record is not above the bound; [null] counts as 0 in
    the comparison and [undefined] is never above anything. *)
Definition latency_within (q : Q) (m : obj) : Prop :=
  match obj_get "latencyMs" m with
  | VNum x => x <= q
  | VNull => 0 <= q
  | _ => True
  end.

Definition reliability_at_least (q : Q) (m : obj) : Prop :=
  exists x, obj_get "reliability" m = VNum x /\ q <= x.

(** [m] meets every criterion of [c] that counts, where [counts] says which
    values of a criterion do. *)
Definition satisfies (counts : value -> bool) (c m : obj) : Prop :=
  (counts (obj_get "type" c) = true -> obj_get "type" m = obj_get "type" c)
  /\ (counts (obj_get "provider" c) = true ->
      obj_get "provider" m = obj_get "provider" c)
  /\ (counts (obj_get "capability" c) = true ->
      has_tag "capabilities" (obj_get "capability" c) m)
  /\ (counts (obj_get "inputFormat" c) = true ->
      has_tag "inputFormats" (obj_get "inputFormat" c) m)
  /\ (counts (obj_get "outputFormat" c) = true ->
      has_tag "outputFormats" (obj_get "outputFormat" c) m)
  /\ (counts (obj_get "maxLatency" c) = true ->
      forall q, obj_get "maxLatency" c = VNum q -> latency_within q m)
  /\ (counts (obj_get "minReliability" c) = true ->
      forall q, obj_get "minReliability" c = VNum q -> reliability_at_least q m)
  /\ (counts (obj_get "tags" c) = true ->
      forall ts t, obj_get "tags" c = VArr ts -> In t ts -> has_tag "tags" t m).

(** A criterion is supplied when the mapping has a value for it. *)
Definition supplied (v : value) : bool :=
  match v with VUndef => false | _ => true end.

(** Whether the loop of [findModels] keeps the record. *)
Definition selected (c m : obj) : bool :=
  match modelMatches c m with
  | Some b => b
  | None => false
  end.

(** An unset latency: [null], as [registerModel] stores it, or [undefined]. *)
Definition unset (v : value) : bool :=
  match v with VUndef | VNull => true | _ => false end.

(** *** The order of the results *)

Definition reliability_of (m : obj) : Q :=
  match obj_get "reliability" m with VNum q => q | _ => 0 end.

(** The latency the comparator works with: [latencyMs || 999999]. *)
Definition effective_latency (m : obj) : Q :=
  match obj_get "latencyMs" m with
  | VNum x => if Qeq_bool x 0 then 999999 else x
  | _ => 999999
  end.

Definition ranked_before (a b : obj) : Prop :=
  reliability_of b < reliability_of a
  \/ (reliability_of a == reliability_of b
      /\ effective_latency a <= effective_latency b).

(** Two records that the comparator does not tell apart. *)
Definition tied (a b : obj) : bool :=
  Qeq_bool (reliability_of a) (reliability_of b)
  && Qeq_bool (effective_latency a) (effective_latency b).

(** The order on latencies in which an unset latency comes after every set
    one. *)
Definition latency_le_unset_last (a b : obj) : Prop :=
  match obj_get "latencyMs" a, obj_get "latencyMs" b with
  | VNum x, VNum y => x <= y
  | _, VNum _ => False
  | _, _ => True
  end.

Definition ranked_before_unset_last (a b : obj) : Prop :=
  reliability_of b < reliability_of a
  \/ (reliability_of a == reliability_of b /\ latency_le_unset_last a b).

(** A class of elements that an order does not separate. *)
Definition tie_class {A : Type} (good : A -> Prop) (le : A -> A -> Prop)
  (p : A -> bool) : Prop :=
  forall a b, good a -> good b -> p a = true -> p b = true -> le a b.

(** The elements that a comparator ranks level with [a]. *)
Definition level_with {A : Type} (cmp : A -> A -> option number) (a x : A) : bool :=
  match cmp a x, cmp x a with
  | Some (Fin d1), Some (Fin d2) => Qle_bool d1 0 && Qle_bool d2 0
  | _, _ => false
  end.

(** *** Timestamps *)


(** *** Registration input *)



(** *** Communication descriptors *)

Definition plain_key (v : value) : bool :=
  match to_string v with
  | Some s => negb (inherited_name s)
  | None => false
  end.

(** The records for which [getModelCommunication] stays inside the model: a
    [communicationSchema] that is not [undefined] or [null], formats that are
    plain property keys, an [endpoint] that a template literal can print. *)
Definition describable (m : obj) : bool :=
  match prop "requestFormat" (obj_get "communicationSchema" m),
        prop "responseFormat" (obj_get "communicationSchema" m),
        to_string (obj_get "endpoint" m) with
  | Some f, Some g, Some _ => plain_key f && plain_key g
  | _, _, _ => false
  end.

Definition descriptor_keys : list string :=
  ["id"; "name"; "endpoint"; "protocol"; "communicationSchema"; "authMethod";
   "apiKey"; "exampleRequest"; "exampleResponse"].

(** *** Snapshots *)

Definition top_level_keys (v : value) : list string :=
  match v with
  | VObj o => obj_keys o
  | _ => []
  end.

(** The records that a route can reach: those stored under a string, with
    their ids. *)
Fixpoint named (m : jsmap) : list (string * obj) :=
  match m with
  | [] => []
  | (VStr s, v) :: rest => (s, v) :: named rest
  | _ :: rest => named rest
  end.

(** Every id of the map is a string. *)
Definition string_keys (m : jsmap) : bool := forallb is_str (map_keys m).

(** The record that [Object.fromEntries] files under the name [id]: of the
    records whose keys print as [id], the one that the map enumerates
    last. *)
Fixpoint filed (id : string) (m : jsmap) : option obj :=
  match m with
  | [] => None
  | (k, v) :: rest =>
      match filed id rest with
      | Some v' => Some v'
      | None =>
          match to_string k with
          | Some s => if s =? id then Some v else None
          | None => None
          end
      end
  end.

(** Every key of the three maps can be made a property name. *)
Definition printable_keys (m : jsmap) : bool :=
  forallb (fun k => match to_string k with Some _ => true | None => false end)
    (map_keys m).

Definition printable_ids (r : registry) : bool :=
  printable_keys (models r) && printable_keys (agents r)
  && printable_keys (networks r).

Definition string_ids (r : registry) : bool :=
  string_keys (models r) && string_keys (agents r) && string_keys (networks r).

(** What the document holds under [models], [agents] or [networks] for
    records with the given names. *)
Definition written (es : list (string * obj)) : obj :=
  json_fields (fromEntries (map (fun kv => (fst kv, VObj (snd kv))) es)).

(** No infinity anywhere inside the value. *)
Fixpoint finite (v : value) : bool :=
  match v with
  | VInf _ => false
  | VArr xs => forallb finite xs
  | VObj fs => forallb (fun kv => finite (snd kv)) fs
  | _ => true
  end.

Definition finite_map (m : jsmap) : bool :=
  forallb (fun a => finite (VObj a)) (map_values m).

Definition finite_store (r : registry) : bool :=
  finite_map (models r) && finite_map (agents r) && finite_map (networks r).

(** No [undefined] anywhere inside the value. *)
Fixpoint no_undef (v : value) : bool :=
  match v with
  | VUndef => false
  | VArr xs => forallb no_undef xs
  | VObj fs => forallb (fun kv => no_undef (snd kv)) fs
  | _ => true
  end.

(** A field of a record built from parsed JSON: [undefined] when the input
    did not have it, a JSON value otherwise. *)
Definition clean_field (v : value) : bool :=
  match v with VUndef => true | _ => no_undef v end.

Definition clean_record (m : obj) : bool :=
  obj_wf m && forallb (fun kv => clean_field (snd kv)) m.

Definition clean_map (m : jsmap) : bool :=
  map_wf m && forallb clean_record (map_values m).

Definition clean_store (r : registry) : bool :=
  clean_map (models r) && clean_map (agents r) && clean_map (networks r).

(** What [JSON.parse] returns, and so what a request body or a data file
    holds: no [undefined], and each name once in every object.  A numeral
    beyond the range of doubles parses to an infinity. *)
Fixpoint json_wf (v : value) : bool :=
  match v with
  | VUndef => false
  | VArr xs => forallb json_wf xs
  | VObj fs => distinct (map fst fs) && forallb (fun kv => json_wf (snd kv)) fs
  | _ => true
  end.

(** One call on the registry, with arguments as the routes and the startup
    code supply them. *)
Inductive step : registry -> registry -> Prop :=
| step_registerModel (modelData : obj) (uuid timestamp : string)
    (r r' : registry) (entry : obj) :
    json_wf (VObj modelData) = true ->
    registerModel modelData uuid timestamp r = Some (r', entry) ->
    step r r'
| step_registerAgent (agentData : obj) (uuid timestamp : string)
    (r r' : registry) (entry : obj) :
    json_wf (VObj agentData) = true ->
    registerAgent agentData uuid timestamp r = Some (r', entry) ->
    step r r'
| step_put_model (id : string) (body : obj) (now : string) (r : registry) :
    json_wf (VObj body) = true ->
    step r (fst (put_model id body now r))
| step_updateModelStatus (id : string) (status : value) (now : string)
    (r : registry) :
    clean_field status = true ->
    step r (updateModelStatus id status now r)
| step_removeModel (id : string) (r : registry) :
    step r (fst (removeModel id r))
| step_loadData (file : option value) (r r' : registry) :
    match file with Some doc => json_wf doc = true | None => True end ->
    loadData file r = Some r' ->
    step r r'.

(** The registries that the server can be in. *)
Inductive reachable : registry -> Prop :=
| reachable_fresh : reachable fresh
| reachable_step (r r' : registry) : reachable r -> step r r' -> reachable r'.

(** The two maps have the same keys, and under each key records whose fields
    read the same. *)
Definition same_records (m m' : jsmap) : Prop :=
  forall id,
    match map_get id m, map_get id m' with
    | Some a, Some b => forall f, obj_get f b = obj_get f a
    | None, None => True
    | _, _ => False
    end.

End Spec.

(** ** Example registries *)

Module Examples.
Import JS Registry Server Spec.

(** The registry after a registration. *)
Definition after_register (modelData : obj) (uuid timestamp : string)
  (r : registry) : registry :=
  match registerModel modelData uuid timestamp r with
  | Some (r', _) => r'
  | None => r
  end.

(** Scenario 1 of the specification. *)
Definition gpt4_input : obj :=
  [("name", VStr "gpt-4"); ("type", VStr "llm"); ("provider", VStr "openai");
   ("reliability", VNum (99 # 100)); ("latencyMs", VNum 1500)].

Definition llama2_input : obj :=
  [("name", VStr "llama2"); ("type", VStr "llm"); ("provider", VStr "ollama");
   ("reliability", VNum (95 # 100)); ("latencyMs", VNum 3000)].

Definition gpt4 : obj := modelEntry gpt4_input (VStr "id-1") "2024-01-01T00:00:00.000Z".

Definition llama2 : obj := modelEntry llama2_input (VStr "id-2") "2024-01-01T00:00:01.000Z".

Definition two_models : registry :=
  after_register llama2_input "id-2" "2024-01-01T00:00:01.000Z"
    (after_register gpt4_input "id-1" "2024-01-01T00:00:00.000Z" fresh).

(** A bound of zero is supplied. *)
Definition zero_latency_criteria : obj := [("maxLatency", VNum 0)].

(** Two equally reliable models; the latency of the second is then updated
    to 0 through the route. *)
Definition quick_input : obj := [("id", VStr "a"); ("latencyMs", VNum 5)].

Definition instant_input : obj := [("id", VStr "b"); ("latencyMs", VNum 7)].

Definition zero_latency_store : registry :=
  fst (put_model "b" [("latencyMs", VNum 0)] "2024-01-01T00:00:02.000Z"
         (after_register instant_input "u" "2024-01-01T00:00:01.000Z"
            (after_register quick_input "u" "2024-01-01T00:00:00.000Z" fresh))).

(** A model registered without a latency, and a negative bound. *)
Definition unmeasured_input : obj := [("id", VStr "m"); ("name", VStr "unmeasured")].

Definition unmeasured : obj :=
  modelEntry unmeasured_input (VStr "m") "2024-01-01T00:00:00.000Z".

Definition unmeasured_store : registry :=
  after_register unmeasured_input "u" "2024-01-01T00:00:00.000Z" fresh.

Definition negative_bound_criteria : obj := [("maxLatency", VNum (-1))].

(** A model registered with a key. *)
Definition secret_input : obj :=
  [("id", VStr "s"); ("name", VStr "guarded"); ("endpoint", VStr "http://h");
   ("apiKey", VStr "secret")].

Definition secret_store : registry :=
  after_register secret_input "u" "2024-01-01T00:00:00.000Z" fresh.

(** A model without a latency, registered before an equally reliable model
    whose latency is above the sentinel. *)
Definition slow_input : obj := [("id", VStr "slow"); ("latencyMs", VNum 1000000)].

Definition slow_store : registry :=
  after_register slow_input "u" "2024-01-01T00:00:01.000Z" unmeasured_store.

(** A model whose key is the text of the mask. *)
Definition masked_input : obj :=
  [("id", VStr "k"); ("endpoint", VStr "http://h"); ("apiKey", VStr "***hidden***")].

Definition masked_store : registry :=
  after_register masked_input "u" "2024-01-01T00:00:00.000Z" fresh.

(** Two registrations, the first with the string ["1"] as its id and the
    second with the number 1. *)
Definition twin_ids_store : registry :=
  after_register [("id", VNum 1); ("name", VStr "second")] "u"
    "2024-01-01T00:00:01.000Z"
    (after_register [("id", VStr "1"); ("name", VStr "first")] "u"
       "2024-01-01T00:00:00.000Z" fresh).

(** A model registered with the latency [1e999], which parses to
    [Infinity]. *)
Definition endless_store : registry :=
  after_register [("id", VStr "e"); ("latencyMs", VInf true)] "u"
    "2024-01-01T00:00:00.000Z" fresh.




(** Scenario 1 with an agent next to the two models. *)
Definition populated : registry :=
  match
    registerAgent [("name", VStr "worker"); ("endpoint", VStr "http://w")]
      "agent-1" "2024-01-01T00:00:02.000Z" two_models
  with
  | Some (r', _) => r'
  | None => two_models
  end.

End Examples.

(** ** The model client (ai-registry-client.js)

    [ModelClient] is built from the descriptor that the registry serves and
    talks to the model behind it.  Its request building, response parsing
    and header selection are embedded here; the socket traffic is not. *)

Module Client.
Import JS Registry Server.

(** The formats that the [switch] statements of [ModelClient] tell apart. *)
Inductive wire : Type :=
| OpenAI
| Anthropic
| Ollama
| Other.

(** [switch (format)]: the cases are compared with [===]. *)
Definition wire_of (format : value) : wire :=
  if strict_eq format (VStr "openai-compatible") then OpenAI
  else if strict_eq format (VStr "anthropic") then Anthropic
  else if strict_eq format (VStr "ollama") then Ollama
  else Other.

(** The fields that the constructor sets. *)
Record modelClient : Type := {
  mc_communication : value;
  mc_endpoint : value;
  mc_schema : value;
  mc_name : value
}.

(** [new ModelClient(communication)]. *)
Definition newModelClient (communication : value) : option modelClient :=
  endpoint <- prop "endpoint" communication ;;
  schema <- prop "communicationSchema" communication ;;
  name <- prop "name" communication ;;
  Some {| mc_communication := communication;
          mc_endpoint := endpoint;
          mc_schema := schema;
          mc_name := name |}.

Definition user_message (prompt : value) : value :=
  VArr [VObj [("role", VStr "user"); ("content", prompt)]].

(** [buildRequest(prompt, options)], for an [options] object. *)
Definition buildRequest (c : modelClient) (prompt : value) (options : obj)
  : option value :=
  format <- prop "requestFormat" (mc_schema c) ;;
  Some (VObj
    match wire_of format with
    | OpenAI =>
        spread [("model", mc_name c);
                ("messages", user_message prompt);
                ("max_tokens", js_or (obj_get "maxTokens" options) (VNum 150));
                ("temperature", js_or (obj_get "temperature" options) (VNum (7 # 10)))]
          options
    | Anthropic =>
        spread [("model", mc_name c);
                ("max_tokens", js_or (obj_get "maxTokens" options) (VNum 150));
                ("messages", user_message prompt)]
          options
    | Ollama =>
        [("model", mc_name c);
         ("prompt", prompt);
         ("stream", VBool false);
         ("options",
           VObj (spread
                   [("temperature",
                      js_or (obj_get "temperature" options) (VNum (7 # 10)))]
                   options))]
    | Other => spread [("prompt", prompt)] options
    end).


(** [v?.[0]].  Indexing a string yields a character, which the model does
    not represent. *)
Definition opt_index0 (v : value) : option value :=
  match v with
  | VUndef | VNull => Some VUndef
  | VArr xs => Some (hd VUndef xs)
  | VObj o => Some (obj_get "0" o)
  | VBool _ | VNum _ | VInf _ => Some VUndef
  | VStr _ => None
  end.

(** [v?.k]. *)
Definition opt_prop (k : string) (v : value) : option value :=
  match v with
  | VUndef | VNull => Some VUndef
  | _ => prop k v
  end.

(** [parseResponse(response)].  The last resort of the default case,
    [JSON.stringify(response)], is a text and outside the model. *)
Definition parseResponse (c : modelClient) (response : value) : option value :=
  format <- prop "responseFormat" (mc_schema c) ;;
  match wire_of format with
  | OpenAI =>
      choices <- prop "choices" response ;;
      first <- opt_index0 choices ;;
      message <- opt_prop "message" first ;;
      content <- opt_prop "content" message ;;
      if truthy content then Some content
      else
        text <- opt_prop "text" first ;;
        Some (js_or text (VStr "No response"))
  | Anthropic =>
      content <- prop "content" response ;;
      first <- opt_index0 content ;;
      text <- opt_prop "text" first ;;
      Some (js_or text (VStr "No response"))
  | Ollama =>
      r <- prop "response" response ;;
      Some (js_or r (VStr "No response"))
  | Other =>
      t <- prop "text" response ;;
      if truthy t then Some t
      else
        r <- prop "response" response ;;
        if truthy r then Some r
        else
          o <- prop "output" response ;;
          if truthy o then Some o else None
  end.

(** The [headers] of the options that [sendRequest] hands to [lib.request],
    which it reaches when the [URL] constructor accepts the endpoint. *)
Definition requestHeaders (c : modelClient) : option obj :=
  let headers : obj :=
    [("Content-Type", VStr "application/json");
     ("User-Agent", VStr "AIRegistryClient/1.0")] in
  authMethod <- prop "authMethod" (mc_schema c) ;;
  if strict_eq authMethod (VStr "api-key") then
    apiKey <- prop "apiKey" (mc_communication c) ;;
    if truthy apiKey then
      format <- prop "requestFormat" (mc_schema c) ;;
      if strict_eq format (VStr "anthropic") then
        Some (obj_set "anthropic-version" (VStr "2023-06-01")
                (obj_set "x-api-key" apiKey headers))
      else
        key <- to_string apiKey ;;
        Some (obj_set "Authorization" (VStr ("Bearer " ++ key)%string) headers)
    else Some headers
  else Some headers.

(** [GET /api/models/:id/communication]. *)
Definition get_communication (id : string) (created : Z) (now : string)
  (r : registry) : option response :=
  communication <- getModelCommunication id created now r ;;
  Some (if truthy communication
        then (200%nat, VObj [("communication", communication)])
        else not_found).

(** What [makeRequest] resolves to: the parsed body of a response with a 2xx
    status.  Any other status rejects. *)
Definition resolved (resp : response) : option value :=
  if ((200 <=? fst resp) && (fst resp <? 300))%nat then Some (to_json (snd resp))
  else None.

(** The characters that the URL parser and the router of Express leave as
    they are in a path segment: letters, digits, [-] and [_]. *)
Definition segment_char (c : ascii) : bool :=
  let n := N_of_ascii c in
  ((48 <=? n) && (n <=? 57) || (65 <=? n) && (n <=? 90)
   || (97 <=? n) && (n <=? 122) || (n =? 45) || (n =? 95))%N.

Fixpoint segment_chars (s : string) : bool :=
  match s with
  | EmptyString => true
  | String c rest => segment_char c && segment_chars rest
  end.

Definition plain_segment (s : string) : bool :=
  negb (s =? "") && segment_chars s.

(** The [:id] that the route receives for the path
    [`/api/models/${modelId}/communication`] of the client, which puts the
    id into the path as it is.  A plain segment arrives unchanged; any other
    id is split, escaped or normalised on the way, or matches another route,
    which is outside the model. *)
Definition route_id (modelId : string) : option string :=
  if plain_segment modelId then Some modelId else None.

(** [createModelClient(modelId)] of [AIRegistryClient] against the registry
    [r], when the client's cache has no entry for the model. *)
Definition createModelClient (modelId : string) (created : Z) (now : string)
  (r : registry) : option modelClient :=
  id <- route_id modelId ;;
  resp <- get_communication id created now r ;;
  body <- resolved resp ;;
  communication <- prop "communication" body ;;
  newModelClient communication.

End Client.

(** ** Counting and naming *)

Module Measures.
Import JS Registry Server Client.

(** The records that [getStats] counts as active. *)
Definition is_active (model : obj) : bool :=
  strict_eq (obj_get "status" model) (VStr "active").

(** Whether the field of the record, used as a property key, is [s]. *)
Definition keyed (field s : string) (model : obj) : bool :=
  match to_string (obj_get field model) with
  | Some k => k =? s
  | None => false
  end.

(** How a tally shows a count: no entry for zero. *)
Definition shown (n : nat) : option value :=
  match n with
  | O => None
  | S _ => Some (VNum (inject_Z (Z.of_nat n)))
  end.

(** The fields whose keys the tallies of [getStats] can hold. *)
Definition tallied (field : string) (model : obj) : bool :=
  match to_string (obj_get field model) with
  | Some k => negb (inherited_name k)
  | None => false
  end.



End Measures.

(** ** Facts about objects and maps *)

Module JSFacts.
Import JS.

Lemma existsb_eqb_In (x : string) (l : list string) :
  existsb (String.eqb x) l = true <-> In x l.
Proof.
  rewrite existsb_exists. split.
  - intros [y [Hy He]]. apply String.eqb_eq in He. now subst.
  - intros H. exists x. split; [exact H | apply String.eqb_refl].
Qed.

Lemma distinct_NoDup (l : list string) : distinct l = true <-> NoDup l.
Proof.
  induction l as [|x r IH]; simpl.
  - split; [constructor | reflexivity].
  - rewrite andb_true_iff, negb_true_iff, IH. split.
    + intros [Hx Hr]. constructor; [|exact Hr].
      intros Hin. apply existsb_eqb_In in Hin. congruence.
    + intros H. inversion H as [|? ? Hx Hr]; subst. split; [|exact Hr].
      destruct (existsb (String.eqb x) r) eqn:E; [|reflexivity].
      apply existsb_eqb_In in E. contradiction.
Qed.

Section Assoc.
Context {A : Type}.
Implicit Types (l : list (string * A)) (k : string) (v : A).

Lemma assoc_app k l1 l2 :
  assoc k (l1 ++ l2) =
  match assoc k l1 with Some v => Some v | None => assoc k l2 end.
Proof.
  induction l1 as [|[k0 v0] r IH]; simpl; [reflexivity|].
  destruct (k0 =? k); [reflexivity | exact IH].
Qed.

Lemma assoc_None_keys k l : assoc k l = None <-> ~ In k (map fst l).
Proof.
  induction l as [|[k0 v0] r IH]; simpl.
  - tauto.
  - destruct (String.eqb_spec k0 k) as [->|Hne].
    + split; [discriminate | intros H; exfalso; apply H; now left].
    + rewrite IH. tauto.
Qed.

Lemma assoc_In k v l : assoc k l = Some v -> In (k, v) l.
Proof.
  induction l as [|[k0 v0] r IH]; simpl; [discriminate|].
  destruct (String.eqb_spec k0 k) as [->|Hne].
  - intros [= ->]. now left.
  - intros H. right. now apply IH.
Qed.

Lemma In_assoc k v l : distinct (map fst l) = true -> In (k, v) l -> assoc k l = Some v.
Proof.
  induction l as [|[k0 v0] r IH]; simpl; [tauto|].
  rewrite andb_true_iff, negb_true_iff. intros [Hk Hr] [Heq|Hin].
  - inversion Heq; subst. now rewrite String.eqb_refl.
  - destruct (String.eqb_spec k0 k) as [->|Hne]; [|now apply IH].
    exfalso. assert (In k (map fst r)) by (apply (in_map fst _ _ Hin)).
    apply existsb_eqb_In in H. congruence.
Qed.

Lemma assoc_replace_spec k k' v l :
  assoc k' (assoc_replace k v l) =
  if k =? k' then match assoc k l with Some _ => Some v | None => None end
  else assoc k' l.
Proof.
  induction l as [|[k0 v0] r IH]; simpl.
  - now destruct (k =? k').
  - destruct (String.eqb_spec k0 k) as [->|Hne]; simpl.
    + now destruct (k =? k').
    + rewrite IH. destruct (String.eqb_spec k k') as [->|Hne'].
      * destruct (String.eqb_spec k0 k'); [contradiction | reflexivity].
      * reflexivity.
Qed.

Lemma assoc_replace_keys k v l : map fst (assoc_replace k v l) = map fst l.
Proof.
  induction l as [|[k0 v0] r IH]; simpl; [reflexivity|].
  destruct (String.eqb_spec k0 k) as [->|Hne]; simpl; [reflexivity|].
  now rewrite IH.
Qed.

Lemma assoc_replace_length k v l : List.length (assoc_replace k v l) = List.length l.
Proof.
  rewrite <- (length_map fst), assoc_replace_keys. apply length_map.
Qed.

Lemma assoc_rev k l :
  distinct (map fst l) = true -> assoc k (rev l) = assoc k l.
Proof.
  induction l as [|[k0 v0] r IH]; simpl; [reflexivity|].
  rewrite andb_true_iff, negb_true_iff. intros [Hk Hr].
  rewrite assoc_app, (IH Hr). simpl.
  destruct (String.eqb_spec k0 k) as [->|Hne].
  - assert (assoc k r = None) as ->; [|reflexivity].
    apply assoc_None_keys. intros Hin. apply existsb_eqb_In in Hin. congruence.
  - now destruct (assoc k r).
Qed.
End Assoc.

(** Folding any update that behaves like an assignment. *)
Section FoldSet.
Context {A T : Type}.
Variable find : string -> T -> option A.
Variable set : string -> A -> T -> T.
Hypothesis find_set :
  forall k k' v t, find k' (set k v t) = if k =? k' then Some v else find k' t.

Lemma find_fold_set (es : list (string * A)) (base : T) (k : string) :
  find k (fold_left (fun t kv => set (fst kv) (snd kv) t) es base) =
  match assoc k (rev es) with Some v => Some v | None => find k base end.
Proof.
  revert base. induction es as [|[k0 v0] r IH]; intros base; simpl; [reflexivity|].
  rewrite IH, assoc_app, find_set. simpl.
  destruct (assoc k (rev r)); [reflexivity|].
  now destruct (k0 =? k).
Qed.
End FoldSet.

Lemma obj_has_assoc k (o : obj) :
  obj_has k o = match assoc k o with Some _ => true | None => false end.
Proof. reflexivity. Qed.

Lemma assoc_insert_index n k k' v (o : obj) :
  assoc k o = None ->
  assoc k' (obj_insert_index n k v o) = if k =? k' then Some v else assoc k' o.
Proof.
  induction o as [|[k0 v0] r IH]; simpl; [reflexivity|].
  destruct (String.eqb_spec k0 k) as [->|Hne]; [discriminate|]. intros Hk.
  destruct (array_index k0) as [n'|]; [destruct (n' <? n)%N|]; simpl;
    try reflexivity.
  rewrite (IH Hk). destruct (String.eqb_spec k k') as [->|Hne'];
    [|reflexivity].
  destruct (String.eqb_spec k0 k'); [contradiction | reflexivity].
Qed.

Lemma assoc_obj_set k k' v (o : obj) :
  assoc k' (obj_set k v o) = if k =? k' then Some v else assoc k' o.
Proof.
  unfold obj_set. rewrite obj_has_assoc.
  destruct (assoc k o) eqn:Hk.
  - rewrite assoc_replace_spec, Hk. reflexivity.
  - destruct (array_index k).
    + now apply assoc_insert_index.
    + rewrite assoc_app. simpl.
      destruct (String.eqb_spec k k') as [->|Hne].
      * now rewrite Hk.
      * now destruct (assoc k' o).
Qed.

Lemma obj_get_set_eq k v (o : obj) : obj_get k (obj_set k v o) = v.
Proof. unfold obj_get. now rewrite assoc_obj_set, String.eqb_refl. Qed.

Lemma obj_get_set_ne k k' v (o : obj) :
  k <> k' -> obj_get k' (obj_set k v o) = obj_get k' o.
Proof.
  intros Hne. unfold obj_get. rewrite assoc_obj_set.
  destruct (String.eqb_spec k k'); [contradiction | reflexivity].
Qed.

Lemma assoc_spread k (base extra : obj) :
  assoc k (spread base extra) =
  match assoc k (rev extra) with Some v => Some v | None => assoc k base end.
Proof.
  unfold spread. apply (find_fold_set (fun k o => assoc k o) obj_set).
  intros. apply assoc_obj_set.
Qed.

Lemma In_assoc_replace {A : Type} (k : string) (v : A) (l : list (string * A))
  (kv : string * A) :
  In kv (assoc_replace k v l) -> kv = (k, v) \/ In kv l.
Proof.
  induction l as [|[k0 v0] r IH]; simpl; [tauto|].
  destruct (k0 =? k); simpl; intuition.
Qed.

(** *** Objects built by assignment hold each name once *)

Lemma insert_index_perm (n : N) (k : string) (v : value) (o : obj) :
  Permutation ((k, v) :: o) (obj_insert_index n k v o).
Proof.
  induction o as [|[k0 v0] r IH]; simpl; [reflexivity|].
  destruct (array_index k0) as [n'|]; [destruct (n' <? n)%N|]; try reflexivity.
  rewrite perm_swap. now constructor.
Qed.

Lemma obj_set_wf (k : string) (v : value) (o : obj) :
  obj_wf o = true -> obj_wf (obj_set k v o) = true.
Proof.
  unfold obj_wf, obj_keys, obj_set. rewrite obj_has_assoc.
  destruct (assoc k o) eqn:Hk.
  - now rewrite assoc_replace_keys.
  - rewrite !distinct_NoDup. intros Hn.
    apply assoc_None_keys in Hk.
    assert (NoDup (map fst ((k, v) :: o))) as Hc by (now constructor).
    destruct (array_index k).
    + apply (Permutation_NoDup (Permutation_map fst (insert_index_perm n k v o)) Hc).
    + apply (Permutation_NoDup
               (Permutation_map fst (Permutation_cons_append o (k, v))) Hc).
Qed.

Lemma spread_wf (base extra : obj) :
  obj_wf base = true -> obj_wf (spread base extra) = true.
Proof.
  unfold spread. revert base.
  induction extra as [|[k v] r IH]; intros base Hb; simpl; [exact Hb|].
  apply IH. now apply obj_set_wf.
Qed.

(** *** Keys of a map *)

Lemma strict_eq_str (v : value) (s : string) :
  strict_eq v (VStr s) = true <-> v = VStr s.
Proof.
  destruct v; simpl; try (split; [discriminate | intros [=]]).
  rewrite String.eqb_eq. split; [now intros -> | now intros [= ->]].
Qed.

Lemma strict_eq_sym (a b : value) : strict_eq a b = strict_eq b a.
Proof.
  destruct a, b; simpl; try reflexivity.
  - now destruct b, b0.
  - destruct (Qeq_bool q q0) eqn:E, (Qeq_bool q0 q) eqn:E'; try reflexivity.
    + apply Qeq_bool_iff in E. apply Qeq_bool_neq in E'. exfalso. apply E'. lra.
    + apply Qeq_bool_iff in E'. apply Qeq_bool_neq in E. exfalso. apply E. lra.
  - now destruct positive, positive0.
  - apply String.eqb_sym.
Qed.

Lemma strict_eq_trans (a b c : value) :
  strict_eq a b = true -> strict_eq b c = true -> strict_eq a c = true.
Proof.
  destruct a, b; simpl; try discriminate; destruct c; simpl; try discriminate;
    try reflexivity.
  - rewrite !Bool.eqb_true_iff. congruence.
  - rewrite !Qeq_bool_iff. intros H1 H2. lra.
  - rewrite !Bool.eqb_true_iff. congruence.
  - rewrite !String.eqb_eq. congruence.
Qed.

(** Two keys that are the same find the same entries. *)
Lemma strict_eq_same (k q k0 : value) :
  strict_eq k q = true -> strict_eq k0 k = strict_eq k0 q.
Proof.
  intros H. destruct (strict_eq k0 k) eqn:E1, (strict_eq k0 q) eqn:E2;
    try reflexivity.
  - now rewrite (strict_eq_trans _ _ _ E1 H) in E2.
  - rewrite strict_eq_sym in H. now rewrite (strict_eq_trans _ _ _ E2 H) in E1.
Qed.

Lemma existsb_strict_eq_In (s : string) (l : list value) :
  existsb (strict_eq (VStr s)) l = true <-> In (VStr s) l.
Proof.
  rewrite existsb_exists. split.
  - intros [y [Hy He]]. rewrite strict_eq_sym in He.
    apply strict_eq_str in He. now subst.
  - intros H. exists (VStr s). split; [exact H | now apply strict_eq_str].
Qed.

(** *** Lookups in a map *)

Lemma map_find_same (k q : value) (m : jsmap) :
  strict_eq k q = true -> map_find k m = map_find q m.
Proof.
  intros H. induction m as [|[k0 v0] r IH]; simpl; [reflexivity|].
  now rewrite (strict_eq_same k q k0 H), IH.
Qed.

Lemma map_find_app (k : value) (m1 m2 : jsmap) :
  map_find k (m1 ++ m2) =
  match map_find k m1 with Some v => Some v | None => map_find k m2 end.
Proof.
  induction m1 as [|[k0 v0] r IH]; simpl; [reflexivity|].
  destruct (strict_eq k0 k); [reflexivity | exact IH].
Qed.

Lemma map_find_None (k : value) (m : jsmap) :
  map_find k m = None <->
  forall k0, In k0 (map_keys m) -> strict_eq k0 k = false.
Proof.
  unfold map_keys. induction m as [|[k0 v0] r IH]; simpl.
  - split; [now intros _ k0 [] | reflexivity].
  - destruct (strict_eq k0 k) eqn:E.
    + split; [discriminate|]. intros H.
      rewrite (H k0 (or_introl eq_refl)) in E. discriminate.
    + rewrite IH. split.
      * intros H k1 [<-|Hin]; [exact E | now apply H].
      * intros H k1 Hin. apply H. now right.
Qed.

Lemma map_find_In (k : value) (v : obj) (m : jsmap) :
  map_find k m = Some v -> exists k0, In (k0, v) m /\ strict_eq k0 k = true.
Proof.
  induction m as [|[k0 v0] r IH]; simpl; [discriminate|].
  destruct (strict_eq k0 k) eqn:E.
  - intros [= ->]. exists k0. split; [now left | exact E].
  - intros H. destruct (IH H) as [k1 [Hin Hk]]. exists k1. split; [now right | exact Hk].
Qed.

Lemma map_get_In (s : string) (v : obj) (m : jsmap) :
  map_get s m = Some v -> In (VStr s, v) m.
Proof.
  intros H. apply map_find_In in H as [k0 [Hin Hk]].
  apply strict_eq_str in Hk. now subst.
Qed.


Lemma map_find_update (k q : value) (v : obj) (m : jsmap) :
  map_find q (map_update k v m) =
  if strict_eq k q then match map_find k m with Some _ => Some v | None => None end
  else map_find q m.
Proof.
  induction m as [|[k0 v0] r IH]; simpl.
  - now destruct (strict_eq k q).
  - destruct (strict_eq k0 k) eqn:E; simpl.
    + destruct (strict_eq k q) eqn:Ekq.
      * now rewrite <- (strict_eq_same k q k0 Ekq), E.
      * destruct (strict_eq k0 q) eqn:E0; [|reflexivity].
        rewrite strict_eq_sym in E.
        now rewrite (strict_eq_trans _ _ _ E E0) in Ekq.
    + rewrite IH. destruct (strict_eq k q) eqn:Ekq; [|reflexivity].
      now rewrite <- (strict_eq_same k q k0 Ekq), E.
Qed.

Lemma map_update_keys (k : value) (v : obj) (m : jsmap) :
  map_keys (map_update k v m) = map_keys m.
Proof.
  unfold map_keys. induction m as [|[k0 v0] r IH]; simpl; [reflexivity|].
  destruct (strict_eq k0 k); simpl; [reflexivity | now rewrite IH].
Qed.

Lemma map_update_length (k : value) (v : obj) (m : jsmap) :
  List.length (map_update k v m) = List.length m.
Proof.
  rewrite <- (length_map fst). fold (map_keys (map_update k v m)).
  rewrite map_update_keys. apply length_map.
Qed.

Lemma map_find_set (k q : value) (v : obj) (m : jsmap) :
  strict_eq k k = true ->
  map_find q (map_set k v m) = if strict_eq k q then Some v else map_find q m.
Proof.
  intros Hk. unfold map_set, map_has. destruct (map_find k m) eqn:E.
  - now rewrite map_find_update, E.
  - rewrite map_find_app. simpl. destruct (strict_eq k q) eqn:Ekq.
    + now rewrite <- (map_find_same k q m Ekq), E.
    + now destruct (map_find q m).
Qed.

(** A lookup by a string after a [set] under any key. *)
Lemma map_get_set (k : value) (s : string) (v : obj) (m : jsmap) :
  map_get s (map_set k v m) =
  if strict_eq k (VStr s) then Some v else map_get s m.
Proof.
  unfold map_get. destruct (strict_eq k (VStr s)) eqn:E.
  - apply strict_eq_str in E. subst k. rewrite map_find_set.
    + simpl. now rewrite String.eqb_refl.
    + simpl. apply String.eqb_refl.
  - unfold map_set, map_has. destruct (map_find k m).
    + now rewrite map_find_update, E.
    + rewrite map_find_app. simpl. rewrite E. now destruct (map_find (VStr s) m).
Qed.

Lemma map_get_set_str (k s : string) (v : obj) (m : jsmap) :
  map_get s (map_set (VStr k) v m) = if k =? s then Some v else map_get s m.
Proof. now rewrite map_get_set. Qed.

Lemma map_get_replace (k s : string) (v : obj) (m : jsmap) :
  map_get s (map_replace k v m) =
  if k =? s then match map_get k m with Some _ => Some v | None => None end
  else map_get s m.
Proof. unfold map_get, map_replace. now rewrite map_find_update. Qed.



Lemma map_set_absent (k : value) (v : obj) (m : jsmap) :
  map_find k m = None -> map_set k v m = m ++ [(k, v)].
Proof. intros H. unfold map_set, map_has. now rewrite H. Qed.


(** *** Entries of a map *)

Lemma In_map_update (k : value) (v : obj) (m : jsmap) (k' : value) (v' : obj) :
  In (k', v') (map_update k v m) -> v' = v \/ In (k', v') m.
Proof.
  induction m as [|[k0 v0] r IH]; simpl; [tauto|].
  destruct (strict_eq k0 k); simpl.
  - intros [[= -> ->]|H]; [now left | right; now right].
  - intros [H|H]; [right; now left|]. destruct (IH H); [now left | right; now right].
Qed.

Lemma In_map_set (k : value) (v : obj) (m : jsmap) (k' : value) (v' : obj) :
  In (k', v') (map_set k v m) -> v' = v \/ In (k', v') m.
Proof.
  unfold map_set. destruct (map_has k m).
  - apply In_map_update.
  - intros H. apply in_app_or in H as [H|[[= -> ->]|[]]]; [now right | now left].
Qed.

Lemma map_delete_incl (k : string) (m : jsmap) (kv : value * obj) :
  In kv (map_delete k m) -> In kv m.
Proof.
  induction m as [|[k0 v0] r IH]; simpl; [tauto|].
  destruct (strict_eq k0 (VStr k)); simpl; [tauto|].
  intros [H|H]; [now left | right; now apply IH].
Qed.


Lemma map_delete_last (k : string) (v : obj) (m : jsmap) :
  map_get k m = None -> map_delete k (m ++ [(VStr k, v)]) = m.
Proof.
  unfold map_get. induction m as [|[k0 v0] r IH]; simpl.
  - now rewrite String.eqb_refl.
  - destruct (strict_eq k0 (VStr k)); [discriminate|]. intros H. now rewrite (IH H).
Qed.

(** *** Maps hold each key once *)

Lemma existsb_strict_eq_incl (x : value) (l l' : list value) :
  incl l' l -> existsb (strict_eq x) l = false -> existsb (strict_eq x) l' = false.
Proof.
  intros Hi H. destruct (existsb (strict_eq x) l') eqn:E; [|reflexivity].
  apply existsb_exists in E as [y [Hy He]].
  assert (existsb (strict_eq x) l = true) as H'
    by (apply existsb_exists; exists y; split; [now apply Hi | exact He]).
  congruence.
Qed.

Lemma map_delete_keys_incl (k : string) (m : jsmap) :
  incl (map_keys (map_delete k m)) (map_keys m).
Proof.
  intros x Hx. unfold map_keys in *. apply in_map_iff in Hx as [kv [<- Hkv]].
  apply in_map. now apply (map_delete_incl k).
Qed.

Lemma map_delete_wf (k : string) (m : jsmap) :
  map_wf m = true -> map_wf (map_delete k m) = true.
Proof.
  unfold map_wf.
  induction m as [|[k0 v0] r IH]; simpl; [trivial|].
  rewrite andb_true_iff, negb_true_iff. intros [Hk Hr].
  destruct (strict_eq k0 (VStr k)); simpl; [exact Hr|].
  rewrite (IH Hr), andb_true_r, negb_true_iff.
  exact (existsb_strict_eq_incl k0 _ _ (map_delete_keys_incl k r) Hk).
Qed.

Lemma distinct_keys_snoc (l : list value) (k : value) :
  distinct_keys l = true ->
  (forall k0, In k0 l -> strict_eq k0 k = false) ->
  distinct_keys (l ++ [k]) = true.
Proof.
  induction l as [|x r IH]; simpl; [reflexivity|].
  rewrite !andb_true_iff, !negb_true_iff. intros [Hx Hr] H.
  split.
  - rewrite existsb_app, Hx. simpl. rewrite orb_false_r.
    apply H. now left.
  - apply IH; [exact Hr|]. intros k0 Hin. apply H. now right.
Qed.

Lemma map_set_wf (k : value) (v : obj) (m : jsmap) :
  map_wf m = true -> map_wf (map_set k v m) = true.
Proof.
  unfold map_wf, map_set, map_has. intros H.
  destruct (map_find k m) eqn:E.
  - now rewrite map_update_keys.
  - unfold map_keys. rewrite map_app. simpl.
    apply distinct_keys_snoc; [exact H|]. now apply map_find_None.
Qed.

Lemma map_replace_wf (k : string) (v : obj) (m : jsmap) :
  map_wf m = true -> map_wf (map_replace k v m) = true.
Proof. unfold map_wf, map_replace. now rewrite map_update_keys. Qed.

Lemma map_of_entries_wf (es : list (string * obj)) : map_wf (map_of_entries es) = true.
Proof.
  unfold map_of_entries.
  assert (forall base, map_wf base = true ->
          map_wf (fold_left (fun m kv => map_set (VStr (fst kv)) (snd kv) m) es base)
          = true) as H.
  { induction es as [|[k v] r IH]; intros base Hb; simpl; [exact Hb|].
    apply IH. now apply map_set_wf. }
  now apply H.
Qed.

Lemma map_get_map_of_entries (k : string) (es : list (string * obj)) :
  map_get k (map_of_entries es) = assoc k (rev es).
Proof.
  unfold map_of_entries.
  rewrite (find_fold_set (fun k m => map_get k m)
             (fun k v m => map_set (VStr k) v m)).
  - now destruct (assoc k (rev es)).
  - intros. apply map_get_set_str.
Qed.

End JSFacts.

(** ** Registration *)

Module RegisterFacts.
Import JS Registry Server Spec JSFacts.








End RegisterFacts.

(** ** Filtering *)

Module MatchFacts.
Import JS Registry Server Spec JSFacts.

Lemma existsb_strict_eq_str (xs : list value) (s : string) :
  existsb (fun e => strict_eq e (VStr s)) xs = true <-> In (VStr s) xs.
Proof.
  rewrite existsb_exists. split.
  - intros [e [He Hs]]. apply strict_eq_str in Hs. now subst.
  - intros H. exists (VStr s). split; [exact H | now apply strict_eq_str].
Qed.

(** A criterion compared with [!==]. *)
Lemma guard_differs (cv mv : value) :
  optional is_str cv = true ->
  exists x,
    guard cv (Some (negb (strict_eq mv cv))) = Some x
    /\ (x = false <-> (truthy cv = true -> mv = cv)).
Proof.
  unfold guard. destruct cv as [| |b|q|inf|s|xs|fs]; simpl; try discriminate; intros _.
  - exists false. split; [reflexivity|]. split; [discriminate | reflexivity].
  - destruct (negb (s =? "")).
    + eexists. split; [reflexivity|]. rewrite negb_false_iff, strict_eq_str. tauto.
    + exists false. split; [reflexivity|]. split; [discriminate | reflexivity].
Qed.

(** A criterion looked up with [includes]. *)
Lemma guard_includes (cv av : value) :
  optional is_str cv = true -> is_arr av = true ->
  exists x,
    guard cv (option_map negb (includes av cv)) = Some x
    /\ (x = false <-> (truthy cv = true -> exists xs, av = VArr xs /\ In cv xs)).
Proof.
  unfold guard. destruct av as [| | | | | |ys|]; simpl; try discriminate.
  destruct cv as [| |b|q|inf|s|xs|fs]; simpl; try discriminate; intros _ _.
  - exists false. split; [reflexivity|]. split; [discriminate | reflexivity].
  - destruct (negb (s =? "")).
    + eexists. split; [reflexivity|].
      rewrite negb_false_iff, existsb_strict_eq_str. split.
      * intros H _. now exists ys.
      * intros H. destruct (H eq_refl) as [xs [[= <-] Hin]]. exact Hin.
    + exists false. split; [reflexivity|]. split; [discriminate | reflexivity].
Qed.

(** The [maxLatency] criterion. *)
Lemma guard_maxLatency (cv lv : value) :
  optional is_num cv = true -> is_latency lv = true ->
  exists x,
    guard cv (js_gt lv cv) = Some x
    /\ (x = false <->
        (truthy cv = true -> forall q, cv = VNum q ->
         match lv with VNum y => y <= q | VNull => 0 <= q | _ => True end)).
Proof.
  unfold guard, js_gt, js_lt.
  destruct cv as [| |b|q|inf|s|xs|fs]; simpl; try discriminate; intros _.
  - intros _. exists false. split; [reflexivity|]. split; [discriminate | reflexivity].
  - destruct (negb (Qeq_bool q 0)).
    + destruct lv as [| |b|y|inf|s|xs|fs]; simpl; try discriminate; intros _.
      * exists false. split; [reflexivity|]. split; [|reflexivity]. now intros _ _ q' _.
      * eexists. split; [reflexivity|]. rewrite negb_false_iff, Qle_bool_iff. split.
        -- intros H _ q' [= <-]. exact H.
        -- intros H. exact (H eq_refl q eq_refl).
      * eexists. split; [reflexivity|]. rewrite negb_false_iff, Qle_bool_iff. split.
        -- intros H _ q' [= <-]. exact H.
        -- intros H. exact (H eq_refl q eq_refl).
    + intros _. exists false. split; [reflexivity|]. split; [discriminate | reflexivity].
Qed.

(** The [minReliability] criterion. *)
Lemma guard_minReliability (cv rv : value) :
  optional is_num cv = true -> is_num rv = true ->
  exists x,
    guard cv (js_lt rv cv) = Some x
    /\ (x = false <->
        (truthy cv = true -> forall q, cv = VNum q ->
         exists y, rv = VNum y /\ q <= y)).
Proof.
  unfold guard, js_lt.
  destruct rv as [| | |y|inf| | |]; simpl; try discriminate.
  destruct cv as [| |b|q|inf|s|xs|fs]; simpl; try discriminate; intros _ _.
  - exists false. split; [reflexivity|]. split; [discriminate | reflexivity].
  - destruct (negb (Qeq_bool q 0)).
    + eexists. split; [reflexivity|]. rewrite negb_false_iff, Qle_bool_iff. split.
      * intros H _ q' [= <-]. now exists y.
      * intros H. destruct (H eq_refl q eq_refl) as [y' [[= <-] Hy]]. exact Hy.
    + exists false. split; [reflexivity|]. split; [discriminate | reflexivity].
Qed.

Lemma every_includes (ys ts : list value) :
  forallb is_str ts = true ->
  exists b,
    every (fun tag => includes (VArr ys) tag) ts = Some b
    /\ (b = true <-> forall t, In t ts -> In t ys).
Proof.
  induction ts as [|t r IH]; simpl.
  - intros _. exists true. split; [reflexivity|]. split; [now intros _ t [] | reflexivity].
  - rewrite andb_true_iff. intros [Ht Hr]. destruct (IH Hr) as [b [Hb Hiff]].
    destruct t as [| | | | |s| |]; try discriminate.
    destruct (existsb (fun e => strict_eq e (VStr s)) ys) eqn:E.
    + exists b. split; [exact Hb|]. rewrite Hiff. apply existsb_strict_eq_str in E.
      split.
      * intros H t [<-|Hin]; [exact E | now apply H].
      * intros H t Hin. apply H. now right.
    + exists false. split; [reflexivity|]. split; [discriminate|].
      intros H. assert (In (VStr s) ys) as Hin by (apply H; now left).
      apply existsb_strict_eq_str in Hin. congruence.
Qed.

(** The [tags] criterion. *)
Lemma guard_tags (cv tv : value) :
  optional is_str_arr cv = true -> is_arr tv = true ->
  exists x,
    guard cv
      (match cv with
       | VArr ts => option_map negb (every (fun tag => includes tv tag) ts)
       | _ => None
       end) = Some x
    /\ (x = false <->
        (truthy cv = true -> forall ts t, cv = VArr ts -> In t ts ->
         exists xs, tv = VArr xs /\ In t xs)).
Proof.
  unfold guard. intros Hts Htv.
  destruct tv as [| | | | | |ys|]; try (simpl in Htv; discriminate).
  destruct cv as [| |b|q|inf|s|ts|fs]; try (simpl in Hts; discriminate);
    cbn [truthy optional is_str_arr] in *.
  - exists false. split; [reflexivity|]. split; [discriminate | reflexivity].
  - destruct (every_includes ys ts Hts) as [b [Hb Hiff]]. rewrite Hb. simpl.
    eexists. split; [reflexivity|]. rewrite negb_false_iff, Hiff. split.
    + intros H _ ts' t [= <-] Hin. exists ys. split; [reflexivity | now apply H].
    + intros H t Hin.
      destruct (H eq_refl ts t eq_refl Hin) as [xs [[= <-] Hx]]. exact Hx.
Qed.

Lemma orb8_false (a b c d e f g h : bool) :
  negb (a || b || c || d || e || f || g || h) = true <->
  a = false /\ b = false /\ c = false /\ d = false /\ e = false /\ f = false
  /\ g = false /\ h = false.
Proof.
  destruct a, b, c, d, e, f, g, h; simpl; intuition congruence.
Qed.

(** On typed criteria and a typed record the loop body decides, and it keeps
    the record exactly when the record meets every criterion whose value is
    truthy. *)
Lemma modelMatches_spec (c m : obj) :
  typed_criteria c = true -> typed_model m = true ->
  exists b, modelMatches c m = Some b /\ (b = true <-> satisfies truthy c m).
Proof.
  unfold typed_criteria, typed_model. rewrite !andb_true_iff.
  intros [[[[[[[C1 C2] C3] C4] C5] C6] C7] C8] [[[[[M1 M2] M3] M4] M5] M6].
  destruct (guard_differs _ (obj_get "type" m) C1) as [x1 [E1 H1]].
  destruct (guard_differs _ (obj_get "provider" m) C2) as [x2 [E2 H2]].
  destruct (guard_includes _ _ C3 M1) as [x3 [E3 H3]].
  destruct (guard_includes _ _ C4 M2) as [x4 [E4 H4]].
  destruct (guard_includes _ _ C5 M3) as [x5 [E5 H5]].
  destruct (guard_maxLatency _ _ C6 M6) as [x6 [E6 H6]].
  destruct (guard_minReliability _ _ C7 M5) as [x7 [E7 H7]].
  destruct (guard_tags _ _ C8 M4) as [x8 [E8 H8]].
  exists (negb (x1 || x2 || x3 || x4 || x5 || x6 || x7 || x8)). split.
  - unfold modelMatches, exceeds_maxLatency.
    rewrite E1, E2, E3, E4, E5, E6, E7, E8. reflexivity.
  - rewrite orb8_false, H1, H2, H3, H4, H5, H6, H7, H8.
    unfold satisfies, has_tag, latency_within, reliability_at_least. tauto.
Qed.

Lemma selected_spec (c m : obj) :
  typed_criteria c = true -> typed_model m = true ->
  modelMatches c m = Some (selected c m)
  /\ (selected c m = true <-> satisfies truthy c m).
Proof.
  intros Hc Hm. destruct (modelMatches_spec c m Hc Hm) as [b [Hb Hiff]].
  unfold selected. rewrite Hb. split; [reflexivity | exact Hiff].
Qed.

Lemma collect_filter (c : obj) (ms : list obj) :
  typed_criteria c = true -> forallb typed_model ms = true ->
  collect c ms = Some (filter (selected c) ms).
Proof.
  intros Hc. induction ms as [|m r IH]; simpl; [reflexivity|].
  rewrite andb_true_iff. intros [Hm Hr].
  destruct (selected_spec c m Hc Hm) as [E _]. rewrite E, (IH Hr). reflexivity.
Qed.

End MatchFacts.

(** ** Sorting *)

Module SortFacts.
Import JS Registry Server Spec JSFacts MatchFacts.

(** The stable insertion sort, for a comparator that decides a total
    preorder [le] on the elements that are [good]. *)
Section Sorting.
Context {A : Type}.
Variable cmp : A -> A -> option number.
Variable good : A -> Prop.
Variable le : A -> A -> Prop.
Hypothesis cmp_spec :
  forall a b, good a -> good b ->
  exists d, cmp a b = Some (Fin d) /\ (Qle_bool d 0 = true <-> le a b).
Hypothesis le_total : forall a b, good a -> good b -> le a b \/ le b a.
Hypothesis le_trans : forall a b c, le a b -> le b c -> le a c.

Lemma insertBy_spec (x : A) (l : list A) :
  good x -> Forall good l ->
  exists l',
    insertBy cmp x l = Some l'
    /\ Permutation (x :: l) l'
    /\ (StronglySorted le l -> StronglySorted le l')
    /\ (forall p, tie_class good le p -> filter p l' = filter p (x :: l)).
Proof.
  intros Hx. induction l as [|y r IH]; intros Hl.
  - exists [x]. repeat split; auto. intros _. repeat constructor.
  - inversion Hl as [|? ? Hy Hr]; subst. simpl.
    destruct (cmp_spec x y Hx Hy) as [d [-> Hd]].
    destruct (Qle_bool d 0) eqn:E.
    + exists (x :: y :: r). repeat split; auto.
      intros Hs. constructor; [exact Hs|].
      assert (le x y) as Hxy by now apply Hd.
      constructor; [exact Hxy|].
      inversion Hs as [|? ? _ Hall]; subst.
      eapply Forall_impl; [|exact Hall]. intros z Hz. now apply (le_trans x y z).
    + destruct (IH Hr) as [l' [-> [Hp [Hs Hf]]]]. simpl.
      assert (~ le x y) as Hnxy by (intros H; apply Hd in H; congruence).
      assert (le y x) as Hyx by (destruct (le_total x y Hx Hy); tauto).
      exists (y :: l'). repeat split.
      * rewrite perm_swap. now constructor.
      * intros Hsy. inversion Hsy as [|? ? Hsr Hall]; subst.
        constructor; [now apply Hs|].
        apply (Permutation_Forall Hp). now constructor.
      * intros p Hp'. simpl. rewrite (Hf p Hp'). simpl.
        destruct (p x) eqn:Px, (p y) eqn:Py; try reflexivity.
        exfalso. apply Hnxy. now apply Hp'.
Qed.

Lemma sortBy_spec (l : list A) :
  Forall good l ->
  exists l',
    sortBy cmp l = Some l'
    /\ Permutation l l'
    /\ StronglySorted le l'
    /\ (forall p, tie_class good le p -> filter p l' = filter p l).
Proof.
  induction l as [|x r IH]; intros Hl.
  - exists []. repeat split; auto. constructor.
  - inversion Hl as [|? ? Hx Hr]; subst. simpl.
    destruct (IH Hr) as [s [-> [Hp [Hs Hf]]]].
    assert (Forall good s) as Hgs by (apply (Permutation_Forall Hp); exact Hr).
    destruct (insertBy_spec x s Hx Hgs) as [l' [-> [Hp' [Hs' Hf']]]].
    exists l'. repeat split.
    + rewrite <- Hp'. now constructor.
    + now apply Hs'.
    + intros p Hp''. rewrite (Hf' p Hp''). simpl. now rewrite (Hf p Hp'').
Qed.
Lemma level_with_spec (a x : A) :
  good a -> good x -> (level_with cmp a x = true <-> le a x /\ le x a).
Proof.
  intros Ha Hx. unfold level_with.
  destruct (cmp_spec a x Ha Hx) as [d1 [-> H1]].
  destruct (cmp_spec x a Hx Ha) as [d2 [-> H2]].
  rewrite andb_true_iff, H1, H2. tauto.
Qed.

Lemma level_with_class (a : A) : good a -> tie_class good le (level_with cmp a).
Proof.
  intros Ha x y Hx Hy Px Py.
  apply (level_with_spec a x Ha Hx) in Px as [_ Hxa].
  apply (level_with_spec a y Ha Hy) in Py as [Hay _].
  exact (le_trans x a y Hxa Hay).
Qed.

Lemma sorted_head_least (a b : A) (t : list A) :
  good a -> StronglySorted le (a :: t) -> In b (a :: t) -> le a b.
Proof.
  intros Ha Hs [<-|Hin].
  - destruct (le_total a a Ha Ha); assumption.
  - inversion Hs as [|? ? _ Hall]; subst. rewrite Forall_forall in Hall.
    now apply Hall.
Qed.

(** A list has one stable sorted arrangement: whatever algorithm sorts it
    stably by [le] returns the list that the insertion sort returns. *)
Lemma stable_sorted_unique (l1 l2 : list A) :
  Forall good l1 -> Permutation l1 l2 ->
  StronglySorted le l1 -> StronglySorted le l2 ->
  (forall p, tie_class good le p -> filter p l1 = filter p l2) ->
  l1 = l2.
Proof.
  revert l2. induction l1 as [|a t1 IH]; intros l2 Hg Hp Hs1 Hs2 Hf.
  - apply Permutation_nil in Hp. now subst.
  - destruct l2 as [|b t2].
    + apply Permutation_sym, Permutation_nil in Hp. discriminate.
    + inversion Hg as [|? ? Ha Hgt]; subst.
      assert (Forall good (b :: t2)) as Hg2 by (apply (Permutation_Forall Hp); exact Hg).
      inversion Hg2 as [|? ? Hb Hgt2]; subst.
      assert (le a b) as Hab.
      { apply (sorted_head_least a b t1 Ha Hs1).
        apply (Permutation_in _ (Permutation_sym Hp)). now left. }
      assert (le b a) as Hba.
      { apply (sorted_head_least b a t2 Hb Hs2).
        apply (Permutation_in _ Hp). now left. }
      assert (a = b) as <-.
      { pose proof (Hf _ (level_with_class a Ha)) as E. simpl in E.
        assert (level_with cmp a a = true) as Paa.
        { apply (level_with_spec a a Ha Ha).
          destruct (le_total a a Ha Ha); tauto. }
        assert (level_with cmp a b = true) as Pab
          by (apply (level_with_spec a b Ha Hb); tauto).
        rewrite Paa, Pab in E. now injection E. }
      f_equal. apply IH.
      * exact Hgt.
      * exact (Permutation_cons_inv Hp).
      * now inversion Hs1.
      * now inversion Hs2.
      * intros p Hp'. specialize (Hf p Hp'). simpl in Hf.
        destruct (p a); [now injection Hf | exact Hf].
Qed.
End Sorting.

Lemma StronglySorted_pairs {A : Type} (le : A -> A -> Prop)
  (l1 l2 l3 : list A) (a b : A) :
  StronglySorted le (l1 ++ a :: l2 ++ b :: l3) -> le a b.
Proof.
  induction l1 as [|x r IH]; simpl; intros H; inversion H as [|? ? Hs Hall]; subst.
  - rewrite Forall_forall in Hall. apply Hall.
    apply in_or_app. right. now left.
  - now apply IH.
Qed.

(** *** The comparator of [findModels] *)

Lemma typed_reliability (m : obj) :
  typed_model m = true -> obj_get "reliability" m = VNum (reliability_of m).
Proof.
  unfold typed_model, reliability_of. rewrite !andb_true_iff.
  intros [[_ H] _]. now destruct (obj_get "reliability" m).
Qed.

Lemma typed_latency (m : obj) :
  typed_model m = true ->
  js_or (obj_get "latencyMs" m) (VNum 999999) = VNum (effective_latency m).
Proof.
  unfold typed_model, effective_latency, js_or. rewrite !andb_true_iff.
  intros [_ H]. destruct (obj_get "latencyMs" m); try discriminate; try reflexivity.
  simpl. now destruct (Qeq_bool q 0).
Qed.

Lemma compareModels_typed (a b : obj) :
  typed_model a = true -> typed_model b = true ->
  exists d,
    compareModels a b = Some (Fin d)
    /\ (Qle_bool d 0 = true <-> ranked_before a b).
Proof.
  intros Ha Hb. unfold compareModels, ranked_before.
  rewrite (typed_reliability a Ha), (typed_reliability b Hb),
    (typed_latency a Ha), (typed_latency b Hb). simpl.
  destruct (Qeq_bool (reliability_of a) (reliability_of b)) eqn:E; simpl.
  - apply Qeq_bool_iff in E. eexists. split; [reflexivity|].
    rewrite Qle_bool_iff. split; intros H.
    + right. split; [exact E | lra].
    + destruct H as [H|[_ H]]; lra.
  - apply Qeq_bool_neq in E. eexists. split; [reflexivity|].
    rewrite Qle_bool_iff. split; intros H.
    + left. destruct (Qlt_le_dec (reliability_of b) (reliability_of a)) as [L|L];
        [exact L|]. exfalso. apply E. lra.
    + destruct H as [H|[H _]]; [lra | contradiction].
Qed.

Lemma ranked_before_total (a b : obj) : ranked_before a b \/ ranked_before b a.
Proof.
  unfold ranked_before.
  destruct (Qlt_le_dec (reliability_of b) (reliability_of a)) as [L|L]; [tauto|].
  destruct (Qlt_le_dec (reliability_of a) (reliability_of b)) as [L'|L']; [tauto|].
  assert (reliability_of a == reliability_of b) as E by lra.
  destruct (Qlt_le_dec (effective_latency b) (effective_latency a)) as [M|M].
  - right. right. split; [now symmetry | lra].
  - left. right. split; [exact E | exact M].
Qed.

Lemma ranked_before_trans (a b c : obj) :
  ranked_before a b -> ranked_before b c -> ranked_before a c.
Proof.
  unfold ranked_before. intros [H1|[H1 H1']] [H2|[H2 H2']].
  - left. lra.
  - left. lra.
  - left. lra.
  - right. split; lra.
Qed.

Lemma tied_class (k : obj) :
  tie_class (fun m => typed_model m = true) ranked_before (tied k).
Proof.
  intros a b _ _. unfold tied. rewrite !andb_true_iff, !Qeq_bool_iff.
  intros [Ha Ha'] [Hb Hb']. right. split; lra.
Qed.

Lemma selected_typed (c : obj) (r : registry) :
  typed_store r = true ->
  Forall (fun m => typed_model m = true)
    (filter (selected c) (map_values (models r))).
Proof.
  unfold typed_store. intros Hr. rewrite Forall_forall. intros m Hm.
  apply filter_In in Hm as [Hm _]. rewrite forallb_forall in Hr. now apply Hr.
Qed.

(** What [findModels] returns on typed input. *)
Lemma findModels_typed (c : obj) (r : registry) :
  typed_criteria c = true -> typed_store r = true ->
  exists l,
    findModels c r = Some l
    /\ Permutation (filter (selected c) (map_values (models r))) l
    /\ StronglySorted ranked_before l
    /\ (forall p,
        tie_class (fun m => typed_model m = true) ranked_before p ->
        filter p l = filter p (filter (selected c) (map_values (models r)))).
Proof.
  intros Hc Hr. unfold findModels, typed_store in *.
  rewrite (collect_filter c _ Hc Hr).
  pose proof (selected_typed c r Hr) as Hgood.
  destruct (sortBy_spec compareModels (fun m => typed_model m = true) ranked_before
              compareModels_typed
              (fun a b _ _ => ranked_before_total a b)
              ranked_before_trans _ Hgood) as [l [Hl [Hp [Hs Hf]]]].
  exists l. repeat split; auto.
Qed.

(** The result of [findModels] does not depend on the sorting algorithm: any
    stable arrangement of the selected records by the comparator's order is
    the list that [findModels] returns. *)
Lemma findModels_sort_determined (c : obj) (r : registry) (l l' : list obj) :
  typed_criteria c = true -> typed_store r = true ->
  findModels c r = Some l ->
  Permutation (filter (selected c) (map_values (models r))) l' ->
  StronglySorted ranked_before l' ->
  (forall p,
   tie_class (fun m => typed_model m = true) ranked_before p ->
   filter p l' = filter p (filter (selected c) (map_values (models r)))) ->
  l' = l.
Proof.
  intros Hc Hr Hl Hp' Hs' Hf'.
  destruct (findModels_typed c r Hc Hr) as [l0 [Hl0 [Hp [Hs Hf]]]].
  rewrite Hl in Hl0. injection Hl0 as <-.
  apply (stable_sorted_unique compareModels (fun m => typed_model m = true)
           ranked_before compareModels_typed
           (fun a b _ _ => ranked_before_total a b) ranked_before_trans).
  - apply (Permutation_Forall Hp'). now apply selected_typed.
  - now rewrite <- Hp', Hp.
  - exact Hs'.
  - exact Hs.
  - intros p Hp0. now rewrite (Hf p Hp0), (Hf' p Hp0).
Qed.





End SortFacts.

(** ** findModels *)

Module FindFacts.
Import JS Registry Server Spec Examples JSFacts MatchFacts SortFacts.

(** C1, as the code has it.  On a typed store and typed criteria
    [findModels] returns, without an error, exactly the records that meet
    every criterion whose value is truthy: a criterion that is absent, an
    empty string or 0 imposes nothing.  Each record is returned as often as
    the store holds it, and nothing is returned when no record qualifies. *)
Theorem findModels_conjunction (c : obj) (r : registry) :
  typed_criteria c = true -> typed_store r = true ->
  exists l,
    findModels c r = Some l
    /\ Permutation (filter (selected c) (map_values (models r))) l
    /\ (forall m, In m (map_values (models r)) ->
        (selected c m = true <-> satisfies truthy c m))
    /\ (forall m, In m l <->
        In m (map_values (models r)) /\ satisfies truthy c m)
    /\ ((forall m, In m (map_values (models r)) -> ~ satisfies truthy c m) ->
        l = []).
Proof.
  intros Hc Hr. destruct (findModels_typed c r Hc Hr) as [l [Hl [Hp _]]].
  assert (forall m, In m (map_values (models r)) ->
          (selected c m = true <-> satisfies truthy c m)) as Hsel.
  { intros m Hm. apply selected_spec; [exact Hc|].
    unfold typed_store in Hr. rewrite forallb_forall in Hr. now apply Hr. }
  assert (forall m, In m l <->
          In m (map_values (models r)) /\ satisfies truthy c m) as Hin.
  { intros m. split.
    - intros H. apply (Permutation_in _ (Permutation_sym Hp)) in H.
      apply filter_In in H as [H1 H2]. split; [exact H1 | now apply Hsel].
    - intros [H1 H2]. apply (Permutation_in _ Hp). apply filter_In.
      split; [exact H1 | now apply Hsel]. }
  exists l. repeat split; try assumption; try (now apply Hsel); try (now apply Hin).
  intros Hnone. destruct l as [|m l']; [reflexivity|].
  exfalso. destruct (proj1 (Hin m) (or_introl eq_refl)) as [H1 H2].
  exact (Hnone m H1 H2).
Qed.

Lemma findModels_conjunction_witness :
  typed_criteria [("type", VStr "llm"); ("maxLatency", VNum 2000)] = true
  /\ typed_store two_models = true
  /\ exists l,
       findModels [("type", VStr "llm"); ("maxLatency", VNum 2000)] two_models = Some l
       /\ Permutation
            (filter (selected [("type", VStr "llm"); ("maxLatency", VNum 2000)])
               (map_values (models two_models))) l
       /\ (forall m, In m (map_values (models two_models)) ->
           (selected [("type", VStr "llm"); ("maxLatency", VNum 2000)] m = true <->
            satisfies truthy [("type", VStr "llm"); ("maxLatency", VNum 2000)] m))
       /\ (forall m, In m l <->
           In m (map_values (models two_models))
           /\ satisfies truthy [("type", VStr "llm"); ("maxLatency", VNum 2000)] m)
       /\ ((forall m, In m (map_values (models two_models)) ->
            ~ satisfies truthy [("type", VStr "llm"); ("maxLatency", VNum 2000)] m) ->
           l = []).
Proof.
  split; [reflexivity|]. split; [reflexivity|].
  apply (findModels_conjunction
           [("type", VStr "llm"); ("maxLatency", VNum 2000)] two_models);
    reflexivity.
Defined.

(** C1, as stated, fails: with [maxLatency: 0] supplied, [findModels] returns
    both models of scenario 1, whose latencies 1500 and 3000 exceed the
    bound. *)
Lemma findModels_ignores_zero_bound :
  findModels zero_latency_criteria two_models = Some [gpt4; llama2]
  /\ ~ (forall l, findModels zero_latency_criteria two_models = Some l ->
        forall m, In m l -> satisfies supplied zero_latency_criteria m).
Proof.
  split; [reflexivity|].
  intros H. specialize (H [gpt4; llama2] eq_refl gpt4 (or_introl eq_refl)).
  destruct H as [_ [_ [_ [_ [_ [H _]]]]]].
  specialize (H eq_refl 0 eq_refl). vm_compute in H. now apply H.
Qed.

(** C2, as the code has it.  On a typed store and typed criteria every record
    that precedes another in the result of [findModels] has a higher
    reliability, or the same reliability and an effective latency that is not
    larger, where the effective latency is 999999 for a latency that is
    unset or 0; records that tie on both keys keep the order in which the
    store enumerates them. *)
Theorem findModels_order (c : obj) (r : registry) :
  typed_criteria c = true -> typed_store r = true ->
  exists l,
    findModels c r = Some l
    /\ (forall l1 a l2 b l3, l = l1 ++ a :: l2 ++ b :: l3 -> ranked_before a b)
    /\ (forall k,
        filter (tied k) l =
        filter (tied k) (filter (selected c) (map_values (models r)))).
Proof.
  intros Hc Hr. destruct (findModels_typed c r Hc Hr) as [l [Hl [_ [Hs Hf]]]].
  exists l. repeat split; [exact Hl | | ].
  - intros l1 a l2 b l3 ->. now apply (StronglySorted_pairs _ l1 l2 l3).
  - intros k. apply Hf. apply tied_class.
Qed.

Lemma findModels_order_witness :
  typed_criteria [("type", VStr "llm")] = true
  /\ typed_store two_models = true
  /\ exists l,
       findModels [("type", VStr "llm")] two_models = Some l
       /\ (forall l1 a l2 b l3, l = l1 ++ a :: l2 ++ b :: l3 -> ranked_before a b)
       /\ (forall k,
           filter (tied k) l =
           filter (tied k)
             (filter (selected [("type", VStr "llm")])
                (map_values (models two_models)))).
Proof.
  split; [reflexivity|]. split; [reflexivity|].
  apply (findModels_order [("type", VStr "llm")] two_models); reflexivity.
Defined.

(** C2, as stated, fails: a model with latency 5 is listed before an equally
    reliable model whose latency was updated to 0. *)
Lemma findModels_zero_latency_last :
  (exists a b,
     findModels [] zero_latency_store = Some [a; b]
     /\ obj_get "latencyMs" a = VNum 5 /\ obj_get "latencyMs" b = VNum 0
     /\ obj_get "reliability" a = VNum 1 /\ obj_get "reliability" b = VNum 1)
  /\ ~ (forall l, findModels [] zero_latency_store = Some l ->
        forall l1 a l2 b l3, l = l1 ++ a :: l2 ++ b :: l3 ->
        ranked_before_unset_last a b).
Proof.
  split.
  - eexists. eexists. split; [vm_compute; reflexivity|]. repeat split.
  - intros H.
    assert (exists a b, findModels [] zero_latency_store = Some ([] ++ a :: [] ++ b :: [])
                        /\ ~ ranked_before_unset_last a b) as [a [b [E N]]].
    { eexists. eexists. split; [vm_compute; reflexivity|].
      intros [L|[_ L]]; vm_compute in L; [discriminate L | now apply L]. }
    exact (N (H _ E [] a [] b [] eq_refl)).
Qed.

(** The sentinel is an ordinary number: an unset latency sorts before a set
    latency above 999999. *)
Lemma findModels_unset_before_slow :
  exists a b,
    findModels [] slow_store = Some [a; b]
    /\ obj_get "latencyMs" a = VNull /\ obj_get "latencyMs" b = VNum 1000000
    /\ obj_get "reliability" a = VNum 1 /\ obj_get "reliability" b = VNum 1.
Proof.
  eexists. eexists. split; [vm_compute; reflexivity|]. repeat split.
Qed.

(** Registering a typed input keeps the store typed. *)
Lemma registerModel_typed (modelData : obj) (uuid timestamp : string)
  (r r' : registry) (entry : obj) :
  typed_input modelData = true -> typed_store r = true ->
  registerModel modelData uuid timestamp r = Some (r', entry) ->
  typed_model entry = true /\ typed_store r' = true.
Proof.
  intros Hi Hr He. unfold registerModel in He.
  set (k := js_or (obj_get "id" modelData) (VStr uuid)) in *.
  injection He as <- <-.
  assert (typed_model (modelEntry modelData k timestamp) = true) as Hm.
  { unfold typed_input in Hi. rewrite !andb_true_iff in Hi.
    destruct Hi as [[[[[H1 H2] H3] H4] H5] H6].
    unfold typed_model, modelEntry, obj_get. cbn [assoc String.eqb Ascii.eqb Bool.eqb].
    unfold js_or, obj_get in *.
    destruct (assoc "capabilities" modelData) as [[]|]; try discriminate;
    destruct (assoc "inputFormats" modelData) as [[]|]; try discriminate;
    destruct (assoc "outputFormats" modelData) as [[]|]; try discriminate;
    destruct (assoc "tags" modelData) as [[]|]; try discriminate;
    destruct (assoc "reliability" modelData) as [[]|]; try discriminate;
    destruct (assoc "latencyMs" modelData) as [[]|]; try discriminate;
    simpl; repeat match goal with |- context [Qeq_bool ?q 0] => destruct (Qeq_bool q 0) end;
    reflexivity. }
  split; [exact Hm|].
  unfold typed_store in *. cbn [models with_models].
  apply forallb_forall. intros x Hx. unfold map_values in Hx.
  apply in_map_iff in Hx as [[k' v'] [<- Hin]].
  apply In_map_set in Hin.
  destruct Hin as [->|Hin]; [exact Hm|].
  rewrite forallb_forall in Hr. apply Hr. exact (in_map snd _ _ Hin).
Qed.

End FindFacts.

(** ** Unset latency and the [maxLatency] bound *)

Module LatencyFacts.
Import JS Registry Server Spec Examples JSFacts.

(** C3, as the code has it.  A record whose [latencyMs] is unset passes the
    [maxLatency] criterion for every bound that is not negative; one whose
    [latencyMs] is [undefined] passes for every bound. *)
Theorem unset_latency_passes (c m : obj) (q : Q) :
  obj_get "maxLatency" c = VNum q ->
  unset (obj_get "latencyMs" m) = true ->
  0 <= q \/ obj_get "latencyMs" m = VUndef ->
  exceeds_maxLatency c m = Some false
  /\ selected [("maxLatency", VNum q)] m = true.
Proof.
  intros Hc Hu Hq.
  assert (guard (VNum q) (js_gt (obj_get "latencyMs" m) (VNum q)) = Some false) as G.
  { unfold guard, js_gt, js_lt. simpl.
    destruct (negb (Qeq_bool q 0)); [|reflexivity].
    destruct (obj_get "latencyMs" m); try discriminate; simpl; [reflexivity|].
    destruct Hq as [Hq|Hq]; [|discriminate].
    apply Qle_bool_iff in Hq. now rewrite Hq. }
  split.
  - unfold exceeds_maxLatency. now rewrite Hc.
  - unfold selected, modelMatches, exceeds_maxLatency.
    change (obj_get "maxLatency" [("maxLatency", VNum q)]) with (VNum q).
    rewrite G. reflexivity.
Qed.

Lemma unset_latency_passes_witness :
  obj_get "maxLatency" [("maxLatency", VNum 2000)] = VNum 2000
  /\ unset (obj_get "latencyMs" unmeasured) = true
  /\ (0 <= 2000 \/ obj_get "latencyMs" unmeasured = VUndef)
  /\ exceeds_maxLatency [("maxLatency", VNum 2000)] unmeasured = Some false
  /\ selected [("maxLatency", VNum 2000)] unmeasured = true.
Proof.
  split; [reflexivity|]. split; [reflexivity|].
  split; [left; discriminate|].
  apply (unset_latency_passes [("maxLatency", VNum 2000)] unmeasured 2000);
    [reflexivity | reflexivity | left; discriminate].
Defined.

(** C3, as stated, fails: a model registered without a latency has
    [latencyMs] [null], which the comparison reads as 0, so the bound -1
    rejects it. *)
Lemma null_latency_fails_negative_bound :
  map_get "m" (models unmeasured_store) = Some unmeasured
  /\ unset (obj_get "latencyMs" unmeasured) = true
  /\ obj_get "maxLatency" negative_bound_criteria = VNum (-1)
  /\ exceeds_maxLatency negative_bound_criteria unmeasured = Some true
  /\ exceeds_maxLatency negative_bound_criteria unmeasured <> Some false
  /\ findModels negative_bound_criteria unmeasured_store = Some [].
Proof. repeat split. discriminate. Qed.

End LatencyFacts.

(** ** Counting *)

Module TallyFacts.
Import JS Registry Server Spec Measures JSFacts.

Lemma inject_succ (n : nat) :
  (inject_Z (Z.of_nat n) + 1)%Q = inject_Z (Z.of_nat (S n)).
Proof.
  unfold Qplus, inject_Z. cbn [Qnum Qden]. f_equal. lia.
Qed.

Lemma shown_truthy (n : nat) (v : value) : shown n = Some v -> truthy v = true.
Proof.
  destruct n as [|n]; simpl; [discriminate|]. intros [= <-]. reflexivity.
Qed.

(** One pass of [counts[key] = (counts[key] || 0) + 1]. *)
Lemma count_key_step (o : obj) (v : value) (k : string) (pre : string -> nat) :
  to_string v = Some k -> inherited_name k = false ->
  obj_wf o = true ->
  (forall s, assoc s o = shown (pre s)) ->
  exists o',
    count_key o v = Some o'
    /\ obj_wf o' = true
    /\ forall s, assoc s o' = shown (pre s + if k =? s then 1 else 0).
Proof.
  intros Hv Hk Hwf Hpre. unfold count_key. rewrite Hv, Hk.
  unfold obj_get, js_or. rewrite (Hpre k).
  destruct (pre k) as [|n] eqn:Ek.
  - cbn [shown truthy]. eexists. split; [reflexivity|].
    split; [now apply obj_set_wf|].
    intros s. rewrite assoc_obj_set.
    destruct (String.eqb_spec k s) as [<-|Hne].
    + rewrite Ek. reflexivity.
    + now rewrite Nat.add_0_r.
  - cbn [shown]. rewrite (shown_truthy (S n) _ eq_refl).
    eexists. split; [reflexivity|].
    split; [now apply obj_set_wf|].
    intros s. rewrite assoc_obj_set.
    destruct (String.eqb_spec k s) as [<-|Hne].
    + rewrite Ek, inject_succ. replace (S n + 1)%nat with (S (S n)) by lia.
      reflexivity.
    + now rewrite Nat.add_0_r.
Qed.

(** A key that is counted can be counted. *)
Lemma count_key_tallied (field : string) (m o o' : obj) :
  count_key o (obj_get field m) = Some o' -> tallied field m = true.
Proof.
  unfold count_key, tallied.
  destruct (to_string (obj_get field m)) as [k|]; [|discriminate].
  now destruct (inherited_name k).
Qed.

Lemma tally_all_tallied (ms : list obj) :
  forall t t',
    tally_all ms t = Some t' ->
    forallb (tallied "type") ms = true /\ forallb (tallied "provider") ms = true.
Proof.
  induction ms as [|m rest IH]; intros t t'; simpl; [now split|].
  unfold tally_step.
  destruct (count_key (t_byType t) (obj_get "type" m)) as [bt|] eqn:Et;
    [|discriminate].
  destruct (count_key (t_byProvider t) (obj_get "provider" m)) as [bp|] eqn:Ep;
    [|discriminate].
  intros H. destruct (IH _ _ H) as [H1 H2].
  rewrite (count_key_tallied _ _ _ _ Et), (count_key_tallied _ _ _ _ Ep).
  now split.
Qed.

(** The loop of [getStats] on records whose type and provider can be
    counted. *)
Lemma tally_all_spec (ms : list obj) :
  forall (t : tally) (preT preP : string -> nat),
    forallb (tallied "type") ms = true ->
    forallb (tallied "provider") ms = true ->
    obj_wf (t_byType t) = true -> obj_wf (t_byProvider t) = true ->
    (forall s, assoc s (t_byType t) = shown (preT s)) ->
    (forall s, assoc s (t_byProvider t) = shown (preP s)) ->
    exists t',
      tally_all ms t = Some t'
      /\ t_total t' = (List.length ms + t_total t)%nat
      /\ t_active t' = (List.length (filter is_active ms) + t_active t)%nat
      /\ obj_wf (t_byType t') = true /\ obj_wf (t_byProvider t') = true
      /\ (forall s,
          assoc s (t_byType t')
          = shown (preT s + List.length (filter (keyed "type" s) ms)))
      /\ (forall s,
          assoc s (t_byProvider t')
          = shown (preP s + List.length (filter (keyed "provider" s) ms))).
Proof.
  induction ms as [|m rest IH]; intros t preT preP HT HP WT WP PT PP.
  - exists t. simpl. repeat split; try assumption; intros s;
      now rewrite Nat.add_0_r.
  - simpl in HT, HP. apply andb_true_iff in HT as [HTm HTr].
    apply andb_true_iff in HP as [HPm HPr].
    unfold tallied in HTm, HPm.
    destruct (to_string (obj_get "type" m)) as [kt|] eqn:Ekt; [|discriminate].
    destruct (to_string (obj_get "provider" m)) as [kp|] eqn:Ekp; [|discriminate].
    apply negb_true_iff in HTm. apply negb_true_iff in HPm.
    destruct (count_key_step _ _ kt preT Ekt HTm WT PT) as [bt [Et [WT' PT']]].
    destruct (count_key_step _ _ kp preP Ekp HPm WP PP) as [bp [Ep [WP' PP']]].
    destruct (IH {| t_total := S (t_total t);
                    t_active :=
                      if strict_eq (obj_get "status" m) (VStr "active")
                      then S (t_active t) else t_active t;
                    t_byType := bt;
                    t_byProvider := bp |} _ _ HTr HPr WT' WP' PT' PP')
      as [t' [E [H1 [H2 [H3 [H4 [H5 H6]]]]]]].
    exists t'. cbn [tally_all]. unfold tally_step. rewrite Et, Ep.
    split; [exact E|]. cbn [t_total t_active] in H1, H2.
    split; [simpl; lia|]. split.
    { cbn [filter]. unfold is_active at 1.
      destruct (strict_eq (obj_get "status" m) (VStr "active")); simpl; lia. }
    split; [exact H3|]. split; [exact H4|]. split; intros s.
    + rewrite H5. f_equal. cbn [filter]. unfold keyed at 2. rewrite Ekt.
      destruct (kt =? s); simpl; lia.
    + rewrite H6. f_equal. cbn [filter]. unfold keyed at 2. rewrite Ekp.
      destruct (kp =? s); simpl; lia.
Qed.

(** [getStats] returns only when every type and provider can be counted. *)
Lemma getStats_tallied (up : Q) (now : string) (r : registry) (s : stats) :
  getStats up now r = Some s ->
  forallb (tallied "type") (map_values (models r)) = true
  /\ forallb (tallied "provider") (map_values (models r)) = true.
Proof.
  unfold getStats.
  destruct (tally_all (map_values (models r)) _) as [t|] eqn:E; [|discriminate].
  intros _. exact (tally_all_tallied _ _ _ E).
Qed.

(** What [getStats] returns when they can. *)
Lemma getStats_returns (up : Q) (now : string) (r : registry) :
  forallb (tallied "type") (map_values (models r)) = true ->
  forallb (tallied "provider") (map_values (models r)) = true ->
  exists s,
    getStats up now r = Some s
    /\ totalModels s = List.length (map_values (models r))
    /\ activeModels s = List.length (filter is_active (map_values (models r)))
    /\ totalAgents s = map_size (agents r)
    /\ uptime s = up /\ lastUpdated s = now
    /\ obj_wf (modelsByType s) = true /\ obj_wf (modelsByProvider s) = true
    /\ (forall k,
        assoc k (modelsByType s)
        = shown (List.length (filter (keyed "type" k) (map_values (models r)))))
    /\ (forall k,
        assoc k (modelsByProvider s)
        = shown (List.length (filter (keyed "provider" k) (map_values (models r))))).
Proof.
  intros HT HP.
  destruct (tally_all_spec (map_values (models r))
              {| t_total := 0; t_active := 0; t_byType := []; t_byProvider := [] |}
              (fun _ => O) (fun _ => O) HT HP eq_refl eq_refl
              (fun _ => eq_refl) (fun _ => eq_refl))
    as [t [E [H1 [H2 [H3 [H4 [H5 H6]]]]]]].
  eexists. unfold getStats. rewrite E. split; [reflexivity|].
  cbn [totalModels activeModels totalAgents uptime lastUpdated modelsByType
       modelsByProvider t_total t_active] in *.
  repeat split; try assumption; try lia.
Qed.


End TallyFacts.

(** ** Removal *)

Module RemoveFacts.
Import JS Registry Server Spec Examples Measures JSFacts MatchFacts SortFacts TallyFacts.


Lemma selected_all (m : obj) : selected [] m = true.
Proof. reflexivity. Qed.

Lemma filter_selected_all (ms : list obj) : filter (selected []) ms = ms.
Proof.
  induction ms as [|m r IH]; simpl; [reflexivity|]. now rewrite IH.
Qed.







End RemoveFacts.

(** ** Timestamps *)

Module TimestampFacts.
Import JS Registry Server Spec Examples JSFacts RegisterFacts.


Lemma assoc_replace_present {A : Type} (k : string) (v w : A) (l : list (string * A)) :
  assoc k l = Some w -> assoc k (assoc_replace k v l) = Some v.
Proof.
  intros H. now rewrite assoc_replace_spec, String.eqb_refl, H.
Qed.




End TimestampFacts.

(** ** Communication descriptors *)

Module DescriptorFacts.
Import JS Registry Server Spec Examples JSFacts.

Lemma lookup_plain_key (examples : obj) (f : value) :
  plain_key f = true -> exists v, lookup_computed examples f = Some v.
Proof.
  unfold plain_key, lookup_computed. destruct (to_string f) as [s|]; [|discriminate].
  intros H. apply negb_true_iff in H. rewrite H. now eexists.
Qed.

Lemma generateExampleRequest_some (m : obj) :
  describable m = true -> exists v, generateExampleRequest m = Some v.
Proof.
  unfold describable, generateExampleRequest.
  destruct (prop "requestFormat" (obj_get "communicationSchema" m)) as [f|];
    [|discriminate].
  destruct (prop "responseFormat" (obj_get "communicationSchema" m)) as [g|];
    [|discriminate].
  destruct (to_string (obj_get "endpoint" m)) as [ep|]; [|discriminate].
  rewrite andb_true_iff. intros [Hf _].
  match goal with
  | |- context [lookup_computed ?e f] =>
      destruct (lookup_plain_key e f Hf) as [v ->]
  end.
  now eexists.
Qed.

Lemma generateExampleResponse_some (m : obj) (created : Z) (now : string) :
  describable m = true -> exists v, generateExampleResponse m created now = Some v.
Proof.
  unfold describable, generateExampleResponse.
  destruct (prop "requestFormat" (obj_get "communicationSchema" m)) as [f|];
    [|discriminate].
  destruct (prop "responseFormat" (obj_get "communicationSchema" m)) as [g|];
    [|discriminate].
  destruct (to_string (obj_get "endpoint" m)) as [ep|]; [|discriminate].
  rewrite andb_true_iff. intros [_ Hg].
  match goal with
  | |- context [lookup_computed ?e g] =>
      destruct (lookup_plain_key e g Hg) as [v ->]
  end.
  now eexists.
Qed.

Lemma authMethod_some (m : obj) :
  describable m = true ->
  exists v, prop "authMethod" (obj_get "communicationSchema" m) = Some v.
Proof.
  unfold describable.
  destruct (obj_get "communicationSchema" m); simpl; try discriminate;
    intros _; now eexists.
Qed.

(** The descriptor reads the record only through [id], [name], [endpoint],
    [protocol], [communicationSchema] and the truth value of [apiKey]. *)
Lemma getModelCommunication_reads (id : string) (created : Z) (now : string)
  (r r' : registry) (m m' : obj) :
  map_get id (models r) = Some m -> map_get id (models r') = Some m' ->
  (forall k, k <> "apiKey" -> obj_get k m' = obj_get k m) ->
  truthy (obj_get "apiKey" m') = truthy (obj_get "apiKey" m) ->
  getModelCommunication id created now r' = getModelCommunication id created now r.
Proof.
  intros Hm Hm' Hk Ht. unfold getModelCommunication. rewrite Hm, Hm'.
  unfold generateExampleRequest, generateExampleResponse.
  rewrite Ht, !Hk by discriminate. reflexivity.
Qed.

(** C4, as the code has it.  The descriptor of a stored model has the nine
    fields of the object literal; its [apiKey] field is the mask
    ['***hidden***'] when the record's [apiKey] is truthy (a non-empty
    string) and [null] otherwise; and no field is computed from the key:
    replacing the key of the record by any other value with the same truth
    value leaves the descriptor unchanged. *)
Theorem descriptor_masks_key (id : string) (created : Z) (now : string)
  (r : registry) (m : obj) :
  map_get id (models r) = Some m -> describable m = true ->
  exists d,
    getModelCommunication id created now r = Some (VObj d)
    /\ obj_keys d = descriptor_keys
    /\ obj_get "apiKey" d =
       (if truthy (obj_get "apiKey" m) then VStr "***hidden***" else VNull)
    /\ (forall key',
        truthy key' = truthy (obj_get "apiKey" m) ->
        getModelCommunication id created now
          (with_models (map_replace id (obj_set "apiKey" key' m) (models r)) r)
        = Some (VObj d)).
Proof.
  intros Hm Hd.
  destruct (authMethod_some m Hd) as [am Ham].
  destruct (generateExampleRequest_some m Hd) as [rq Hrq].
  destruct (generateExampleResponse_some m created now Hd) as [rs Hrs].
  assert (getModelCommunication id created now r =
          Some (VObj [("id", obj_get "id" m); ("name", obj_get "name" m);
                      ("endpoint", obj_get "endpoint" m);
                      ("protocol", obj_get "protocol" m);
                      ("communicationSchema", obj_get "communicationSchema" m);
                      ("authMethod", am);
                      ("apiKey",
                        if truthy (obj_get "apiKey" m) then VStr "***hidden***"
                        else VNull);
                      ("exampleRequest", rq); ("exampleResponse", rs)])) as E.
  { unfold getModelCommunication. now rewrite Hm, Ham, Hrq, Hrs. }
  eexists. split; [exact E|]. split; [reflexivity|]. split; [reflexivity|].
  intros key' Hkey. rewrite <- E.
  apply (getModelCommunication_reads id created now r _ m (obj_set "apiKey" key' m)).
  - exact Hm.
  - cbn [models with_models]. now rewrite map_get_replace, String.eqb_refl, Hm.
  - intros k Hne. apply obj_get_set_ne. congruence.
  - now rewrite obj_get_set_eq.
Qed.

Lemma descriptor_masks_key_witness :
  map_get "s" (models secret_store)
  = Some (modelEntry secret_input (VStr "s") "2024-01-01T00:00:00.000Z")
  /\ describable (modelEntry secret_input (VStr "s") "2024-01-01T00:00:00.000Z") = true
  /\ exists d,
       getModelCommunication "s" 1700000000 "2024-01-01T00:00:05.000Z" secret_store
       = Some (VObj d)
       /\ obj_keys d = descriptor_keys
       /\ obj_get "apiKey" d =
          (if truthy
                (obj_get "apiKey"
                   (modelEntry secret_input (VStr "s") "2024-01-01T00:00:00.000Z"))
           then VStr "***hidden***" else VNull)
       /\ (forall key',
           truthy key' =
           truthy
             (obj_get "apiKey"
                (modelEntry secret_input (VStr "s") "2024-01-01T00:00:00.000Z")) ->
           getModelCommunication "s" 1700000000 "2024-01-01T00:00:05.000Z"
             (with_models
                (map_replace "s"
                   (obj_set "apiKey" key'
                      (modelEntry secret_input (VStr "s") "2024-01-01T00:00:00.000Z"))
                   (models secret_store)) secret_store)
           = Some (VObj d)).
Proof.
  split; [reflexivity|]. split; [reflexivity|].
  apply (descriptor_masks_key "s" 1700000000 "2024-01-01T00:00:05.000Z" secret_store
           (modelEntry secret_input (VStr "s") "2024-01-01T00:00:00.000Z"));
    reflexivity.
Defined.

(** C4, as stated, fails: the descriptor of a model registered with the key
    ["secret"] has no [apiKeyPresent] field; it has an [apiKey] field that
    holds the mask. *)
Lemma descriptor_has_no_apiKeyPresent :
  exists m d,
    map_get "s" (models secret_store) = Some m
    /\ obj_get "apiKey" m = VStr "secret"
    /\ getModelCommunication "s" 1700000000 "2024-01-01T00:00:05.000Z" secret_store
       = Some (VObj d)
    /\ obj_has "apiKeyPresent" d = false
    /\ obj_get "apiKeyPresent" d <> VBool true
    /\ obj_get "apiKey" d = VStr "***hidden***".
Proof.
  eexists. eexists. split; [vm_compute; reflexivity|]. split; [reflexivity|].
  split; [vm_compute; reflexivity|]. split; [reflexivity|].
  split; [discriminate | reflexivity].
Qed.

(** The mask is an ordinary string: a key that is itself the text of the mask
    is the one key the descriptor shows. *)
Lemma descriptor_shows_mask_text :
  exists m d,
    map_get "k" (models masked_store) = Some m
    /\ getModelCommunication "k" 1700000000 "2024-01-01T00:00:05.000Z" masked_store
       = Some (VObj d)
    /\ obj_get "apiKey" d = obj_get "apiKey" m.
Proof.
  eexists. eexists. split; [vm_compute; reflexivity|].
  split; [vm_compute; reflexivity | reflexivity].
Qed.

End DescriptorFacts.

(** ** Snapshots *)

Module SnapshotFacts.
Import JS Registry Server Spec Examples JSFacts.

Lemma to_json_obj (fs : obj) : to_json (VObj fs) = VObj (json_fields fs).
Proof. reflexivity. Qed.

(** JSON keeps a value that holds no [undefined] and no infinity. *)
Lemma to_json_exact (v : value) :
  no_undef v = true -> finite v = true -> to_json v = v.
Proof.
  induction v as [| | | | | |xs IH|fs IH] using value_nested_ind;
    try reflexivity; try discriminate.
  - intros H F. simpl in H, F. simpl. f_equal.
    induction IH as [|x r Hx _ IHr]; simpl; [reflexivity|].
    simpl in H, F. apply andb_true_iff in H as [H1 H2].
    apply andb_true_iff in F as [F1 F2].
    rewrite (IHr H2 F2). f_equal.
    destruct x; try discriminate; try reflexivity; now apply Hx.
  - intros H F. rewrite to_json_obj. f_equal. simpl in H, F.
    induction IH as [|[k x] r Hx _ IHr]; simpl; [reflexivity|].
    simpl in H, F. apply andb_true_iff in H as [H1 H2].
    apply andb_true_iff in F as [F1 F2].
    rewrite (IHr H2 F2). simpl in Hx, H1, F1.
    destruct x; try discriminate; try reflexivity; now rewrite (Hx H1 F1).
Qed.

Lemma json_fields_keys_incl (o : obj) (k : string) :
  In k (obj_keys (json_fields o)) -> In k (obj_keys o).
Proof.
  unfold obj_keys. induction o as [|[k0 x] r IH]; simpl; [tauto|].
  destruct x; simpl; intuition.
Qed.

Lemma json_fields_wf (o : obj) : obj_wf o = true -> obj_wf (json_fields o) = true.
Proof.
  unfold obj_wf. rewrite !distinct_NoDup. unfold obj_keys.
  induction o as [|[k0 x] r IH]; simpl; [trivial|].
  intros H. inversion H as [|? ? Hk Hr]; subst.
  assert (~ In k0 (map fst (json_fields r))) as Hk'
    by (intros Hin; apply Hk; now apply json_fields_keys_incl).
  destruct x; simpl; try (constructor; [exact Hk' | now apply IH]).
  now apply IH.
Qed.

Lemma assoc_json_fields (k : string) (o : obj) :
  obj_wf o = true ->
  assoc k (json_fields o) =
  match assoc k o with
  | Some VUndef => None
  | Some v => Some (to_json v)
  | None => None
  end.
Proof.
  unfold obj_wf, obj_keys. induction o as [|[k0 x] r IH]; simpl; [reflexivity|].
  rewrite andb_true_iff, negb_true_iff. intros [Hk Hr].
  assert (k0 = k -> assoc k (json_fields r) = None) as Hgone.
  { intros ->. apply assoc_None_keys. intros Hin.
    apply json_fields_keys_incl in Hin. unfold obj_keys in Hin.
    apply existsb_eqb_In in Hin. congruence. }
  destruct x; simpl; destruct (String.eqb_spec k0 k) as [E|E];
    try reflexivity; try (now apply IH); now apply Hgone.
Qed.

(** Reading a field of a record after a trip through JSON. *)
Lemma obj_get_json_fields (f : string) (a : obj) :
  clean_record a = true -> finite (VObj a) = true ->
  obj_get f (json_fields a) = obj_get f a.
Proof.
  unfold clean_record. rewrite andb_true_iff. intros [Hwf Hc] Hf.
  unfold obj_get. rewrite (assoc_json_fields f a Hwf).
  destruct (assoc f a) as [v|] eqn:E; [|reflexivity].
  apply assoc_In in E. rewrite forallb_forall in Hc. specialize (Hc _ E).
  simpl in Hf. rewrite forallb_forall in Hf. specialize (Hf _ E).
  simpl in Hc, Hf. destruct v; try reflexivity; now rewrite (to_json_exact _ Hc Hf).
Qed.

(** Reading a field of any object after the trip. *)
Lemma obj_get_json (k : string) (o : obj) :
  obj_wf o = true -> obj_get k (json_fields o) = to_json (obj_get k o).
Proof.
  intros Hw. unfold obj_get. rewrite (assoc_json_fields k o Hw).
  destruct (assoc k o) as [[]|]; reflexivity.
Qed.

Lemma strict_eq_to_json (v : value) (s : string) :
  strict_eq (to_json v) (VStr s) = strict_eq v (VStr s).
Proof. destruct v; reflexivity. Qed.

(** *** The records under string ids *)

Lemma map_get_named (s : string) (m : jsmap) : map_get s m = assoc s (named m).
Proof.
  unfold map_get. induction m as [|[k0 v0] r IH]; simpl; [reflexivity|].
  destruct k0; simpl; try exact IH. now rewrite IH.
Qed.

Lemma named_keys (m : jsmap) :
  string_keys m = true -> map_keys m = map VStr (map fst (named m)).
Proof.
  unfold string_keys, map_keys. induction m as [|[k0 v0] r IH]; simpl; [reflexivity|].
  destruct k0; simpl; try discriminate. intros H. now rewrite (IH H).
Qed.

Lemma named_values (m : jsmap) :
  string_keys m = true -> map_values m = map snd (named m).
Proof.
  unfold string_keys, map_keys, map_values.
  induction m as [|[k0 v0] r IH]; simpl; [reflexivity|].
  destruct k0; simpl; try discriminate. intros H. now rewrite (IH H).
Qed.

Lemma named_keys_In (s : string) (m : jsmap) :
  In s (map fst (named m)) -> In (VStr s) (map_keys m).
Proof.
  unfold map_keys. induction m as [|[k0 v0] r IH]; simpl; [tauto|].
  destruct k0; simpl; try (intros H; right; now apply IH).
  intros [->|H]; [now left | right; now apply IH].
Qed.

Lemma named_wf (m : jsmap) : map_wf m = true -> distinct (map fst (named m)) = true.
Proof.
  unfold map_wf, map_keys. induction m as [|[k0 v0] r IH]; simpl; [reflexivity|].
  rewrite andb_true_iff, negb_true_iff. intros [Hk Hr].
  destruct k0; simpl; try (now apply IH).
  rewrite (IH Hr), andb_true_r, negb_true_iff.
  destruct (existsb (String.eqb s) (map fst (named r))) eqn:E; [|reflexivity].
  apply existsb_eqb_In, named_keys_In, existsb_strict_eq_In in E.
  unfold map_keys in E. congruence.
Qed.

Lemma entries_of_map_named (m : jsmap) :
  string_keys m = true ->
  entries_of_map m = Some (map (fun kv => (fst kv, VObj (snd kv))) (named m)).
Proof.
  unfold string_keys, map_keys. induction m as [|[k0 v0] r IH]; simpl; [reflexivity|].
  destruct k0; simpl; try discriminate. intros H. now rewrite (IH H).
Qed.

Lemma string_keys_set (k : string) (v : obj) (m : jsmap) :
  string_keys m = true -> string_keys (map_set (VStr k) v m) = true.
Proof.
  unfold string_keys, map_set. intros H. destruct (map_has (VStr k) m).
  - now rewrite map_update_keys.
  - unfold map_keys in *. rewrite map_app, forallb_app. now rewrite H.
Qed.

Lemma string_keys_map_of_entries (es : list (string * obj)) :
  string_keys (map_of_entries es) = true.
Proof.
  unfold map_of_entries.
  assert (forall base, string_keys base = true ->
          string_keys
            (fold_left (fun m kv => map_set (VStr (fst kv)) (snd kv) m) es base)
          = true) as H.
  { induction es as [|[k v] r IH]; intros base Hb; simpl; [exact Hb|].
    apply IH. now apply string_keys_set. }
  now apply H.
Qed.

(** *** A map written and read back *)

Lemma assoc_entries (k : string) (es : list (string * obj)) :
  assoc k (map (fun kv => (fst kv, VObj (snd kv))) es) = option_map VObj (assoc k es).
Proof.
  induction es as [|[k0 v0] r IH]; simpl; [reflexivity|].
  destruct (k0 =? k); [reflexivity | exact IH].
Qed.

Lemma assoc_fromEntries (k : string) (es : list (string * obj)) :
  distinct (map fst es) = true ->
  assoc k (fromEntries (map (fun kv => (fst kv, VObj (snd kv))) es))
  = option_map VObj (assoc k es).
Proof.
  intros Hwf. unfold fromEntries. rewrite assoc_spread, assoc_rev.
  - rewrite assoc_entries. now destruct (assoc k es).
  - now rewrite map_map.
Qed.

Lemma written_wf (es : list (string * obj)) : obj_wf (written es) = true.
Proof.
  unfold written, fromEntries. apply json_fields_wf. now apply spread_wf.
Qed.

Lemma assoc_written (id : string) (es : list (string * obj)) :
  distinct (map fst es) = true ->
  assoc id (written es) = option_map (fun a => to_json (VObj a)) (assoc id es).
Proof.
  intros Hwf. unfold written.
  rewrite assoc_json_fields by (unfold fromEntries; now apply spread_wf).
  rewrite (assoc_fromEntries id es Hwf). now destruct (assoc id es).
Qed.

Lemma written_objects (es : list (string * obj)) (k : string) (v : value) :
  distinct (map fst es) = true -> In (k, v) (written es) -> exists fs, v = VObj fs.
Proof.
  intros Hwf Hin. apply (In_assoc _ _ _ (written_wf es)) in Hin.
  rewrite (assoc_written k es Hwf) in Hin.
  destruct (assoc k es); simpl in Hin; [|discriminate].
  injection Hin as <-. now eexists.
Qed.

Lemma record_entries_objects (ms : obj) :
  (forall k v, In (k, v) ms -> exists fs, v = VObj fs) ->
  exists es,
    record_entries ms = Some es
    /\ map fst es = map fst ms
    /\ forall k,
       assoc k es = match assoc k ms with Some (VObj fs) => Some fs | _ => None end.
Proof.
  induction ms as [|[k0 v0] r IH]; intros H.
  - exists []. repeat split.
  - destruct (H k0 v0 (or_introl eq_refl)) as [fs ->].
    destruct IH as [es [E [K A]]]; [intros k v Hin; apply (H k v); now right|].
    exists ((k0, fs) :: es). simpl. rewrite E. repeat split.
    + now rewrite K.
    + intros k. destruct (k0 =? k); [reflexivity | apply A].
Qed.

(** Reading back what was written for the records [es]. *)
Lemma load_written (es : list (string * obj)) (old : jsmap) :
  distinct (map fst es) = true ->
  exists m' es',
    load_map (VObj (written es)) old = Some m'
    /\ m' = map_of_entries es'
    /\ map fst es' = obj_keys (written es)
    /\ forall id, map_get id m' = option_map json_fields (assoc id es).
Proof.
  intros Hwf.
  destruct (record_entries_objects (written es)) as [es' [E [K A]]].
  { intros k v. now apply written_objects. }
  exists (map_of_entries es'), es'. split.
  { unfold load_map. simpl. now rewrite E. }
  split; [reflexivity|]. split; [exact K|].
  intros id. rewrite map_get_map_of_entries, assoc_rev.
  - rewrite A, (assoc_written id es Hwf). now destruct (assoc id es).
  - rewrite K. apply written_wf.
Qed.

Lemma object_of_map_named (m : jsmap) :
  string_keys m = true ->
  option_map json_fields (object_of_map m) = Some (written (named m)).
Proof.
  intros H. unfold object_of_map. now rewrite (entries_of_map_named m H).
Qed.

Lemma saveData_shape (now : string) (r : registry) :
  string_ids r = true ->
  saveData now r =
  Some (VObj [("models", VObj (written (named (models r))));
              ("agents", VObj (written (named (agents r))));
              ("networks", VObj (written (named (networks r))));
              ("lastUpdated", VStr now)]).
Proof.
  unfold string_ids. rewrite !andb_true_iff. intros [[Hm Ha] Hn].
  unfold saveData, snapshot, object_of_map.
  rewrite (entries_of_map_named _ Hm), (entries_of_map_named _ Ha),
    (entries_of_map_named _ Hn).
  reflexivity.
Qed.

(** *** Maps with any keys *)

Lemma assoc_rev_entries (id : string) (m : jsmap) :
  forall es,
    entries_of_map m = Some es ->
    assoc id (rev es) = option_map VObj (filed id m).
Proof.
  induction m as [|[k v] rest IH]; intros es; simpl.
  - now intros [= <-].
  - destruct (to_string k) as [s|]; [|discriminate].
    destruct (entries_of_map rest) as [es'|]; [|discriminate].
    intros [= <-]. simpl. rewrite assoc_app, (IH es' eq_refl).
    destruct (filed id rest); [reflexivity|]. simpl.
    now destruct (s =? id).
Qed.

Lemma filed_named (id : string) (m : jsmap) :
  map_wf m = true -> string_keys m = true -> filed id m = map_get id m.
Proof.
  unfold map_wf, string_keys, map_keys, map_get.
  induction m as [|[k v] rest IH]; simpl; [reflexivity|].
  rewrite !andb_true_iff, negb_true_iff. intros [Hk Hr] [Hs Hsr].
  destruct k; try discriminate. simpl. rewrite (IH Hr Hsr).
  destruct (String.eqb_spec s id) as [->|Hne].
  - assert (map_find (VStr id) rest = None) as ->; [|reflexivity].
    apply map_find_None. intros k1 Hin.
    destruct (strict_eq k1 (VStr id)) eqn:E1; [|reflexivity].
    apply strict_eq_str in E1. subst k1.
    apply existsb_strict_eq_In in Hin. unfold map_keys in Hin. congruence.
  - now destruct (map_find (VStr id) rest).
Qed.

(** What the document holds for a map, whatever its keys. *)
Lemma object_of_map_filed (m : jsmap) (o : obj) :
  object_of_map m = Some o ->
  forall id,
    assoc id (json_fields o) = option_map (fun a => to_json (VObj a)) (filed id m).
Proof.
  unfold object_of_map. destruct (entries_of_map m) as [es|] eqn:E; [|discriminate].
  intros [= <-] id.
  rewrite assoc_json_fields by (unfold fromEntries; now apply spread_wf).
  unfold fromEntries. rewrite assoc_spread, (assoc_rev_entries id m es E).
  now destruct (filed id m).
Qed.

Lemma object_of_map_printable (m : jsmap) :
  printable_keys m = true -> exists o, object_of_map m = Some o.
Proof.
  unfold printable_keys, map_keys, object_of_map.
  induction m as [|[k v] rest IH]; simpl; [now eexists|].
  destruct (to_string k) as [s|]; [|discriminate]. intros H.
  destruct (IH H) as [o Ho].
  destruct (entries_of_map rest) as [es|]; [|discriminate]. now eexists.
Qed.

(** Whatever the ids, a document that is written has the four keys, and
    under each name of a map the record filed there. *)
Lemma saveData_filed (now : string) (r : registry) (doc : value) :
  saveData now r = Some doc ->
  exists ms ags nws,
    doc = VObj [("models", VObj ms); ("agents", VObj ags); ("networks", VObj nws);
                ("lastUpdated", VStr now)]
    /\ (forall id,
        assoc id ms = option_map (fun a => to_json (VObj a)) (filed id (models r)))
    /\ (forall id,
        assoc id ags = option_map (fun a => to_json (VObj a)) (filed id (agents r)))
    /\ (forall id,
        assoc id nws
        = option_map (fun a => to_json (VObj a)) (filed id (networks r))).
Proof.
  unfold saveData, snapshot.
  destruct (object_of_map (models r)) as [ms|] eqn:Em; [|discriminate].
  destruct (object_of_map (agents r)) as [ags|] eqn:Ea; [|discriminate].
  destruct (object_of_map (networks r)) as [nws|] eqn:En; [|discriminate].
  intros [= <-]. exists (json_fields ms), (json_fields ags), (json_fields nws).
  split; [reflexivity|].
  split; [now apply object_of_map_filed|].
  split; now apply object_of_map_filed.
Qed.

Lemma saveData_printable (now : string) (r : registry) :
  printable_ids r = true -> exists doc, saveData now r = Some doc.
Proof.
  unfold printable_ids. rewrite !andb_true_iff. intros [[Hm Ha] Hn].
  destruct (object_of_map_printable _ Hm) as [ms Em].
  destruct (object_of_map_printable _ Ha) as [ags Ea].
  destruct (object_of_map_printable _ Hn) as [nws En].
  unfold saveData, snapshot. rewrite Em, Ea, En. now eexists.
Qed.

Lemma same_records_json (m m' : jsmap) :
  clean_map m = true -> finite_map m = true ->
  (forall id, map_get id m' = option_map json_fields (map_get id m)) ->
  same_records m m'.
Proof.
  unfold clean_map, finite_map. rewrite andb_true_iff. intros [_ Hc] Hf H id.
  rewrite H. destruct (map_get id m) as [a|] eqn:E; simpl; [|trivial].
  apply map_get_In in E. apply (in_map snd) in E. fold (map_values m) in E.
  rewrite forallb_forall in Hc, Hf.
  intros f. apply obj_get_json_fields; [now apply Hc | now apply Hf].
Qed.

(** A map of string ids after [saveData] and [loadData]. *)
Lemma reload_map (m old : jsmap) :
  clean_map m = true -> string_keys m = true -> finite_map m = true ->
  exists m',
    load_map (VObj (written (named m))) old = Some m'
    /\ same_records m m'
    /\ string_keys m' = true /\ map_wf m' = true
    /\ forall id, map_get id m' = option_map json_fields (map_get id m).
Proof.
  intros Hc Hs Hf.
  assert (map_wf m = true) as Hwf
    by (unfold clean_map in Hc; now apply andb_true_iff in Hc as [Hc _]).
  destruct (load_written (named m) old (named_wf m Hwf)) as [m' [es' [E [-> [_ A]]]]].
  assert (forall id,
          map_get id (map_of_entries es') = option_map json_fields (map_get id m))
    as A' by (intros id; now rewrite A, map_get_named).
  exists (map_of_entries es'). split; [exact E|]. split.
  { now apply same_records_json. }
  split; [apply string_keys_map_of_entries|]. split; [apply map_of_entries_wf|].
  exact A'.
Qed.

(** C5, as the code has it.  When every id of the store is a string and no
    record holds an infinite number, a registry that loads the snapshot of
    the store holds the same model ids and agent ids as the store, each with
    a record whose fields read the same values. *)
Theorem snapshot_round_trip (now : string) (r : registry) :
  clean_store r = true -> string_ids r = true -> finite_store r = true ->
  exists doc r',
    saveData now r = Some doc
    /\ loadData (Some doc) fresh = Some r'
    /\ same_records (models r) (models r')
    /\ same_records (agents r) (agents r')
    /\ same_records (networks r) (networks r')
    /\ string_ids r' = true.
Proof.
  unfold clean_store, finite_store. rewrite !andb_true_iff.
  intros [[Hm Ha] Hn] Hs [[Fm Fa] Fn].
  pose proof Hs as Hs'. unfold string_ids in Hs'. rewrite !andb_true_iff in Hs'.
  destruct Hs' as [[Sm Sa] Sn].
  destruct (reload_map (models r) [] Hm Sm Fm) as [m' [Em [Rm [Km _]]]].
  destruct (reload_map (agents r) [] Ha Sa Fa) as [a' [Ea [Ra [Ka _]]]].
  destruct (reload_map (networks r) [] Hn Sn Fn) as [n' [En [Rn [Kn _]]]].
  eexists. exists {| models := m'; agents := a'; networks := n' |}.
  split; [apply (saveData_shape now r Hs)|]. split.
  - unfold loadData.
    change (prop "models" _) with (Some (VObj (written (named (models r))))).
    change (prop "agents" _) with (Some (VObj (written (named (agents r))))).
    change (prop "networks" _) with (Some (VObj (written (named (networks r))))).
    cbn [models agents networks fresh]. now rewrite Em, Ea, En.
  - cbn [models agents networks]. repeat split; try assumption.
    unfold string_ids. cbn [models agents networks]. now rewrite Km, Ka, Kn.
Qed.

Lemma snapshot_round_trip_witness :
  clean_store populated = true
  /\ string_ids populated = true
  /\ finite_store populated = true
  /\ exists doc r',
       saveData "2024-01-01T00:00:30.000Z" populated = Some doc
       /\ loadData (Some doc) fresh = Some r'
       /\ same_records (models populated) (models r')
       /\ same_records (agents populated) (agents r')
       /\ same_records (networks populated) (networks r')
       /\ string_ids r' = true.
Proof.
  split; [reflexivity|]. split; [reflexivity|]. split; [reflexivity|].
  apply (snapshot_round_trip "2024-01-01T00:00:30.000Z" populated); reflexivity.
Defined.

(** C5, as stated, fails: a model registered under the string ["1"] and one
    registered under the number 1 are two records of the store, and one
    property of the document; the registry that loads it holds one record,
    and under ["1"] the record that was registered under the number. *)
Lemma snapshot_merges_ids :
  clean_store twin_ids_store = true
  /\ finite_store twin_ids_store = true
  /\ map_size (models twin_ids_store) = 2%nat
  /\ (exists m, map_get "1" (models twin_ids_store) = Some m
                /\ obj_get "name" m = VStr "first")
  /\ exists doc r',
       saveData "2024-01-01T00:00:30.000Z" twin_ids_store = Some doc
       /\ loadData (Some doc) fresh = Some r'
       /\ map_size (models r') = 1%nat
       /\ (exists m', map_get "1" (models r') = Some m'
                      /\ obj_get "name" m' = VStr "second")
       /\ ~ same_records (models twin_ids_store) (models r').
Proof.
  split; [reflexivity|]. split; [reflexivity|]. split; [reflexivity|].
  split; [eexists; split; reflexivity|].
  eexists. eexists. split; [vm_compute; reflexivity|].
  split; [vm_compute; reflexivity|]. split; [reflexivity|].
  split; [eexists; split; reflexivity|].
  intros H. specialize (H "1"). vm_compute in H. specialize (H "name").
  vm_compute in H. discriminate H.
Qed.

(** An infinite number does not come back either: the latency [1e999] of a
    request body is [Infinity] in the store, [null] in the document and in
    the registry that loads it. *)
Lemma snapshot_loses_infinity :
  clean_store endless_store = true
  /\ string_ids endless_store = true
  /\ exists doc r' m m',
       saveData "2024-01-01T00:00:30.000Z" endless_store = Some doc
       /\ loadData (Some doc) fresh = Some r'
       /\ map_get "e" (models endless_store) = Some m
       /\ map_get "e" (models r') = Some m'
       /\ obj_get "latencyMs" m = VInf true
       /\ obj_get "latencyMs" m' = VNull
       /\ ~ same_records (models endless_store) (models r').
Proof.
  split; [reflexivity|]. split; [reflexivity|].
  eexists. eexists. eexists. eexists. split; [vm_compute; reflexivity|].
  split; [vm_compute; reflexivity|]. split; [reflexivity|].
  split; [reflexivity|]. split; [reflexivity|]. split; [reflexivity|].
  intros H. specialize (H "e"). vm_compute in H. specialize (H "latencyMs").
  vm_compute in H. discriminate H.
Qed.

(** C8, as the code has it.  The document that [saveData] writes has the
    top-level keys [models], [agents], [networks] and [lastUpdated], in this
    order: [models] and [agents] map each id of the store to the JSON form of
    its record, [networks] does the same for the third map, and [lastUpdated]
    is the time of the call.  This holds for every store whose ids are
    strings; whatever the ids are, a document is written when each of them
    can be made a property name, and a document that is written has the
    four keys and, under each name, the JSON form of the record filed
    there. *)
Theorem snapshot_layout (now : string) (r : registry) :
  (map_wf (models r) = true -> map_wf (agents r) = true ->
   map_wf (networks r) = true -> string_ids r = true ->
   exists ms ags nws,
     saveData now r =
     Some (VObj [("models", VObj ms); ("agents", VObj ags); ("networks", VObj nws);
                 ("lastUpdated", VStr now)])
     /\ (forall id,
         assoc id ms = option_map (fun a => to_json (VObj a)) (map_get id (models r)))
     /\ (forall id,
         assoc id ags = option_map (fun a => to_json (VObj a)) (map_get id (agents r)))
     /\ (forall id,
         assoc id nws
         = option_map (fun a => to_json (VObj a)) (map_get id (networks r))))
  /\ (printable_ids r = true -> exists doc, saveData now r = Some doc)
  /\ forall doc,
       saveData now r = Some doc ->
       top_level_keys doc = ["models"; "agents"; "networks"; "lastUpdated"]
       /\ exists ms ags nws,
            doc = VObj [("models", VObj ms); ("agents", VObj ags);
                        ("networks", VObj nws); ("lastUpdated", VStr now)]
            /\ (forall id,
                assoc id ms
                = option_map (fun a => to_json (VObj a)) (filed id (models r)))
            /\ (forall id,
                assoc id ags
                = option_map (fun a => to_json (VObj a)) (filed id (agents r)))
            /\ (forall id,
                assoc id nws
                = option_map (fun a => to_json (VObj a)) (filed id (networks r))).
Proof.
  split; [|split].
  - intros Hm Ha Hn Hs.
    exists (written (named (models r))), (written (named (agents r))),
      (written (named (networks r))).
    split; [now apply saveData_shape|].
    repeat split; intros id; rewrite map_get_named; apply assoc_written;
      now apply named_wf.
  - apply saveData_printable.
  - intros doc Hdoc. destruct (saveData_filed now r doc Hdoc) as [ms [ags [nws H]]].
    split; [|now exists ms, ags, nws].
    destruct H as [-> _]. reflexivity.
Qed.

Lemma snapshot_layout_witness :
  map_wf (models populated) = true
  /\ map_wf (agents populated) = true
  /\ map_wf (networks populated) = true
  /\ string_ids populated = true
  /\ exists ms ags nws,
       saveData "2024-01-01T00:00:30.000Z" populated =
       Some (VObj [("models", VObj ms); ("agents", VObj ags); ("networks", VObj nws);
                   ("lastUpdated", VStr "2024-01-01T00:00:30.000Z")])
       /\ (forall id,
           assoc id ms =
           option_map (fun a => to_json (VObj a)) (map_get id (models populated)))
       /\ (forall id,
           assoc id ags =
           option_map (fun a => to_json (VObj a)) (map_get id (agents populated)))
       /\ (forall id,
           assoc id nws =
           option_map (fun a => to_json (VObj a)) (map_get id (networks populated))).
Proof.
  split; [reflexivity|]. split; [reflexivity|]. split; [reflexivity|].
  split; [reflexivity|].
  apply (proj1 (snapshot_layout "2024-01-01T00:00:30.000Z" populated)); reflexivity.
Defined.

(** C8, as stated, fails: the document has a fourth top-level key,
    [networks]. *)
Lemma snapshot_has_networks :
  exists doc,
    saveData "2024-01-01T00:00:30.000Z" populated = Some doc
    /\ top_level_keys doc = ["models"; "agents"; "networks"; "lastUpdated"]
    /\ top_level_keys doc <> ["models"; "agents"; "lastUpdated"].
Proof.
  eexists. split; [vm_compute; reflexivity|]. split; [reflexivity | discriminate].
Qed.

End SnapshotFacts.

(** ** An invariant of the registry

    Every registry that the server builds from parsed JSON keeps each key
    once in its maps and records, and its fields are [undefined] or JSON
    values. *)

Module InvariantFacts.
Import JS Registry Server Spec JSFacts SnapshotFacts.

Lemma json_wf_no_undef (v : value) : json_wf v = true -> no_undef v = true.
Proof.
  induction v as [| | | | | |xs IH|fs IH] using value_nested_ind;
    try reflexivity; try discriminate.
  - simpl. induction IH as [|x r Hx _ IHr]; simpl; [reflexivity|].
    rewrite !andb_true_iff. intros [H1 H2]. split; [now apply Hx | now apply IHr].
  - simpl. rewrite andb_true_iff. intros [_ H].
    induction IH as [|[k x] r Hx _ IHr]; simpl; [reflexivity|].
    simpl in H. apply andb_true_iff in H as [H1 H2].
    rewrite andb_true_iff. split; [now apply Hx | now apply IHr].
Qed.

Lemma no_undef_clean (v : value) : no_undef v = true -> clean_field v = true.
Proof. destruct v; simpl; trivial. Qed.

Lemma json_wf_value (o : obj) (k : string) (v : value) :
  json_wf (VObj o) = true -> In (k, v) o -> json_wf v = true.
Proof.
  simpl. rewrite andb_true_iff, forallb_forall. intros [_ H] Hin.
  exact (H _ Hin).
Qed.

Lemma json_get (o : obj) (k : string) :
  json_wf (VObj o) = true ->
  obj_get k o = VUndef \/ json_wf (obj_get k o) = true.
Proof.
  intros H. unfold obj_get. destruct (assoc k o) as [v|] eqn:E; [|now left].
  right. apply assoc_In in E. exact (json_wf_value o k v H E).
Qed.

Lemma clean_get (o : obj) (k : string) :
  json_wf (VObj o) = true -> clean_field (obj_get k o) = true.
Proof.
  intros H. destruct (json_get o k H) as [->|Hj]; [reflexivity|].
  now apply no_undef_clean, json_wf_no_undef.
Qed.

Lemma clean_or (a b : value) :
  clean_field a = true -> no_undef b = true -> clean_field (js_or a b) = true.
Proof.
  intros Ha Hb. unfold js_or. destruct (truthy a); [exact Ha|].
  now apply no_undef_clean.
Qed.

Lemma json_wf_record (fs : obj) : json_wf (VObj fs) = true -> clean_record fs = true.
Proof.
  intros H. unfold clean_record, obj_wf, obj_keys.
  pose proof H as H'. simpl in H'. apply andb_true_iff in H' as [Hd _].
  rewrite Hd. simpl. apply forallb_forall. intros [k v] Hin. simpl.
  apply no_undef_clean, json_wf_no_undef. exact (json_wf_value fs k v H Hin).
Qed.

Lemma modelEntry_clean (modelData : obj) (uuid timestamp : string) :
  json_wf (VObj modelData) = true ->
  clean_record
    (modelEntry modelData (js_or (obj_get "id" modelData) (VStr uuid)) timestamp)
  = true.
Proof.
  intros H. unfold clean_record. apply andb_true_intro. split; [reflexivity|].
  unfold modelEntry. cbn [forallb snd].
  repeat (apply andb_true_intro; split);
    try reflexivity; try (now apply clean_get);
    apply clean_or; try reflexivity; now apply clean_get.
Qed.

Lemma agentEntry_clean (agentData : obj) (uuid timestamp : string) :
  json_wf (VObj agentData) = true ->
  clean_record
    (agentEntry agentData (js_or (obj_get "id" agentData) (VStr uuid)) timestamp)
  = true.
Proof.
  intros H. unfold clean_record. apply andb_true_intro. split; [reflexivity|].
  unfold agentEntry. cbn [forallb snd].
  repeat (apply andb_true_intro; split);
    try reflexivity; try (now apply clean_get);
    apply clean_or; try reflexivity; now apply clean_get.
Qed.

(** *** Maps *)

Lemma clean_map_intro (m : jsmap) :
  map_wf m = true ->
  (forall k v, In (k, v) m -> clean_record v = true) ->
  clean_map m = true.
Proof.
  intros Hwf H. unfold clean_map. rewrite Hwf. simpl.
  apply forallb_forall. intros x Hx. unfold map_values in Hx.
  apply in_map_iff in Hx as [[k v] [<- Hin]]. exact (H k v Hin).
Qed.

Lemma clean_map_elim (m : jsmap) :
  clean_map m = true ->
  map_wf m = true /\ forall k v, In (k, v) m -> clean_record v = true.
Proof.
  unfold clean_map. rewrite andb_true_iff, forallb_forall. intros [Hwf H].
  split; [exact Hwf|]. intros k v Hin. apply H.
  unfold map_values. exact (in_map snd _ _ Hin).
Qed.

Lemma map_set_clean (k : value) (v : obj) (m : jsmap) :
  clean_map m = true -> clean_record v = true -> clean_map (map_set k v m) = true.
Proof.
  intros Hm Hv. apply clean_map_elim in Hm as [Hwf H].
  apply clean_map_intro; [now apply map_set_wf|].
  intros k' v' Hin. apply In_map_set in Hin as [->|Hin];
    [exact Hv | exact (H k' v' Hin)].
Qed.

Lemma map_replace_clean (k : string) (v : obj) (m : jsmap) :
  clean_map m = true -> clean_record v = true ->
  clean_map (map_replace k v m) = true.
Proof.
  intros Hm Hv. apply clean_map_elim in Hm as [Hwf H].
  apply clean_map_intro; [now apply map_replace_wf|].
  intros k' v' Hin. apply In_map_update in Hin as [->|Hin];
    [exact Hv | exact (H k' v' Hin)].
Qed.

Lemma map_delete_clean (k : string) (m : jsmap) :
  clean_map m = true -> clean_map (map_delete k m) = true.
Proof.
  intros Hm. apply clean_map_elim in Hm as [Hwf H].
  apply clean_map_intro; [now apply map_delete_wf|].
  intros k' v' Hin. apply (H k' v'). now apply (map_delete_incl k).
Qed.

Lemma clean_map_lookup (m : jsmap) (k : string) (v : obj) :
  clean_map m = true -> map_get k m = Some v -> clean_record v = true.
Proof.
  intros Hm E. apply clean_map_elim in Hm as [_ H].
  apply (H (VStr k) v). now apply map_get_In.
Qed.

(** *** Records *)

Lemma In_obj_set (k : string) (v : value) (o : obj) (kv : string * value) :
  In kv (obj_set k v o) -> kv = (k, v) \/ In kv o.
Proof.
  unfold obj_set. destruct (obj_has k o); [apply In_assoc_replace|].
  destruct (array_index k) as [n|].
  - intros H. apply (Permutation_in _ (Permutation_sym (insert_index_perm n k v o))) in H.
    destruct H as [H|H]; [now left | now right].
  - intros H. apply in_app_or in H as [H|[H|[]]]; [now right | now left].
Qed.

Lemma obj_set_clean (k : string) (v : value) (o : obj) :
  clean_record o = true -> clean_field v = true ->
  clean_record (obj_set k v o) = true.
Proof.
  unfold clean_record. rewrite !andb_true_iff, !forallb_forall.
  intros [Hwf H] Hv. split; [now apply obj_set_wf|].
  intros kv Hin. apply In_obj_set in Hin as [->|Hin]; [exact Hv | now apply H].
Qed.

Lemma spread_clean (base extra : obj) :
  clean_record base = true ->
  forallb (fun kv => clean_field (snd kv)) extra = true ->
  clean_record (spread base extra) = true.
Proof.
  unfold spread. revert base.
  induction extra as [|[k v] r IH]; intros base Hb; simpl; [trivial|].
  rewrite andb_true_iff. intros [Hv Hr]. apply IH; [|exact Hr].
  now apply obj_set_clean.
Qed.

Lemma clean_record_fields (o : obj) :
  clean_record o = true -> forallb (fun kv => clean_field (snd kv)) o = true.
Proof. unfold clean_record. rewrite andb_true_iff. tauto. Qed.

(** *** Loading *)

Lemma record_entries_In (o : obj) (es : list (string * obj)) (k : string) (fs : obj) :
  record_entries o = Some es -> In (k, fs) es -> In (k, VObj fs) o.
Proof.
  revert es. induction o as [|[k0 v0] r IH]; intros es; simpl.
  - intros [= <-] [].
  - destruct v0; try discriminate.
    destruct (record_entries r) as [es'|]; [|discriminate].
    intros [= <-] [[= -> ->]|Hin]; [now left | right; now apply (IH es')].
Qed.

Lemma fold_map_set_clean (es : list (string * obj)) (base : jsmap) :
  clean_map base = true ->
  (forall k fs, In (k, fs) es -> clean_record fs = true) ->
  clean_map (fold_left (fun m kv => map_set (VStr (fst kv)) (snd kv) m) es base)
  = true.
Proof.
  revert base. induction es as [|[k fs] r IH]; intros base Hb H; simpl; [exact Hb|].
  apply IH.
  - apply map_set_clean; [exact Hb | apply (H k fs); now left].
  - intros k' fs' Hin. apply (H k' fs'). now right.
Qed.

Lemma load_map_clean (v : value) (old m' : jsmap) :
  v = VUndef \/ json_wf v = true ->
  clean_map old = true -> load_map v old = Some m' -> clean_map m' = true.
Proof.
  intros Hv Hold. unfold load_map. destruct (truthy v); [|now intros [= <-]].
  destruct v as [| | | | | | |o]; try discriminate;
    try (now intros [= <-]).
  destruct Hv as [Hv|Hv]; [discriminate|].
  destruct (record_entries o) as [es|] eqn:E; [|discriminate]. intros [= <-].
  apply fold_map_set_clean; [reflexivity|].
  intros k fs Hin. apply json_wf_record.
  exact (json_wf_value o k (VObj fs) Hv (record_entries_In o es k fs E Hin)).
Qed.

Lemma prop_json (k : string) (doc v : value) :
  json_wf doc = true -> prop k doc = Some v -> v = VUndef \/ json_wf v = true.
Proof.
  destruct doc; simpl; try discriminate; try (intros _ [= <-]; now left).
  intros H [= <-]. now apply json_get.
Qed.

(** *** The invariant *)

Lemma clean_store_intro (m a n : jsmap) :
  clean_map m = true -> clean_map a = true -> clean_map n = true ->
  clean_store {| models := m; agents := a; networks := n |} = true.
Proof. intros Hm Ha Hn. unfold clean_store. simpl. now rewrite Hm, Ha, Hn. Qed.

Lemma clean_store_elim (r : registry) :
  clean_store r = true ->
  clean_map (models r) = true /\ clean_map (agents r) = true
  /\ clean_map (networks r) = true.
Proof. unfold clean_store. rewrite !andb_true_iff. tauto. Qed.

Lemma step_clean (r r' : registry) :
  step r r' -> clean_store r = true -> clean_store r' = true.
Proof.
  intros Hs Hc. destruct (clean_store_elim r Hc) as [Hm [Ha Hn]].
  destruct Hs as [d uuid ts r r' e Hd He | d uuid ts r r' e Hd He
                 | id body now r Hb | id status now r Hst | id r
                 | file r r' Hf Hl].
  - unfold registerModel in He.
    injection He as <- <-. apply clean_store_intro; try assumption.
    apply map_set_clean; [exact Hm | now apply modelEntry_clean].
  - unfold registerAgent in He.
    injection He as <- <-. apply clean_store_intro; try assumption.
    apply map_set_clean; [exact Ha | now apply agentEntry_clean].
  - unfold put_model. destruct (map_get id (models r)) as [m|] eqn:E; [|exact Hc].
    apply clean_store_intro; try assumption.
    apply map_set_clean; [exact Hm|].
    apply obj_set_clean; [|reflexivity].
    apply spread_clean.
    + apply spread_clean; [reflexivity|].
      apply clean_record_fields. exact (clean_map_lookup _ _ _ Hm E).
    + apply clean_record_fields. now apply json_wf_record.
  - unfold updateModelStatus.
    destruct (map_get id (models r)) as [m|] eqn:E; [|exact Hc].
    apply clean_store_intro; try assumption.
    apply map_replace_clean; [exact Hm|].
    apply obj_set_clean; [|now destruct status].
    apply obj_set_clean; [|reflexivity]. exact (clean_map_lookup _ _ _ Hm E).
  - unfold removeModel. destruct (map_get id (models r)); [|exact Hc].
    apply clean_store_intro; try assumption. now apply map_delete_clean.
  - unfold loadData in Hl. destruct file as [doc|]; [|now injection Hl as <-].
    destruct (prop "models" doc) as [pm|] eqn:Em; [|now injection Hl as <-].
    destruct (prop "agents" doc) as [pa|] eqn:Ea; [|now injection Hl as <-].
    destruct (prop "networks" doc) as [pn|] eqn:En; [|now injection Hl as <-].
    destruct (load_map pm (models r)) as [m'|] eqn:Lm; [|discriminate].
    destruct (load_map pa (agents r)) as [a'|] eqn:La; [|discriminate].
    destruct (load_map pn (networks r)) as [n'|] eqn:Ln; [|discriminate].
    injection Hl as <-. apply clean_store_intro.
    + exact (load_map_clean pm _ _ (prop_json _ _ _ Hf Em) Hm Lm).
    + exact (load_map_clean pa _ _ (prop_json _ _ _ Hf Ea) Ha La).
    + exact (load_map_clean pn _ _ (prop_json _ _ _ Hf En) Hn Ln).
Qed.

(** Every registry the server can be in satisfies the invariant. *)
Lemma reachable_clean (r : registry) : reachable r -> clean_store r = true.
Proof.
  induction 1 as [|r r' _ IH Hs]; [reflexivity|].
  exact (step_clean r r' Hs IH).
Qed.

End InvariantFacts.

(** ** Registering twice, registering and removing *)

Module ReRegisterFacts.
Import JS Registry Server Spec Examples Measures JSFacts RegisterFacts TallyFacts.

(** A key that finds an entry is the same as itself. *)
Lemma map_find_refl (k : value) (old : obj) (m : jsmap) :
  map_find k m = Some old -> strict_eq k k = true.
Proof.
  intros H. apply map_find_In in H as [k0 [_ H]].
  apply (strict_eq_trans k k0 k); [now rewrite strict_eq_sym | exact H].
Qed.

(** The counts of two registries that [getStats] returns for both. *)
Lemma getStats_totals (up up' : Q) (now now' : string) (r r' : registry)
  (s s' : stats) :
  getStats up now r = Some s -> getStats up' now' r' = Some s' ->
  totalModels s = map_size (models r) /\ totalModels s' = map_size (models r').
Proof.
  intros Hs Hs'.
  destruct (getStats_tallied _ _ _ _ Hs) as [HT HP].
  destruct (getStats_tallied _ _ _ _ Hs') as [HT' HP'].
  destruct (getStats_returns up now r HT HP) as [s0 [E0 [T0 _]]].
  destruct (getStats_returns up' now' r' HT' HP') as [s1 [E1 [T1 _]]].
  rewrite Hs in E0. injection E0 as <-. rewrite Hs' in E1. injection E1 as <-.
  unfold map_size, map_values in *. rewrite length_map in T0, T1. now split.
Qed.

(** X1.  Registering under an id that the store already holds, whatever
    kind of value the id is, replaces the record in place: the ids and their
    enumeration order stay, the records under the other ids stay, the number
    of models stays, also as [getStats] reports it whenever it returns, and
    agents and networks are not touched. *)
Theorem registerModel_overwrites
  (modelData : obj) (uuid timestamp : string) (r : registry) (old : obj)
  (up : Q) (now : string) :
  map_find (js_or (obj_get "id" modelData) (VStr uuid)) (models r) = Some old ->
  exists r' entry,
    registerModel modelData uuid timestamp r = Some (r', entry)
    /\ map_keys (models r') = map_keys (models r)
    /\ map_find (js_or (obj_get "id" modelData) (VStr uuid)) (models r') = Some entry
    /\ (forall q,
        strict_eq (js_or (obj_get "id" modelData) (VStr uuid)) q = false ->
        map_find q (models r') = map_find q (models r))
    /\ map_size (models r') = map_size (models r)
    /\ (forall s s',
        getStats up now r = Some s -> getStats up now r' = Some s' ->
        totalModels s' = totalModels s)
    /\ agents r' = agents r /\ networks r' = networks r.
Proof.
  intros Hold. set (k := js_or (obj_get "id" modelData) (VStr uuid)) in *.
  pose proof (map_find_refl k old _ Hold) as Hkk.
  eexists. eexists. split; [reflexivity|]. fold k.
  cbn [models agents networks with_models].
  assert (map_set k (modelEntry modelData k timestamp) (models r)
          = map_update k (modelEntry modelData k timestamp) (models r)) as E
    by (unfold map_set, map_has; now rewrite Hold).
  assert (map_size (map_set k (modelEntry modelData k timestamp) (models r))
          = map_size (models r)) as Hsize
    by (rewrite E; unfold map_size; apply map_update_length).
  split; [rewrite E; apply map_update_keys|].
  split; [now rewrite (map_find_set _ _ _ _ Hkk), Hkk|].
  split; [intros q Hq; now rewrite (map_find_set _ _ _ _ Hkk), Hq|].
  split; [exact Hsize|].
  split; [|now split].
  intros s s' Hs Hs'.
  destruct (getStats_totals _ _ _ _ _ _ _ _ Hs Hs') as [T T'].
  cbn [models with_models] in T'. now rewrite T, T', Hsize.
Qed.

Lemma registerModel_overwrites_witness :
  map_find (js_or (obj_get "id" [("id", VStr "id-1"); ("name", VStr "gpt-4-turbo")])
              (VStr "u")) (models two_models) = Some gpt4
  /\ exists r' entry,
       registerModel [("id", VStr "id-1"); ("name", VStr "gpt-4-turbo")] "u" "t"
         two_models = Some (r', entry)
       /\ map_keys (models r') = map_keys (models two_models)
       /\ map_get "id-1" (models r') = Some entry
       /\ map_size (models r') = map_size (models two_models)
       /\ agents r' = agents two_models /\ networks r' = networks two_models.
Proof.
  split; [reflexivity|].
  destruct (registerModel_overwrites
              [("id", VStr "id-1"); ("name", VStr "gpt-4-turbo")] "u" "t" two_models
              gpt4 1 "n" eq_refl) as [r' [entry [H1 [H2 [H3 [_ [H5 [_ H7]]]]]]]].
  exists r', entry. repeat split; try assumption; apply H7.
Defined.

(** X2.  Registering under an id that the store does not hold, whatever kind
    of value the id is, puts the record last in the enumeration order and
    raises the number of models by one, also as [getStats] reports it
    whenever it returns.  When the id is a string, [GET /api/models/:id]
    returns the record, and removing the id gives back the registry as it
    was, with the answer [true] when the log line can print the name.  When
    the id is not a string, no request path names the record: the [GET]
    route answers for every id as it did before. *)
Theorem registerModel_appends
  (modelData : obj) (uuid timestamp : string) (r : registry)
  (up : Q) (now : string) :
  map_find (js_or (obj_get "id" modelData) (VStr uuid)) (models r) = None ->
  exists r' entry,
    registerModel modelData uuid timestamp r = Some (r', entry)
    /\ models r' = models r ++ [(js_or (obj_get "id" modelData) (VStr uuid), entry)]
    /\ map_size (models r') = S (map_size (models r))
    /\ (forall s s',
        getStats up now r = Some s -> getStats up now r' = Some s' ->
        totalModels s' = S (totalModels s))
    /\ (forall id,
        js_or (obj_get "id" modelData) (VStr uuid) = VStr id ->
        get_model id r' = (200%nat, VObj [("model", VObj entry)])
        /\ fst (removeModel id r') = r
        /\ (forall name,
            to_string (obj_get "name" modelData) = Some name ->
            removeModel id r' = (r, Some true)))
    /\ (is_str (js_or (obj_get "id" modelData) (VStr uuid)) = false ->
        forall id, get_model id r' = get_model id r).
Proof.
  intros Hnew. set (k := js_or (obj_get "id" modelData) (VStr uuid)) in *.
  set (entry := modelEntry modelData k timestamp).
  exists (with_models (models r ++ [(k, entry)]) r), entry.
  split.
  { unfold registerModel. fold k. fold entry.
    now rewrite (map_set_absent _ _ _ Hnew). }
  split; [reflexivity|]. split.
  { cbn [models with_models]. unfold map_size. rewrite length_app. simpl. lia. }
  split.
  { intros s s' Hs Hs'.
    destruct (getStats_totals _ _ _ _ _ _ _ _ Hs Hs') as [T T'].
    rewrite T, T'. cbn [models with_models]. unfold map_size.
    rewrite length_app. simpl. lia. }
  split.
  - intros id Hid.
    assert (map_get id (models r) = None) as Hnone
      by (unfold map_get; now rewrite <- Hid).
    assert (map_get id (models r ++ [(k, entry)]) = Some entry) as Hget.
    { unfold map_get in *. rewrite map_find_app, Hnone, Hid. simpl.
      now rewrite String.eqb_refl. }
    assert (with_models (map_delete id (models r ++ [(k, entry)])) r = r) as Hback.
    { rewrite Hid, (map_delete_last _ _ _ Hnone). now destruct r. }
    split.
    { unfold get_model. cbn [models with_models]. now rewrite Hget. }
    split.
    { unfold removeModel. cbn [models with_models]. rewrite Hget. cbn [fst].
      unfold with_models in *. cbn [agents networks] in *. exact Hback. }
    intros name Hname. unfold removeModel. cbn [models with_models].
    rewrite Hget.
    change (obj_get "name" entry) with (obj_get "name" modelData).
    rewrite Hname. f_equal.
    unfold with_models in *. cbn [agents networks] in *. exact Hback.
  - intros Hk id. unfold get_model. cbn [models with_models].
    assert (map_get id (models r ++ [(k, entry)]) = map_get id (models r)) as ->;
      [|reflexivity].
    unfold map_get. rewrite map_find_app. simpl.
    destruct (strict_eq k (VStr id)) eqn:E.
    + apply strict_eq_str in E. rewrite E in Hk. discriminate.
    + now destruct (map_find (VStr id) (models r)).
Qed.

Lemma registerModel_appends_witness :
  map_find (js_or (obj_get "id" [("name", VStr "mistral")]) (VStr "id-3"))
    (models two_models) = None
  /\ js_or (obj_get "id" [("name", VStr "mistral")]) (VStr "id-3") = VStr "id-3"
  /\ to_string (obj_get "name" [("name", VStr "mistral")]) = Some "mistral"
  /\ exists r' entry,
       registerModel [("name", VStr "mistral")] "id-3" "t" two_models
       = Some (r', entry)
       /\ models r' = models two_models ++ [(VStr "id-3", entry)]
       /\ map_size (models r') = S (map_size (models two_models))
       /\ get_model "id-3" r' = (200%nat, VObj [("model", VObj entry)])
       /\ removeModel "id-3" r' = (two_models, Some true).
Proof.
  split; [reflexivity|]. split; [reflexivity|]. split; [reflexivity|].
  destruct (registerModel_appends [("name", VStr "mistral")] "id-3" "t" two_models
              1 "n" eq_refl) as [r' [entry [H1 [H2 [H3 [_ [H5 _]]]]]]].
  destruct (H5 "id-3" eq_refl) as [G [_ R]].
  exists r', entry. split; [exact H1|]. split; [exact H2|]. split; [exact H3|].
  split; [exact G | exact (R "mistral" eq_refl)].
Defined.




End ReRegisterFacts.

(** ** Statistics *)

Module StatsFacts.
Import JS Registry Server Spec Examples Measures JSFacts TallyFacts.

(** X4.  [getStats] throws when the type or the provider of some record is
    an object with a [toString] property, and returns when every type and
    provider can be counted.  Whenever it returns, [totalModels] counts
    every record of the models map once and [activeModels] those whose
    status is ['active'], which therefore never exceeds [totalModels];
    [totalAgents] is the size of the agents map, and [uptime] and
    [lastUpdated] are the clock readings. *)
Theorem getStats_counts (up : Q) (now : string) (r : registry) :
  (forall m o,
     In m (map_values (models r)) ->
     obj_get "type" m = VObj o \/ obj_get "provider" m = VObj o ->
     obj_has "toString" o = true ->
     getStats up now r = None)
  /\ (forallb (tallied "type") (map_values (models r)) = true ->
      forallb (tallied "provider") (map_values (models r)) = true ->
      exists s, getStats up now r = Some s)
  /\ forall s,
       getStats up now r = Some s ->
       totalModels s = List.length (map_values (models r))
       /\ activeModels s = List.length (filter is_active (map_values (models r)))
       /\ (activeModels s <= totalModels s)%nat
       /\ totalAgents s = List.length (agents r)
       /\ uptime s = up
       /\ lastUpdated s = now.
Proof.
  split; [|split].
  - intros m o Hin Ho Hts.
    destruct (getStats up now r) as [s|] eqn:Hs; [|reflexivity]. exfalso.
    destruct (getStats_tallied _ _ _ _ Hs) as [HT HP].
    rewrite forallb_forall in HT, HP. specialize (HT m Hin). specialize (HP m Hin).
    unfold tallied in HT, HP.
    destruct Ho as [Ho|Ho]; [rewrite Ho in HT | rewrite Ho in HP];
      cbn [to_string] in *; rewrite Hts in *; discriminate.
  - intros HT HP. destruct (getStats_returns up now r HT HP) as [s [Hs _]].
    now exists s.
  - intros s Hs. destruct (getStats_tallied _ _ _ _ Hs) as [HT HP].
    destruct (getStats_returns up now r HT HP)
      as [s0 [E0 [H1 [H2 [H3 [H4 [H5 _]]]]]]].
    rewrite Hs in E0. injection E0 as <-.
    split; [exact H1|]. split; [exact H2|]. split.
    { rewrite H1, H2. apply filter_length_le. }
    split; [exact H3|]. now split.
Qed.

Lemma getStats_counts_witness :
  exists s,
    getStats 1 "n" two_models = Some s
    /\ totalModels s = 2%nat /\ activeModels s = 2%nat
    /\ totalAgents s = 0%nat.
Proof.
  eexists. split; [reflexivity|].
  destruct (proj2 (proj2 (getStats_counts 1 "n" two_models)) _ eq_refl)
    as [H1 [H2 [_ [H4 _]]]].
  split; [exact H1|]. split; [exact H2 | exact H4].
Defined.

(** X5.  When the type and the provider of every record can be counted (a
    string, [undefined], [null], a boolean, an integer, or an object without
    an own [toString], and as a property key not a name that every object
    inherits), the two tallies of [getStats] hold, under each key, the number
    of records with that type or provider, and no entry for a key that no
    record has. *)
Theorem getStats_tallies (up : Q) (now : string) (r : registry) :
  forallb (tallied "type") (map_values (models r)) = true ->
  forallb (tallied "provider") (map_values (models r)) = true ->
  exists s,
    getStats up now r = Some s
    /\ obj_wf (modelsByType s) = true /\ obj_wf (modelsByProvider s) = true
    /\ (forall k,
        assoc k (modelsByType s)
        = shown (List.length (filter (keyed "type" k) (map_values (models r)))))
    /\ (forall k,
        assoc k (modelsByProvider s)
        = shown (List.length (filter (keyed "provider" k) (map_values (models r))))).
Proof.
  intros HT HP.
  destruct (getStats_returns up now r HT HP)
    as [s [Hs [_ [_ [_ [_ [_ [W1 [W2 [T1 T2]]]]]]]]]].
  exists s. split; [exact Hs|]. split; [exact W1|]. split; [exact W2|].
  split; [exact T1 | exact T2].
Qed.

Lemma getStats_tallies_witness :
  forallb (tallied "type") (map_values (models two_models)) = true
  /\ forallb (tallied "provider") (map_values (models two_models)) = true
  /\ exists s,
       getStats 1 "n" two_models = Some s
       /\ obj_wf (modelsByType s) = true /\ obj_wf (modelsByProvider s) = true
       /\ (forall k,
           assoc k (modelsByType s)
           = shown (List.length
                      (filter (keyed "type" k) (map_values (models two_models)))))
       /\ (forall k,
           assoc k (modelsByProvider s)
           = shown (List.length
                      (filter (keyed "provider" k) (map_values (models two_models))))).
Proof.
  split; [reflexivity|]. split; [reflexivity|].
  apply (getStats_tallies 1 "n" two_models); reflexivity.
Defined.

End StatsFacts.

(** ** Heartbeats and updates *)

Module UpdateFacts.
Import JS Registry Server Spec Examples Measures JSFacts SnapshotFacts
  TimestampFacts ReRegisterFacts.






End UpdateFacts.

(** ** Loading *)

Module LoadFacts.
Import JS Registry Server Spec Examples Measures JSFacts SnapshotFacts
  InvariantFacts TallyFacts.

Lemma load_map_falsy (v : value) (old : jsmap) :
  truthy v = false -> load_map v old = Some old.
Proof. intros H. unfold load_map. now rewrite H. Qed.

Lemma record_entries_assoc (ms : obj) :
  forall es,
    record_entries ms = Some es ->
    map fst es = map fst ms
    /\ ms = map (fun kv => (fst kv, VObj (snd kv))) es.
Proof.
  induction ms as [|[k0 v0] rest IH]; intros es; simpl.
  - intros [= <-]. now split.
  - destruct v0; try discriminate.
    destruct (record_entries rest) as [es'|]; [|discriminate].
    intros [= <-]. destruct (IH es' eq_refl) as [K A]. simpl.
    split; [now rewrite K | now rewrite <- A].
Qed.

(** Entries with distinct names become the entries of the map, in their
    order. *)
Lemma fold_set_fresh (es : list (string * obj)) :
  forall base,
    distinct (map fst es) = true ->
    (forall k, In k (map fst es) -> map_get k base = None) ->
    fold_left (fun m kv => map_set (VStr (fst kv)) (snd kv) m) es base
    = base ++ map (fun kv => (VStr (fst kv), snd kv)) es.
Proof.
  induction es as [|[k v] rest IH]; intros base Hd Hb; simpl.
  - now rewrite app_nil_r.
  - simpl in Hd. apply andb_true_iff in Hd as [Hk Hr]. apply negb_true_iff in Hk.
    rewrite (map_set_absent (VStr k) v base (Hb k (or_introl eq_refl))).
    rewrite IH; [now rewrite <- app_assoc | exact Hr |].
    intros k' Hin. unfold map_get. rewrite map_find_app.
    fold (map_get k' base). rewrite (Hb k' (or_intror Hin)). simpl.
    destruct (String.eqb_spec k k') as [->|Hne]; [|reflexivity].
    apply existsb_eqb_In in Hin. congruence.
Qed.

Lemma map_of_entries_distinct (es : list (string * obj)) :
  distinct (map fst es) = true ->
  map_of_entries es = map (fun kv => (VStr (fst kv), snd kv)) es.
Proof.
  intros Hd. unfold map_of_entries. now rewrite (fold_set_fresh es [] Hd).
Qed.

(** X8.  [loadData] leaves the registry as it is when the data file is
    missing or unparsable, when it holds [null], and when the document has
    none of the three maps.  A [models] object of the document replaces the
    models of the registry wholesale: the loaded map holds the entries of
    the object, in its order and under its names, and nothing of what the
    registry held before, while a map that the document does not have stays.
    A [models] entry that is a nonzero number empties the map. *)
Theorem loadData_edges (r : registry) (empty doc counted ms : obj)
  (es : list (string * obj)) (q : Q) :
  truthy (obj_get "models" empty) = false ->
  truthy (obj_get "agents" empty) = false ->
  truthy (obj_get "networks" empty) = false ->
  obj_get "models" doc = VObj ms ->
  obj_wf ms = true -> record_entries ms = Some es ->
  truthy (obj_get "agents" doc) = false ->
  truthy (obj_get "networks" doc) = false ->
  obj_get "models" counted = VNum q -> ~ q == 0 ->
  truthy (obj_get "agents" counted) = false ->
  truthy (obj_get "networks" counted) = false ->
  loadData None r = Some r
  /\ loadData (Some VNull) r = Some r
  /\ loadData (Some (VObj empty)) r = Some r
  /\ loadData (Some (VObj doc)) r
     = Some (with_models (map (fun kv => (VStr (fst kv), snd kv)) es) r)
  /\ ms = map (fun kv => (fst kv, VObj (snd kv))) es
  /\ loadData (Some (VObj counted)) r = Some (with_models [] r).
Proof.
  intros Hm Ha Hn Hd Hw He Hda Hdn Hc Hq Hca Hcn.
  split; [reflexivity|]. split; [reflexivity|]. split.
  { unfold loadData. cbn [prop].
    rewrite (load_map_falsy _ _ Hm), (load_map_falsy _ _ Ha), (load_map_falsy _ _ Hn).
    now destruct r. }
  destruct (record_entries_assoc ms es He) as [K A].
  split.
  { unfold loadData. cbn [prop].
    rewrite (load_map_falsy _ _ Hda), (load_map_falsy _ _ Hdn), Hd.
    unfold load_map. cbn [truthy]. rewrite He.
    rewrite map_of_entries_distinct; [reflexivity|].
    rewrite K. exact Hw. }
  split; [exact A|].
  unfold loadData. cbn [prop].
  rewrite (load_map_falsy _ _ Hca), (load_map_falsy _ _ Hcn), Hc.
  unfold load_map. cbn [truthy].
  destruct (Qeq_bool q 0) eqn:E; [|reflexivity].
  apply Qeq_bool_iff in E. contradiction.
Qed.

Lemma loadData_edges_witness :
  loadData None two_models = Some two_models
  /\ loadData (Some VNull) two_models = Some two_models
  /\ loadData (Some (VObj [("lastUpdated", VStr "t")])) two_models = Some two_models
  /\ loadData (Some (VObj [("models", VObj [("id-7", VObj [("name", VStr "x")])])]))
       two_models
     = Some (with_models [(VStr "id-7", [("name", VStr "x")])] two_models)
  /\ loadData (Some (VObj [("models", VNum 5)])) two_models
     = Some (with_models [] two_models).
Proof.
  destruct (loadData_edges two_models [("lastUpdated", VStr "t")]
              [("models", VObj [("id-7", VObj [("name", VStr "x")])])]
              [("models", VNum 5)]
              [("id-7", VObj [("name", VStr "x")])]
              [("id-7", [("name", VStr "x")])] 5
              eq_refl eq_refl eq_refl eq_refl eq_refl eq_refl eq_refl eq_refl
              eq_refl ltac:(discriminate) eq_refl eq_refl)
    as [H1 [H2 [H3 [H4 [_ H6]]]]].
  split; [exact H1|]. split; [exact H2|]. split; [exact H3|].
  split; [exact H4 | exact H6].
Defined.

(** *** Counts after a reload *)

Lemma same_keys_perm (es es' : list (string * obj)) (f : obj -> obj) :
  distinct (map fst es) = true -> distinct (map fst es') = true ->
  (forall id, assoc id es' = option_map f (assoc id es)) ->
  Permutation (map fst es) (map fst es').
Proof.
  rewrite !distinct_NoDup. intros Hm Hm' H.
  apply NoDup_Permutation; try assumption.
  intros k. split; intros Hin.
  - destruct (assoc k es') eqn:E.
    + apply assoc_In in E. exact (in_map fst _ _ E).
    + exfalso. rewrite H in E. destruct (assoc k es) eqn:E'; [discriminate|].
      apply assoc_None_keys in E'. contradiction.
  - destruct (assoc k es) eqn:E.
    + apply assoc_In in E. exact (in_map fst _ _ E).
    + exfalso. specialize (H k). rewrite E in H. simpl in H.
      apply assoc_None_keys in H. contradiction.
Qed.

Lemma filter_length_perm {A : Type} (p : A -> bool) (l l' : list A) :
  Permutation l l' -> List.length (filter p l) = List.length (filter p l').
Proof.
  induction 1 as [| x l l' _ IH | x y l | l l' l'' _ IH1 _ IH2]; simpl.
  - reflexivity.
  - destruct (p x); simpl; now rewrite IH.
  - destruct (p x), (p y); reflexivity.
  - now rewrite IH1.
Qed.

(** The active records of a list of entries, counted through its names. *)
Lemma active_by_keys (es : list (string * obj)) :
  distinct (map fst es) = true ->
  List.length (filter is_active (map snd es))
  = List.length
      (filter (fun k => match assoc k es with Some a => is_active a | None => false end)
         (map fst es)).
Proof.
  induction es as [|[k0 v0] t IH]; simpl; [reflexivity|].
  rewrite andb_true_iff, negb_true_iff. intros [Hk Ht].
  rewrite String.eqb_refl.
  assert (filter (fun k => match (if k0 =? k then Some v0 else assoc k t) with
                           | Some a => is_active a
                           | None => false
                           end) (map fst t)
          = filter (fun k => match assoc k t with
                             | Some a => is_active a
                             | None => false
                             end) (map fst t)) as ->.
  { apply filter_ext_in. intros k Hin.
    destruct (String.eqb_spec k0 k) as [->|Hne]; [|reflexivity].
    apply existsb_eqb_In in Hin. congruence. }
  destruct (is_active v0); simpl; now rewrite (IH Ht).
Qed.

Lemma is_active_json (a : obj) :
  obj_wf a = true -> is_active (json_fields a) = is_active a.
Proof.
  intros H. unfold is_active. rewrite (obj_get_json "status" a H).
  apply strict_eq_to_json.
Qed.

Lemma obj_has_json_fields (k : string) (o : obj) :
  obj_has k o = false -> obj_has k (json_fields o) = false.
Proof.
  unfold obj_has. intros H.
  destruct (assoc k (json_fields o)) eqn:E; [|reflexivity].
  apply assoc_In in E. apply (in_map fst) in E. simpl in E.
  apply (json_fields_keys_incl o k) in E.
  destruct (assoc k o) eqn:E'; [discriminate|].
  apply assoc_None_keys in E'. contradiction.
Qed.

(** A type or provider that can be counted can be counted after a trip
    through JSON. *)
Lemma tallied_json (field : string) (a : obj) :
  obj_wf a = true -> tallied field a = true -> tallied field (json_fields a) = true.
Proof.
  intros Hw. unfold tallied. rewrite (obj_get_json field a Hw).
  destruct (obj_get field a) as [| |b|q|p|s|xs|fs]; try (intros H; exact H).
  - intros _. reflexivity.
  - cbn [to_string]. destruct (obj_has "toString" fs) eqn:E; [discriminate|].
    intros _. rewrite to_json_obj. cbn [to_string].
    now rewrite (obj_has_json_fields _ _ E).
Qed.

Lemma active_after_reload (es es' : list (string * obj)) :
  distinct (map fst es) = true -> distinct (map fst es') = true ->
  (forall k a, In (k, a) es -> obj_wf a = true) ->
  (forall id, assoc id es' = option_map json_fields (assoc id es)) ->
  List.length (filter is_active (map snd es'))
  = List.length (filter is_active (map snd es)).
Proof.
  intros Hwf Hwf' Hrec H.
  rewrite (active_by_keys es Hwf), (active_by_keys es' Hwf').
  rewrite <- (filter_length_perm _ _ _ (same_keys_perm es es' json_fields Hwf Hwf' H)).
  f_equal. apply filter_ext_in. intros k _. rewrite H.
  destruct (assoc k es) as [a|] eqn:E; simpl; [|reflexivity].
  apply is_active_json. apply (Hrec k a). now apply assoc_In.
Qed.

Lemma tallied_after_reload (field : string) (es es' : list (string * obj)) :
  distinct (map fst es') = true ->
  (forall k a, In (k, a) es -> obj_wf a = true) ->
  (forall id, assoc id es' = option_map json_fields (assoc id es)) ->
  forallb (tallied field) (map snd es) = true ->
  forallb (tallied field) (map snd es') = true.
Proof.
  intros Hwf' Hrec H. rewrite !forallb_forall. intros HT x Hx.
  apply in_map_iff in Hx as [[k a'] [<- Hin]]. simpl.
  apply (In_assoc _ _ _ Hwf') in Hin. rewrite H in Hin.
  destruct (assoc k es) as [a|] eqn:E; [|discriminate].
  injection Hin as <-. apply assoc_In in E.
  apply tallied_json; [exact (Hrec k a E)|].
  apply HT. exact (in_map snd _ _ E).
Qed.

(** What the reload of a map of string ids keeps. *)
Lemma reload_counts (m old : jsmap) :
  clean_map m = true -> string_keys m = true ->
  exists m',
    load_map (VObj (written (named m))) old = Some m'
    /\ Permutation (map_keys m) (map_keys m')
    /\ map_size m' = map_size m
    /\ List.length (filter is_active (map_values m'))
       = List.length (filter is_active (map_values m))
    /\ forall field,
       forallb (tallied field) (map_values m) = true ->
       forallb (tallied field) (map_values m') = true.
Proof.
  intros Hc Hs. destruct (clean_map_elim m Hc) as [Hwf Hrec].
  pose proof (named_wf m Hwf) as Hd.
  destruct (load_written (named m) old Hd) as [m' [es' [E [-> [_ A]]]]].
  pose proof (string_keys_map_of_entries es') as Hs'.
  pose proof (map_of_entries_wf es') as Hwf'.
  pose proof (named_wf _ Hwf') as Hd'.
  assert (forall id,
          assoc id (named (map_of_entries es'))
          = option_map json_fields (assoc id (named m))) as A'
    by (intros id; now rewrite <- map_get_named, A).
  assert (forall k a, In (k, a) (named m) -> obj_wf a = true) as Hobj.
  { intros k a Hin. apply (In_assoc _ _ _ Hd) in Hin.
    rewrite <- map_get_named in Hin. apply map_get_In in Hin.
    specialize (Hrec _ _ Hin). unfold clean_record in Hrec.
    now apply andb_true_iff in Hrec as [Hrec _]. }
  pose proof (same_keys_perm _ _ _ Hd Hd' A') as P.
  exists (map_of_entries es'). split; [exact E|].
  split.
  { rewrite (named_keys m Hs), (named_keys _ Hs'). now apply Permutation_map. }
  split.
  { unfold map_size. rewrite <- (length_map snd), <- (length_map snd m).
    fold (map_values (map_of_entries es')). fold (map_values m).
    rewrite (named_values m Hs), (named_values _ Hs'), !length_map.
    rewrite <- (length_map fst), <- (length_map fst (named m)).
    symmetry. exact (Permutation_length P). }
  split.
  { rewrite (named_values m Hs), (named_values _ Hs').
    now apply active_after_reload. }
  intros field. rewrite (named_values m Hs), (named_values _ Hs').
  now apply tallied_after_reload.
Qed.

(** X9.  For a store of parsed JSON records under string ids on which
    [getStats] returns: after the snapshot of the store is loaded into a
    fresh registry, [getStats] returns again and reports the same
    [totalModels], [activeModels] and [totalAgents] as before the save, and
    the loaded map enumerates the same model ids, possibly in another
    order. *)
Theorem reload_preserves_stats
  (now now1 now2 : string) (up1 up2 : Q) (r : registry) (s : stats) :
  clean_store r = true -> string_ids r = true ->
  getStats up1 now1 r = Some s ->
  exists doc r' s',
    saveData now r = Some doc
    /\ loadData (Some doc) fresh = Some r'
    /\ getStats up2 now2 r' = Some s'
    /\ totalModels s' = totalModels s
    /\ activeModels s' = activeModels s
    /\ totalAgents s' = totalAgents s
    /\ Permutation (map_keys (models r)) (map_keys (models r')).
Proof.
  intros Hc Hs Hstats. destruct (clean_store_elim r Hc) as [Hm [Ha Hn]].
  pose proof Hs as Hs'. unfold string_ids in Hs'. rewrite !andb_true_iff in Hs'.
  destruct Hs' as [[Sm Sa] Sn].
  destruct (reload_counts (models r) [] Hm Sm) as [m' [Em [Pm [Zm [Am Tm]]]]].
  destruct (reload_counts (agents r) [] Ha Sa) as [a' [Ea [_ [Za _]]]].
  destruct (reload_counts (networks r) [] Hn Sn) as [n' [En _]].
  destruct (getStats_tallied _ _ _ _ Hstats) as [HT HP].
  destruct (getStats_returns up1 now1 r HT HP) as [s0 [E0 [T0 [A0 [G0 _]]]]].
  rewrite Hstats in E0. injection E0 as <-.
  destruct (getStats_returns up2 now2 {| models := m'; agents := a'; networks := n' |}
              (Tm _ HT) (Tm _ HP)) as [s' [E' [T' [A' [G' _]]]]].
  eexists. exists {| models := m'; agents := a'; networks := n' |}, s'.
  split; [apply (saveData_shape now r Hs)|]. split.
  { unfold loadData.
    change (prop "models" _) with (Some (VObj (written (named (models r))))).
    change (prop "agents" _) with (Some (VObj (written (named (agents r))))).
    change (prop "networks" _) with (Some (VObj (written (named (networks r))))).
    cbn [models agents networks fresh]. now rewrite Em, Ea, En. }
  split; [exact E'|]. cbn [models agents] in *.
  split.
  { rewrite T', T0. unfold map_values. rewrite !length_map. exact Zm. }
  split; [now rewrite A', A0|]. split; [now rewrite G', G0 | exact Pm].
Qed.

Lemma reload_preserves_stats_witness :
  clean_store populated = true
  /\ string_ids populated = true
  /\ exists s doc r' s',
       getStats 1 "a" populated = Some s
       /\ saveData "2024-01-01T00:00:30.000Z" populated = Some doc
       /\ loadData (Some doc) fresh = Some r'
       /\ getStats 2 "b" r' = Some s'
       /\ totalModels s' = totalModels s
       /\ activeModels s' = activeModels s
       /\ totalAgents s' = totalAgents s
       /\ Permutation (map_keys (models populated)) (map_keys (models r')).
Proof.
  split; [reflexivity|]. split; [reflexivity|].
  eexists.
  destruct (reload_preserves_stats "2024-01-01T00:00:30.000Z" "a" "b" 1 2 populated
              _ eq_refl eq_refl eq_refl) as [doc [r' [s' H]]].
  exists doc, r', s'. split; [reflexivity | exact H].
Defined.

End LoadFacts.

(** ** What a caller of [findModels] can rely on *)

Module RankFacts.
Import JS Registry Server Spec Examples Measures JSFacts MatchFacts SortFacts
  RemoveFacts TallyFacts InvariantFacts.

Lemma selected_in_result (c : obj) (r : registry) (l : list obj) (m : obj) :
  typed_criteria c = true -> typed_store r = true ->
  Permutation (filter (selected c) (map_values (models r))) l ->
  (In m l <-> In m (map_values (models r)) /\ satisfies truthy c m).
Proof.
  intros Hc Hr Hp.
  assert (forall x, In x (map_values (models r)) ->
          (selected c x = true <-> satisfies truthy c x)) as Hsel.
  { intros x Hx. apply selected_spec; [exact Hc|].
    unfold typed_store in Hr. rewrite forallb_forall in Hr. now apply Hr. }
  split.
  - intros H. apply (Permutation_in _ (Permutation_sym Hp)) in H.
    apply filter_In in H as [H1 H2]. split; [exact H1 | now apply Hsel].
  - intros [H1 H2]. apply (Permutation_in _ Hp). apply filter_In.
    split; [exact H1 | now apply Hsel].
Qed.

(** X10.  On typed input the first record that [findModels] returns is a
    record of the store that meets the criteria and is ranked before every
    other record that meets them: none is more reliable, and none equally
    reliable has a smaller effective latency.  The result is empty exactly
    when no record meets the criteria. *)
Theorem findModels_best_first (c : obj) (r : registry) :
  typed_criteria c = true -> typed_store r = true ->
  exists l,
    findModels c r = Some l
    /\ (l = [] <->
        forall m, In m (map_values (models r)) -> ~ satisfies truthy c m)
    /\ forall a rest, l = a :: rest ->
       In a (map_values (models r))
       /\ satisfies truthy c a
       /\ forall m, In m (map_values (models r)) -> satisfies truthy c m ->
          ranked_before a m.
Proof.
  intros Hc Hr. destruct (findModels_typed c r Hc Hr) as [l [Hl [Hp [Hs _]]]].
  pose proof (fun m => selected_in_result c r l m Hc Hr Hp) as Hin.
  exists l. split; [exact Hl|]. split.
  - split.
    + intros -> m H1 H2. exact (proj2 (Hin m) (conj H1 H2)).
    + intros Hnone. destruct l as [|a rest]; [reflexivity|].
      exfalso. destruct (proj1 (Hin a) (or_introl eq_refl)) as [H1 H2].
      exact (Hnone a H1 H2).
  - intros a rest ->.
    destruct (proj1 (Hin a) (or_introl eq_refl)) as [H1 H2].
    split; [exact H1|]. split; [exact H2|].
    intros m Hm Hsat. destruct (proj2 (Hin m) (conj Hm Hsat)) as [<-|Hrest].
    + destruct (ranked_before_total a a); assumption.
    + inversion Hs as [|? ? _ Hall]; subst. rewrite Forall_forall in Hall.
      now apply Hall.
Qed.

Lemma findModels_best_first_witness :
  typed_criteria [("type", VStr "llm")] = true
  /\ typed_store two_models = true
  /\ exists l,
       findModels [("type", VStr "llm")] two_models = Some l
       /\ (l = [] <->
           forall m, In m (map_values (models two_models)) ->
                     ~ satisfies truthy [("type", VStr "llm")] m)
       /\ forall a rest, l = a :: rest ->
          In a (map_values (models two_models))
          /\ satisfies truthy [("type", VStr "llm")] a
          /\ forall m, In m (map_values (models two_models)) ->
             satisfies truthy [("type", VStr "llm")] m -> ranked_before a m.
Proof.
  split; [reflexivity|]. split; [reflexivity|].
  apply (findModels_best_first [("type", VStr "llm")] two_models); reflexivity.
Defined.

Lemma incl_length_filter {A : Type} (p : A -> bool) (l : list A) :
  (List.length (filter p l) <= List.length l)%nat.
Proof. apply filter_length_le. Qed.

(** X11.  On a typed store [findModels({})] returns every record of the store
    once, so as many records as the models map holds, which is the
    [totalModels] of [getStats] whenever that returns; for any typed criteria
    the result holds only records of that list and is not longer. *)
Theorem findModels_all (c : obj) (r : registry) (up : Q) (now : string) :
  typed_criteria c = true -> typed_store r = true ->
  exists everything l,
    findModels [] r = Some everything
    /\ Permutation (map_values (models r)) everything
    /\ List.length everything = map_size (models r)
    /\ (forall s, getStats up now r = Some s ->
        totalModels s = List.length everything)
    /\ findModels c r = Some l
    /\ incl l everything
    /\ (List.length l <= List.length everything)%nat.
Proof.
  intros Hc Hr.
  destruct (findModels_typed [] r eq_refl Hr) as [e [He [Hpe _]]].
  rewrite filter_selected_all in Hpe.
  destruct (findModels_typed c r Hc Hr) as [l [Hl [Hpl _]]].
  exists e, l. split; [exact He|]. split; [exact Hpe|]. split.
  { rewrite <- (Permutation_length Hpe). unfold map_values, map_size.
    apply length_map. }
  split.
  { intros s Hs. destruct (getStats_tallied _ _ _ _ Hs) as [HT HP].
    destruct (getStats_returns up now r HT HP) as [s0 [E0 [T0 _]]].
    rewrite Hs in E0. injection E0 as <-.
    rewrite T0. apply (Permutation_length Hpe). }
  split; [exact Hl|]. split.
  - intros x Hx. apply (Permutation_in _ Hpe).
    apply (Permutation_in _ (Permutation_sym Hpl)) in Hx.
    now apply filter_In in Hx as [Hx _].
  - rewrite <- (Permutation_length Hpl), <- (Permutation_length Hpe).
    apply incl_length_filter.
Qed.

Lemma findModels_all_witness :
  typed_criteria [("provider", VStr "ollama")] = true
  /\ typed_store two_models = true
  /\ exists everything l,
       findModels [] two_models = Some everything
       /\ Permutation (map_values (models two_models)) everything
       /\ List.length everything = map_size (models two_models)
       /\ (forall s, getStats 1 "n" two_models = Some s ->
           totalModels s = List.length everything)
       /\ findModels [("provider", VStr "ollama")] two_models = Some l
       /\ incl l everything
       /\ (List.length l <= List.length everything)%nat.
Proof.
  split; [reflexivity|]. split; [reflexivity|].
  apply (findModels_all [("provider", VStr "ollama")] two_models 1 "n"); reflexivity.
Defined.

Lemma clean_record_reads (m : obj) :
  clean_record m = true ->
  obj_wf m = true
  /\ forall f, obj_get f m = VUndef \/ no_undef (obj_get f m) = true.
Proof.
  unfold clean_record. rewrite andb_true_iff. intros [Hwf Hf].
  split; [exact Hwf|]. intros f. unfold obj_get.
  destruct (assoc f m) as [v|] eqn:E; [|now left].
  apply assoc_In in E. rewrite forallb_forall in Hf. specialize (Hf _ E).
  simpl in Hf. destruct v; try (now left); right; exact Hf.
Qed.

(** X12.  Whatever sequence of registrations, updates, heartbeats, removals
    and loads the server runs on parsed JSON, each of its three maps holds
    every id once, every record holds every field name once, and no record
    holds [undefined] below its top level: the records that a route reaches
    through a string id, and every other record of the models and agents
    maps as well. *)
Theorem reachable_unique_ids (r : registry) :
  reachable r ->
  map_wf (models r) = true /\ map_wf (agents r) = true
  /\ map_wf (networks r) = true
  /\ (forall id m,
       map_get id (models r) = Some m \/ map_get id (agents r) = Some m ->
       obj_wf m = true
       /\ forall f, obj_get f m = VUndef \/ no_undef (obj_get f m) = true)
  /\ forall m,
       In m (map_values (models r)) \/ In m (map_values (agents r)) ->
       obj_wf m = true
       /\ forall f, obj_get f m = VUndef \/ no_undef (obj_get f m) = true.
Proof.
  intros Hr. pose proof (reachable_clean r Hr) as Hc.
  destruct (clean_store_elim r Hc) as [Hm [Ha Hn]].
  destruct (clean_map_elim _ Hm) as [Wm Rm].
  destruct (clean_map_elim _ Ha) as [Wa Ra].
  destruct (clean_map_elim _ Hn) as [Wn _].
  split; [exact Wm|]. split; [exact Wa|]. split; [exact Wn|]. split.
  - intros id m Hget. apply clean_record_reads.
    destruct Hget as [E|E]; apply map_get_In in E;
      [exact (Rm _ _ E) | exact (Ra _ _ E)].
  - intros m Hin. apply clean_record_reads.
    destruct Hin as [E|E]; unfold map_values in E;
      apply in_map_iff in E as [[k m'] [<- E]];
      [exact (Rm _ _ E) | exact (Ra _ _ E)].
Qed.

Lemma reachable_unique_ids_witness :
  reachable two_models
  /\ map_wf (models two_models) = true /\ map_wf (agents two_models) = true
  /\ map_wf (networks two_models) = true
  /\ (forall id m,
       map_get id (models two_models) = Some m
       \/ map_get id (agents two_models) = Some m ->
       obj_wf m = true
       /\ forall f, obj_get f m = VUndef \/ no_undef (obj_get f m) = true)
  /\ forall m,
       In m (map_values (models two_models))
       \/ In m (map_values (agents two_models)) ->
       obj_wf m = true
       /\ forall f, obj_get f m = VUndef \/ no_undef (obj_get f m) = true.
Proof.
  assert (reachable two_models) as H.
  { apply (reachable_step
             (after_register gpt4_input "id-1" "2024-01-01T00:00:00.000Z" fresh)).
    - apply (reachable_step fresh); [apply reachable_fresh|].
      apply (step_registerModel gpt4_input "id-1" "2024-01-01T00:00:00.000Z" fresh _
               gpt4); reflexivity.
    - apply (step_registerModel llama2_input "id-2" "2024-01-01T00:00:01.000Z" _ _
               llama2); reflexivity. }
  split; [exact H|]. exact (reachable_unique_ids two_models H).
Defined.

End RankFacts.

(** ** The model client against the registry *)

Module ClientFacts.
Import JS Registry Server Spec Examples Client Measures JSFacts SnapshotFacts
  DescriptorFacts.

(** The formats as strings. *)
Lemma wire_of_cases (f : value) :
  (f = VStr "openai-compatible" /\ wire_of f = OpenAI)
  \/ (f = VStr "anthropic" /\ wire_of f = Anthropic)
  \/ (f = VStr "ollama" /\ wire_of f = Ollama)
  \/ (wire_of f = Other
      /\ strict_eq f (VStr "openai-compatible") = false
      /\ strict_eq f (VStr "anthropic") = false
      /\ strict_eq f (VStr "ollama") = false).
Proof.
  unfold wire_of.
  destruct (strict_eq f (VStr "openai-compatible")) eqn:E1.
  { left. apply strict_eq_str in E1. now subst. }
  destruct (strict_eq f (VStr "anthropic")) eqn:E2.
  { right. left. apply strict_eq_str in E2. now subst. }
  destruct (strict_eq f (VStr "ollama")) eqn:E3.
  { right. right. left. apply strict_eq_str in E3. now subst. }
  right. right. right. repeat split.
Qed.





(** X14.  For each of the three known response formats, the example response
    of the descriptor is one that [ModelClient.parseResponse] reads: parsing
    it yields the greeting text of the template. *)
Theorem parseResponse_example
  (m : obj) (c : modelClient) (created : Z) (now : string) (g : value) :
  prop "responseFormat" (obj_get "communicationSchema" m) = Some g ->
  wire_of g <> Other ->
  mc_schema c = obj_get "communicationSchema" m ->
  exists v,
    generateExampleResponse m created now = Some v
    /\ parseResponse c v = Some greeting.
Proof.
  intros Hg Hw Hc. unfold parseResponse, generateExampleResponse.
  rewrite Hc, Hg.
  destruct (wire_of_cases g) as [[-> W]|[[-> W]|[[-> W]|[W _]]]];
    [| | | contradiction]; rewrite W; eexists; split; reflexivity.
Qed.

Lemma parseResponse_example_witness :
  prop "responseFormat"
    (obj_get "communicationSchema"
       [("name", VStr "n");
        ("communicationSchema", VObj [("responseFormat", VStr "anthropic")])])
  = Some (VStr "anthropic")
  /\ wire_of (VStr "anthropic") <> Other
  /\ exists v,
       generateExampleResponse
         [("name", VStr "n");
          ("communicationSchema", VObj [("responseFormat", VStr "anthropic")])]
         1700000000 "t" = Some v
       /\ parseResponse
            {| mc_communication := VNull; mc_endpoint := VUndef;
               mc_schema := VObj [("responseFormat", VStr "anthropic")];
               mc_name := VStr "n" |} v = Some greeting.
Proof.
  split; [reflexivity|]. split; [discriminate|].
  apply (parseResponse_example
           [("name", VStr "n");
            ("communicationSchema", VObj [("responseFormat", VStr "anthropic")])]
           {| mc_communication := VNull; mc_endpoint := VUndef;
              mc_schema := VObj [("responseFormat", VStr "anthropic")];
              mc_name := VStr "n" |} 1700000000 "t" (VStr "anthropic"));
    [reflexivity | discriminate | reflexivity].
Defined.

Lemma obj_get_spread (k : string) (base options : obj) :
  obj_wf options = true ->
  obj_get k (spread base options) =
  if obj_has k options then obj_get k options else obj_get k base.
Proof.
  unfold obj_wf, obj_keys, obj_get, obj_has. intros Hw.
  rewrite assoc_spread, (assoc_rev k options Hw).
  now destruct (assoc k options).
Qed.

(** X15.  In every format but ['ollama'], [buildRequest] lays the options
    over the request: each option appears in the request under its own name
    and wins over the field the client would have set.  Where the options
    are silent the request names the client's model, carries the prompt as
    the single user message (or as [prompt] in an unknown format), and has
    [max_tokens] equal to [options.maxTokens], or 150 when that is falsy
    (unset or 0, say). *)
Theorem buildRequest_overlay
  (c : modelClient) (prompt : value) (options : obj) (f : value) :
  prop "requestFormat" (mc_schema c) = Some f ->
  wire_of f <> Ollama ->
  obj_wf options = true ->
  exists b,
    buildRequest c prompt options = Some (VObj b)
    /\ obj_wf b = true
    /\ (forall k, obj_has k options = true -> obj_get k b = obj_get k options)
    /\ (wire_of f = Other -> obj_has "prompt" options = false ->
        obj_get "prompt" b = prompt)
    /\ (wire_of f <> Other ->
        (obj_has "model" options = false -> obj_get "model" b = mc_name c)
        /\ (obj_has "messages" options = false ->
            obj_get "messages" b = user_message prompt)
        /\ (obj_has "max_tokens" options = false ->
            obj_get "max_tokens" b = js_or (obj_get "maxTokens" options) (VNum 150))).
Proof.
  intros Hf Hw Ho. unfold buildRequest. rewrite Hf.
  eexists. split; [reflexivity|].
  destruct (wire_of f) eqn:W; try contradiction.
  - split; [now apply spread_wf|]. split.
    { intros k Hk. now rewrite (obj_get_spread k _ _ Ho), Hk. }
    split; [discriminate|]. intros _.
    repeat split; intros H; now rewrite (obj_get_spread _ _ _ Ho), H.
  - split; [now apply spread_wf|]. split.
    { intros k Hk. now rewrite (obj_get_spread k _ _ Ho), Hk. }
    split; [discriminate|]. intros _.
    repeat split; intros H; now rewrite (obj_get_spread _ _ _ Ho), H.
  - split; [now apply spread_wf|]. split.
    { intros k Hk. now rewrite (obj_get_spread k _ _ Ho), Hk. }
    split.
    + intros _ H. now rewrite (obj_get_spread _ _ _ Ho), H.
    + intros H. now destruct H.
Qed.

Lemma buildRequest_overlay_witness :
  prop "requestFormat" (VObj [("requestFormat", VStr "openai-compatible")])
  = Some (VStr "openai-compatible")
  /\ wire_of (VStr "openai-compatible") <> Ollama
  /\ obj_wf [("model", VStr "other"); ("maxTokens", VNum 0)] = true
  /\ exists b,
       buildRequest
         {| mc_communication := VNull; mc_endpoint := VUndef;
            mc_schema := VObj [("requestFormat", VStr "openai-compatible")];
            mc_name := VStr "n" |}
         (VStr "hi") [("model", VStr "other"); ("maxTokens", VNum 0)] = Some (VObj b)
       /\ obj_get "model" b = VStr "other"
       /\ obj_get "messages" b = user_message (VStr "hi")
       /\ obj_get "max_tokens" b = VNum 150.
Proof.
  split; [reflexivity|]. split; [discriminate|]. split; [reflexivity|].
  destruct (buildRequest_overlay
              {| mc_communication := VNull; mc_endpoint := VUndef;
                 mc_schema := VObj [("requestFormat", VStr "openai-compatible")];
                 mc_name := VStr "n" |}
              (VStr "hi") [("model", VStr "other"); ("maxTokens", VNum 0)]
              (VStr "openai-compatible") eq_refl)
    as [b [Hb [_ [Hopt [_ Hdef]]]]]; [discriminate | reflexivity |].
  exists b. split; [exact Hb|]. split; [exact (Hopt "model" eq_refl)|].
  destruct Hdef as [_ [Hmsg Hmax]]; [discriminate|].
  split; [exact (Hmsg eq_refl) | exact (Hmax eq_refl)].
Defined.

(** X16.  In the ['ollama'] format the options cannot change the request
    itself: its fields are exactly [model], [prompt], [stream] and
    [options], with the client's model, the prompt and [stream: false]
    whatever the options say.  The options travel in the nested [options]
    object, where each of them appears under its own name and [temperature]
    is 0.7 when the options do not set it. *)
Theorem buildRequest_ollama
  (c : modelClient) (prompt : value) (options : obj) (f : value) :
  prop "requestFormat" (mc_schema c) = Some f ->
  wire_of f = Ollama ->
  obj_wf options = true ->
  exists nested,
    buildRequest c prompt options =
    Some (VObj [("model", mc_name c); ("prompt", prompt); ("stream", VBool false);
                ("options", VObj nested)])
    /\ obj_wf nested = true
    /\ (forall k, obj_has k options = true -> obj_get k nested = obj_get k options)
    /\ (obj_has "temperature" options = false ->
        obj_get "temperature" nested = VNum (7 # 10))
    /\ (forall k, k <> "temperature" -> obj_has k options = false ->
        obj_get k nested = VUndef).
Proof.
  intros Hf Hw Ho. unfold buildRequest. rewrite Hf, Hw.
  eexists. split; [reflexivity|]. split; [now apply spread_wf|]. split.
  { intros k Hk. now rewrite (obj_get_spread k _ _ Ho), Hk. }
  split.
  - intros H. rewrite (obj_get_spread _ _ _ Ho), H.
    unfold obj_has in H. unfold obj_get at 1. cbn [assoc String.eqb Ascii.eqb Bool.eqb].
    unfold js_or, obj_get. now destruct (assoc "temperature" options).
  - intros k Hne H. rewrite (obj_get_spread _ _ _ Ho), H.
    unfold obj_get. cbn [assoc].
    destruct (String.eqb_spec "temperature" k); [congruence | reflexivity].
Qed.

Lemma buildRequest_ollama_witness :
  prop "requestFormat" (VObj [("requestFormat", VStr "ollama")]) = Some (VStr "ollama")
  /\ wire_of (VStr "ollama") = Ollama
  /\ obj_wf [("model", VStr "other"); ("stream", VBool true)] = true
  /\ exists nested,
       buildRequest
         {| mc_communication := VNull; mc_endpoint := VUndef;
            mc_schema := VObj [("requestFormat", VStr "ollama")];
            mc_name := VStr "llama2" |}
         (VStr "hi") [("model", VStr "other"); ("stream", VBool true)]
       = Some (VObj [("model", VStr "llama2"); ("prompt", VStr "hi");
                     ("stream", VBool false); ("options", VObj nested)])
       /\ obj_get "model" nested = VStr "other"
       /\ obj_get "temperature" nested = VNum (7 # 10).
Proof.
  split; [reflexivity|]. split; [reflexivity|]. split; [reflexivity|].
  destruct (buildRequest_ollama
              {| mc_communication := VNull; mc_endpoint := VUndef;
                 mc_schema := VObj [("requestFormat", VStr "ollama")];
                 mc_name := VStr "llama2" |}
              (VStr "hi") [("model", VStr "other"); ("stream", VBool true)]
              (VStr "ollama") eq_refl eq_refl eq_refl)
    as [nested [Hb [_ [Hopt [Htemp _]]]]].
  exists nested. split; [exact Hb|].
  split; [exact (Hopt "model" eq_refl) | exact (Htemp eq_refl)].
Defined.

Lemma opt_prop_some (k : string) (v : value) : exists x, opt_prop k v = Some x.
Proof. destruct v; simpl; now eexists. Qed.

Lemma opt_index0_some (v : value) :
  is_str v = false -> exists x, opt_index0 v = Some x.
Proof. destruct v; simpl; try discriminate; intros _; now eexists. Qed.

Lemma opt_index0_falsy (v : value) :
  is_str v = false -> truthy v = false -> opt_index0 v = Some VUndef.
Proof. destruct v; simpl; try discriminate; reflexivity. Qed.

Lemma js_or_truthy (a b : value) : truthy b = true -> truthy (js_or a b) = true.
Proof. intros H. unfold js_or. now destruct (truthy a) eqn:E. Qed.

Lemma js_or_falsy (a b : value) : truthy a = false -> js_or a b = b.
Proof. intros H. unfold js_or. now rewrite H. Qed.

(** X17.  For each of the three known response formats and every response
    object whose [choices] and [content] are not strings, [parseResponse]
    returns a truthy value: the text it extracts, or ['No response'] when the
    text is missing or empty.  A response without [choices], [content] and
    [response] parses to ['No response']. *)
Theorem parseResponse_never_empty (c : modelClient) (g : value) (o : obj) :
  prop "responseFormat" (mc_schema c) = Some g ->
  wire_of g <> Other ->
  is_str (obj_get "choices" o) = false ->
  is_str (obj_get "content" o) = false ->
  exists v,
    parseResponse c (VObj o) = Some v
    /\ truthy v = true
    /\ (truthy (obj_get "choices" o) = false ->
        truthy (obj_get "content" o) = false ->
        truthy (obj_get "response" o) = false ->
        v = VStr "No response").
Proof.
  intros Hg Hw Hch Hco. unfold parseResponse. rewrite Hg. cbn [prop].
  destruct (wire_of g); try contradiction.
  - destruct (opt_index0_some _ Hch) as [first E1]. rewrite E1.
    destruct (opt_prop_some "message" first) as [msg E2]. rewrite E2.
    destruct (opt_prop_some "content" msg) as [content E3]. rewrite E3.
    destruct (opt_prop_some "text" first) as [text E4]. rewrite E4.
    destruct (truthy content) eqn:T.
    + exists content. split; [reflexivity|]. split; [exact T|].
      intros F _ _. rewrite (opt_index0_falsy _ Hch F) in E1.
      injection E1 as <-. simpl in E2. injection E2 as <-.
      simpl in E3. injection E3 as <-. discriminate.
    + eexists. split; [reflexivity|]. split; [now apply js_or_truthy|].
      intros F _ _. rewrite (opt_index0_falsy _ Hch F) in E1.
      injection E1 as <-. simpl in E4. injection E4 as <-. reflexivity.
  - destruct (opt_index0_some _ Hco) as [first E1]. rewrite E1.
    destruct (opt_prop_some "text" first) as [text E2]. rewrite E2.
    eexists. split; [reflexivity|]. split; [now apply js_or_truthy|].
    intros _ F _. rewrite (opt_index0_falsy _ Hco F) in E1.
    injection E1 as <-. simpl in E2. injection E2 as <-. reflexivity.
  - eexists. split; [reflexivity|]. split; [now apply js_or_truthy|].
    intros _ _ F. now apply js_or_falsy.
Qed.

Lemma parseResponse_never_empty_witness :
  prop "responseFormat" (VObj [("responseFormat", VStr "openai-compatible")])
  = Some (VStr "openai-compatible")
  /\ wire_of (VStr "openai-compatible") <> Other
  /\ is_str (obj_get "choices" [("choices", VArr [VObj [("text", VStr "")]])]) = false
  /\ is_str (obj_get "content" [("choices", VArr [VObj [("text", VStr "")]])]) = false
  /\ exists v,
       parseResponse
         {| mc_communication := VNull; mc_endpoint := VUndef;
            mc_schema := VObj [("responseFormat", VStr "openai-compatible")];
            mc_name := VStr "n" |}
         (VObj [("choices", VArr [VObj [("text", VStr "")]])]) = Some v
       /\ truthy v = true
       /\ (truthy (obj_get "choices" [("choices", VArr [VObj [("text", VStr "")]])])
           = false ->
           truthy (obj_get "content" [("choices", VArr [VObj [("text", VStr "")]])])
           = false ->
           truthy (obj_get "response" [("choices", VArr [VObj [("text", VStr "")]])])
           = false ->
           v = VStr "No response").
Proof.
  split; [reflexivity|]. split; [discriminate|].
  split; [reflexivity|]. split; [reflexivity|].
  apply (parseResponse_never_empty
           {| mc_communication := VNull; mc_endpoint := VUndef;
              mc_schema := VObj [("responseFormat", VStr "openai-compatible")];
              mc_name := VStr "n" |}
           (VStr "openai-compatible") [("choices", VArr [VObj [("text", VStr "")]])]);
    [reflexivity | discriminate | reflexivity | reflexivity].
Defined.

(** *** The client built from the served descriptor *)

(** X18.  A [ModelClient] built from the descriptor that the registry serves
    never sends the key of the model.  When the model authenticates by
    ['api-key'] and has a key, the header that [sendRequest] sets carries the
    mask: [Authorization: Bearer ***hidden***], or [x-api-key: ***hidden***]
    in the ['anthropic'] format; when the model has no key, no authentication
    header is set.  For an unknown id the route answers 404 and no client is
    built.  The ids are plain path segments: the client puts the id into the
    request path as it is. *)
Theorem client_sends_mask
  (id unknown : string) (created : Z) (now : string) (r : registry) (m schema : obj) :
  plain_segment id = true -> plain_segment unknown = true ->
  map_get id (models r) = Some m ->
  map_get unknown (models r) = None ->
  describable m = true ->
  obj_get "communicationSchema" m = VObj schema ->
  obj_wf schema = true ->
  obj_get "authMethod" schema = VStr "api-key" ->
  get_communication unknown created now r = Some not_found
  /\ createModelClient unknown created now r = None
  /\ exists c,
       createModelClient id created now r = Some c
       /\ requestHeaders c =
          Some (if truthy (obj_get "apiKey" m) then
                  if strict_eq (obj_get "requestFormat" schema) (VStr "anthropic") then
                    [("Content-Type", VStr "application/json");
                     ("User-Agent", VStr "AIRegistryClient/1.0");
                     ("x-api-key", VStr "***hidden***");
                     ("anthropic-version", VStr "2023-06-01")]
                  else
                    [("Content-Type", VStr "application/json");
                     ("User-Agent", VStr "AIRegistryClient/1.0");
                     ("Authorization", VStr "Bearer ***hidden***")]
                else
                  [("Content-Type", VStr "application/json");
                   ("User-Agent", VStr "AIRegistryClient/1.0")]).
Proof.
  intros Hid Hunk Hm Hu Hd Hcs Hw Ham.
  assert (get_communication unknown created now r = Some not_found) as Hnf.
  { unfold get_communication, getModelCommunication. now rewrite Hu. }
  split; [exact Hnf|]. split.
  { unfold createModelClient, route_id. now rewrite Hunk, Hnf. }
  destruct (generateExampleRequest_some m Hd) as [rq Hrq].
  destruct (generateExampleResponse_some m created now Hd) as [rs Hrs].
  set (d := [("id", obj_get "id" m); ("name", obj_get "name" m);
             ("endpoint", obj_get "endpoint" m);
             ("protocol", obj_get "protocol" m);
             ("communicationSchema", VObj schema);
             ("authMethod", VStr "api-key");
             ("apiKey",
               if truthy (obj_get "apiKey" m) then VStr "***hidden***" else VNull);
             ("exampleRequest", rq); ("exampleResponse", rs)]).
  assert (getModelCommunication id created now r = Some (VObj d)) as E.
  { unfold getModelCommunication. rewrite Hm, Hrq, Hrs, Hcs. cbn [prop].
    now rewrite Ham. }
  assert (obj_wf d = true) as Wd by reflexivity.
  assert (createModelClient id created now r
          = newModelClient (VObj (json_fields d))) as Ec.
  { unfold createModelClient, route_id, get_communication.
    rewrite Hid, E. reflexivity. }
  rewrite Ec. unfold newModelClient. cbn [prop].
  eexists. split; [reflexivity|].
  unfold requestHeaders. cbn [mc_schema mc_communication prop].
  rewrite !(obj_get_json _ d Wd).
  change (obj_get "communicationSchema" d) with (VObj schema).
  change (obj_get "apiKey" d)
    with (if truthy (obj_get "apiKey" m) then VStr "***hidden***" else VNull).
  rewrite to_json_obj. cbn [prop].
  rewrite !(obj_get_json _ schema Hw), Ham, !strict_eq_to_json.
  destruct (truthy (obj_get "apiKey" m)); [|reflexivity].
  destruct (strict_eq (obj_get "requestFormat" schema) (VStr "anthropic"));
    reflexivity.
Qed.

Lemma client_sends_mask_witness :
  plain_segment "s" = true
  /\ plain_segment "z" = true
  /\ map_get "s" (models secret_store)
  = Some (modelEntry secret_input (VStr "s") "2024-01-01T00:00:00.000Z")
  /\ map_get "z" (models secret_store) = None
  /\ obj_get "apiKey" (modelEntry secret_input (VStr "s") "2024-01-01T00:00:00.000Z")
     = VStr "secret"
  /\ get_communication "z" 1700000000 "t" secret_store = Some not_found
  /\ createModelClient "z" 1700000000 "t" secret_store = None
  /\ exists c,
       createModelClient "s" 1700000000 "t" secret_store = Some c
       /\ requestHeaders c =
          Some [("Content-Type", VStr "application/json");
                ("User-Agent", VStr "AIRegistryClient/1.0");
                ("Authorization", VStr "Bearer ***hidden***")].
Proof.
  split; [reflexivity|]. split; [reflexivity|].
  split; [reflexivity|]. split; [reflexivity|]. split; [reflexivity|].
  exact (client_sends_mask "s" "z" 1700000000 "t" secret_store
           (modelEntry secret_input (VStr "s") "2024-01-01T00:00:00.000Z")
           [("requestFormat", VStr "openai-compatible");
            ("responseFormat", VStr "openai-compatible");
            ("streamingSupported", VBool false);
            ("authMethod", VStr "api-key")]
           eq_refl eq_refl eq_refl eq_refl eq_refl eq_refl eq_refl eq_refl).
Defined.

End ClientFacts.
